(** * The AtomSpace core of coggml (ggml-opencog), embedded in Rocq

    The C unit behind [ggml-opencog.h] is a fixed-capacity table of atoms
    (nodes and links) with truth values, attention values, two inference
    rules and a handful of linear-scan queries.  This file translates that
    unit function by function and proves the properties stated for it.

    Conventions of the embedding:
    - [float] is IEEE-754 binary32: Rocq's [spec_float] at precision 24 and
      maximal exponent 128, every C operation rounding once to nearest-even
      (no excess precision, no fused multiply-add); a NaN is quiet or
      signaling, payloads apart, and [fminf] and [fmaxf] are those of the
      C library, which tell the two kinds apart;
    - [uint64_t] is [Z] with the wrap-around of [++] written out;
    - the array [atoms[0 .. atom_count-1]] is a list, so [atom_count] is its
      length, and a pointer into the array is an index;
    - [time(NULL)] is the argument [now] of every function that reads the
      clock;
    - [printf] output, [malloc] failure and the ggml tensor handles
      ([ctx], [tensor_encoding], [cogfluence_system]) are left out: no
      function modelled here reads them back.  Of the functions that
      serve those handles ([opencog_compute_similarity], the tensor
      bridges, [opencog_print_atom]) what they do to the table is
      translated, and of [opencog_from_cogfluence_unit] all but the copy
      of the tensor; [opencog_link_cogfluence] and the statistics
      printer do not write the table.  [opencog_delete_atom],
      [opencog_save_atomspace] and [opencog_load_atomspace] are declared
      in the header without a definition: nothing in the unit ever sets
      [is_deleted];
    - of the callers, the program interpreter [moses_program_execute] of
      [ggml-distributed-cognitive.c], which runs the PLN combinators, is
      translated in the module [Moses]. *)

From Stdlib Require Import ZArith QArith Qabs String Ascii List Lia.
From Stdlib Require Import Floats.SpecFloat.
From stdpp Require Import base list strings pretty.

Local Open Scope Z_scope.

(** ** binary32 arithmetic *)

Module F32.

Definition prec : Z := 24.
Definition emax : Z := 128.

(** A binary32 value.  [Val x] is a zero, a finite number, an infinity
    or, as [Val S754_nan], a quiet NaN; [SNaN] is a signaling NaN.
    Assignments, struct copies and [memcpy] keep a signaling NaN as it
    is; arithmetic and comparisons treat it as a NaN and give a quiet
    result; [fminf] and [fmaxf] tell the two kinds apart. *)
Inductive float32 : Type :=
  | Val (x : spec_float)
  | SNaN.

Definition qNaN : float32 := Val S754_nan.

(** What an arithmetic operation or a comparison sees of its operand. *)
Definition quiet (x : float32) : spec_float :=
  match x with
  | Val v => v
  | SNaN => S754_nan
  end.

Definition is_nan (x : float32) : bool :=
  match x with
  | Val S754_nan | SNaN => true
  | _ => false
  end.

Definition is_signaling (x : float32) : bool :=
  match x with
  | SNaN => true
  | _ => false
  end.

Definition add (x y : float32) : float32 := Val (SFadd prec emax (quiet x) (quiet y)).
Definition sub (x y : float32) : float32 := Val (SFsub prec emax (quiet x) (quiet y)).
Definition mul (x y : float32) : float32 := Val (SFmul prec emax (quiet x) (quiet y)).
Definition div (x y : float32) : float32 := Val (SFdiv prec emax (quiet x) (quiet y)).

(** [a < b], [a <= b] and [a > b] of C: false as soon as one side is a
    NaN of either kind. *)
Definition ltb (a b : float32) : bool := SFltb (quiet a) (quiet b).
Definition leb (a b : float32) : bool := SFleb (quiet a) (quiet b).
Definition gtb (a b : float32) : bool := ltb b a.

(** The order of two values; [None] when one of them is a NaN. *)
Definition compare (a b : float32) : option comparison :=
  SFcompare (quiet a) (quiet b).

(** [fabsf] clears the sign bit and nothing else. *)
Definition fabsf (x : float32) : float32 :=
  match x with
  | Val v => Val (SFabs v)
  | SNaN => SNaN
  end.

(** Conversion of an integer to [float], as in [(float)n]. *)
Definition of_Z (n : Z) : float32 := Val (binary_normalize prec emax n 0 false).

(** The binary32 value nearest to the decimal literal [num/den]f. *)
Definition of_ratio (num den : Z) : float32 := div (of_Z num) (of_Z den).

(** [fminf] and [fmaxf] of the C library (glibc's generic template):
    [if (islessequal (x, y)) return x; else if (isgreater (x, y)) return y;
     else if (issignaling (x) || issignaling (y)) return x + y;
     else return isnan (y) ? x : y;]
    and the mirror image for [fmaxf].  A quiet NaN is dropped in favour
    of the other argument; a signaling NaN makes the result a NaN. *)
Definition fminf (x y : float32) : float32 :=
  if leb x y then x
  else if gtb x y then y
  else if is_signaling x || is_signaling y then add x y
  else if is_nan y then x else y.

Definition fmaxf (x y : float32) : float32 :=
  if leb y x then x
  else if ltb x y then y
  else if is_signaling x || is_signaling y then add x y
  else if is_nan y then x else y.

(** The literals of the C source. *)
Definition zero : float32 := Val (S754_zero false).
Definition one : float32 := Val (S754_finite false 8388608 (-23)).
Definition minus_one : float32 := Val (S754_finite true 8388608 (-23)).
Definition c0_1 : float32 := Val (S754_finite false 13421773 (-27)).
Definition c0_5 : float32 := Val (S754_finite false 8388608 (-24)).
Definition c0_8 : float32 := Val (S754_finite false 13421773 (-24)).
Definition c0_85 : float32 := Val (S754_finite false 14260634 (-24)).
Definition c0_9 : float32 := Val (S754_finite false 15099494 (-24)).
Definition c0_95 : float32 := Val (S754_finite false 15938355 (-24)).
Definition c10 : float32 := Val (S754_finite false 10485760 (-20)).

(** Exact rational value of a finite float, for tolerance checks. *)
Definition to_Q (x : float32) : option Q :=
  match quiet x with
  | S754_zero _ => Some 0%Q
  | S754_finite s m e =>
      let n := if s then Zneg m else Zpos m in
      Some (match e with
            | Z0 => inject_Z n
            | Zpos p => inject_Z (n * 2 ^ Zpos p)
            | Zneg p => Qmake n (2 ^ p)%positive
            end)
  | _ => None
  end.

(** [within x q tol]: [x] is finite and [|x - q| <= tol]. *)
Definition within (x : float32) (q tol : Q) : bool :=
  match to_Q x with
  | Some v => Qle_bool (Qabs (v - q)) tol
  | None => false
  end.

(** [0 <= x <= 1], false on NaN. *)
Definition in_unit (x : float32) : bool :=
  leb zero x && leb x one.

(** The binary32 value [k * 2^-24], for [0 <= k <= 2^24]: the floats of
    [0, 1] whose subtraction from 1 is exact. *)
Definition grid (k : Z) : float32 :=
  Val (binary_normalize prec emax k (-24) false).

(** The 24-bit mantissa of [q * 2^-24]: [q] shifted left until it has 24
    digits. *)
Definition canon (q : positive) : positive :=
  match (24 - Zpos (digits2_pos q))%Z with
  | Zpos n => Pos.iter xO q n
  | _ => q
  end.

End F32.

Import F32.

#[global] Arguments add : simpl never.
#[global] Arguments sub : simpl never.
#[global] Arguments mul : simpl never.
#[global] Arguments div : simpl never.
#[global] Arguments of_Z : simpl never.
#[global] Arguments fminf : simpl never.
#[global] Arguments fmaxf : simpl never.
#[global] Arguments gtb : simpl never.
#[global] Arguments fabsf : simpl never.
#[global] Arguments within : simpl never.

(** ** Data model ([ggml-opencog.h]) *)

Definition OPENCOG_MAX_ATOMS : nat := 2048.
Definition OPENCOG_MAX_ATOM_NAME : nat := 256.

Inductive opencog_atom_type_t : Type :=
  | OPENCOG_CONCEPT_NODE
  | OPENCOG_PREDICATE_NODE
  | OPENCOG_VARIABLE_NODE
  | OPENCOG_INHERITANCE_LINK
  | OPENCOG_EVALUATION_LINK
  | OPENCOG_IMPLICATION_LINK
  | OPENCOG_SIMILARITY_LINK
  | OPENCOG_MEMBER_LINK.

Definition atom_type_eqb (x y : opencog_atom_type_t) : bool :=
  match x, y with
  | OPENCOG_CONCEPT_NODE, OPENCOG_CONCEPT_NODE
  | OPENCOG_PREDICATE_NODE, OPENCOG_PREDICATE_NODE
  | OPENCOG_VARIABLE_NODE, OPENCOG_VARIABLE_NODE
  | OPENCOG_INHERITANCE_LINK, OPENCOG_INHERITANCE_LINK
  | OPENCOG_EVALUATION_LINK, OPENCOG_EVALUATION_LINK
  | OPENCOG_IMPLICATION_LINK, OPENCOG_IMPLICATION_LINK
  | OPENCOG_SIMILARITY_LINK, OPENCOG_SIMILARITY_LINK
  | OPENCOG_MEMBER_LINK, OPENCOG_MEMBER_LINK => true
  | _, _ => false
  end.

Record opencog_truth_value_t : Type := mk_tv {
  strength : float32;
  confidence : float32;
  count : float32
}.

Record opencog_attention_value_t : Type := mk_av {
  sti : float32;
  lti : float32;
  vlti : float32
}.

Record opencog_atom_t : Type := mk_atom {
  atom_id : Z;
  name : string;
  type : opencog_atom_type_t;
  truth_value : opencog_truth_value_t;
  attention_value : opencog_attention_value_t;
  cogfluence_unit_id : Z;
  outgoing : list Z;
  outgoing_capacity : nat;
  incoming : list Z;
  incoming_capacity : nat;
  creation_time : Z;
  last_access : Z;
  is_deleted : bool
}.

Record opencog_atomspace_t : Type := mk_atomspace {
  atoms : list opencog_atom_t;
  atom_capacity : nat;
  initialized : bool;
  next_atom_id : Z;
  attention_decay_rate : float32;
  attention_threshold : float32;
  importance_diffusion_rate : float32;
  default_strength : float32;
  default_confidence : float32;
  total_inferences : Z;
  successful_inferences : Z;
  reasoning_accuracy : float32
}.

Definition atom_count (s : opencog_atomspace_t) : nat := length (atoms s).
Definition outgoing_count (a : opencog_atom_t) : nat := length (outgoing a).
Definition incoming_count (a : opencog_atom_t) : nat := length (incoming a).

(** *** Field assignments *)

Definition set_last_access (t : Z) (a : opencog_atom_t) : opencog_atom_t :=
  mk_atom (atom_id a) (name a) (type a) (truth_value a) (attention_value a)
    (cogfluence_unit_id a) (outgoing a) (outgoing_capacity a) (incoming a)
    (incoming_capacity a) (creation_time a) t (is_deleted a).

Definition set_truth (tv : opencog_truth_value_t) (a : opencog_atom_t)
  : opencog_atom_t :=
  mk_atom (atom_id a) (name a) (type a) tv (attention_value a)
    (cogfluence_unit_id a) (outgoing a) (outgoing_capacity a) (incoming a)
    (incoming_capacity a) (creation_time a) (last_access a) (is_deleted a).

Definition set_attention (av : opencog_attention_value_t) (a : opencog_atom_t)
  : opencog_atom_t :=
  mk_atom (atom_id a) (name a) (type a) (truth_value a) av
    (cogfluence_unit_id a) (outgoing a) (outgoing_capacity a) (incoming a)
    (incoming_capacity a) (creation_time a) (last_access a) (is_deleted a).

Definition set_incoming (l : list Z) (cap : nat) (a : opencog_atom_t)
  : opencog_atom_t :=
  mk_atom (atom_id a) (name a) (type a) (truth_value a) (attention_value a)
    (cogfluence_unit_id a) (outgoing a) (outgoing_capacity a) l cap
    (creation_time a) (last_access a) (is_deleted a).

Definition set_atoms (l : list opencog_atom_t) (s : opencog_atomspace_t)
  : opencog_atomspace_t :=
  mk_atomspace l (atom_capacity s) (initialized s) (next_atom_id s)
    (attention_decay_rate s) (attention_threshold s)
    (importance_diffusion_rate s) (default_strength s) (default_confidence s)
    (total_inferences s) (successful_inferences s) (reasoning_accuracy s).

Definition set_next_atom_id (n : Z) (s : opencog_atomspace_t)
  : opencog_atomspace_t :=
  mk_atomspace (atoms s) (atom_capacity s) (initialized s) n
    (attention_decay_rate s) (attention_threshold s)
    (importance_diffusion_rate s) (default_strength s) (default_confidence s)
    (total_inferences s) (successful_inferences s) (reasoning_accuracy s).

Definition set_metrics (total ok : Z) (acc : float32) (s : opencog_atomspace_t)
  : opencog_atomspace_t :=
  mk_atomspace (atoms s) (atom_capacity s) (initialized s) (next_atom_id s)
    (attention_decay_rate s) (attention_threshold s)
    (importance_diffusion_rate s) (default_strength s) (default_confidence s)
    total ok acc.

(** [p->field = ...] through a pointer [p = &atoms[i]]. *)
Definition modify_atom (i : nat) (f : opencog_atom_t -> opencog_atom_t)
    (s : opencog_atomspace_t) : opencog_atomspace_t :=
  set_atoms (alter f i (atoms s)) s.

(** [uint64_t] arithmetic. *)
Definition wrap64 (z : Z) : Z := z mod 2 ^ 64.

(** ** Operations ([ggml-opencog.c]) *)

Definition generate_atom_id (s : opencog_atomspace_t)
  : Z * opencog_atomspace_t :=
  (next_atom_id s, set_next_atom_id (wrap64 (next_atom_id s + 1)) s).

Definition opencog_atomspace_init : opencog_atomspace_t :=
  {| atoms := [];
     atom_capacity := OPENCOG_MAX_ATOMS;
     initialized := true;
     next_atom_id := 1;
     attention_decay_rate := c0_95;
     attention_threshold := c0_1;
     importance_diffusion_rate := c0_1;
     default_strength := c0_8;
     default_confidence := c0_9;
     total_inferences := 0;
     successful_inferences := 0;
     reasoning_accuracy := zero |}.

(** [strncpy(atom->name, name, 255)] followed by the terminating NUL. *)
Definition copy_name (n : string) : string :=
  substring 0 (OPENCOG_MAX_ATOM_NAME - 1) n.

(** The field initialisation of [opencog_add_node]. *)
Definition init_node (now : Z) (s : opencog_atomspace_t) (id : Z)
    (ty : opencog_atom_type_t) (n : string) : opencog_atom_t :=
  {| atom_id := id;
     name := copy_name n;
     type := ty;
     truth_value := mk_tv (default_strength s) (default_confidence s) one;
     attention_value := mk_av zero zero zero;
     cogfluence_unit_id := 0;
     outgoing := [];
     outgoing_capacity := 0;
     incoming := [];
     incoming_capacity := 0;
     creation_time := now;
     last_access := now;
     is_deleted := false |}.

(** A [NULL] name is [None]; the empty string is [Some ""%string]. *)
Definition opencog_add_node (now : Z) (s : opencog_atomspace_t)
    (ty : opencog_atom_type_t) (nm : option string)
  : Z * opencog_atomspace_t :=
  match nm with
  | None => (0, s)
  | Some n =>
      if (atom_capacity s <=? atom_count s)%nat then (0, s)
      else
        let '(id, s1) := generate_atom_id s in
        (id, set_atoms (atoms s1 ++ [init_node now s1 id ty n]) s1)
  end.

(** The linear search of [opencog_get_atom]: index of the first slot that
    carries [id] and is not deleted. *)
Fixpoint find_live (l : list opencog_atom_t) (id : Z) : option nat :=
  match l with
  | [] => None
  | a :: l' =>
      if (atom_id a =? id) && negb (is_deleted a) then Some 0%nat
      else option_map S (find_live l' id)
  end.

Definition opencog_get_atom (now : Z) (s : opencog_atomspace_t) (id : Z)
  : option nat * opencog_atomspace_t :=
  if id =? 0 then (None, s)
  else
    match find_live (atoms s) id with
    | Some i => (Some i, modify_atom i (set_last_access now) s)
    | None => (None, s)
    end.

(** First loop of [opencog_add_link]: every outgoing id must resolve. *)
Fixpoint verify_outgoing (now : Z) (s : opencog_atomspace_t) (out : list Z)
  : bool * opencog_atomspace_t :=
  match out with
  | [] => (true, s)
  | id :: rest =>
      match opencog_get_atom now s id with
      | (Some _, s') => verify_outgoing now s' rest
      | (None, s') => (false, s')
      end
  end.

(** Growth of the [incoming] array: 4 slots, then doubling. *)
Definition push_incoming (link : Z) (a : opencog_atom_t) : opencog_atom_t :=
  let cap :=
    if (incoming_capacity a <=? incoming_count a)%nat
    then (if (incoming_capacity a =? 0)%nat then 4%nat
          else (incoming_capacity a * 2)%nat)
    else incoming_capacity a in
  set_incoming (incoming a ++ [link]) cap a.

(** Second loop of [opencog_add_link]: register the link with its targets.
    The new atom sits in slot [atom_count], which [opencog_get_atom] does
    not scan until the count is incremented. *)
Fixpoint link_incoming (now : Z) (s : opencog_atomspace_t) (link : Z)
    (out : list Z) : opencog_atomspace_t :=
  match out with
  | [] => s
  | id :: rest =>
      match opencog_get_atom now s id with
      | (Some j, s') =>
          link_incoming now (modify_atom j (push_incoming link) s') link rest
      | (None, s') => link_incoming now s' link rest
      end
  end.

(** The field initialisation of [opencog_add_link]; the name is
    [snprintf("Link_%lu", atom_id)]. *)
Definition init_link (now : Z) (s : opencog_atomspace_t) (id : Z)
    (ty : opencog_atom_type_t) (out : list Z) : opencog_atom_t :=
  {| atom_id := id;
     name := ("Link_" +:+ pretty id)%string;
     type := ty;
     truth_value := mk_tv (default_strength s) (default_confidence s) one;
     attention_value := mk_av zero zero zero;
     cogfluence_unit_id := 0;
     outgoing := out;
     outgoing_capacity := length out;
     incoming := [];
     incoming_capacity := 0;
     creation_time := now;
     last_access := now;
     is_deleted := false |}.

(** A [NULL] array or a zero [outgoing_count] is the empty list. *)
Definition opencog_add_link (now : Z) (s : opencog_atomspace_t)
    (ty : opencog_atom_type_t) (out : list Z) : Z * opencog_atomspace_t :=
  match out with
  | [] => (0, s)
  | _ =>
      if (atom_capacity s <=? atom_count s)%nat then (0, s)
      else
        match verify_outgoing now s out with
        | (false, s0) => (0, s0)
        | (true, s0) =>
            let '(id, s1) := generate_atom_id s0 in
            let s2 := link_incoming now s1 id out in
            (id, set_atoms (atoms s2 ++ [init_link now s1 id ty out]) s2)
        end
  end.

(** *** PLN combinators *)

(** The confidence expression shared by AND, OR and the deduction rule:
    [(c1 * c2) / (c1 + c2 - c1 * c2)]. *)
Definition combine_confidence (c1 c2 : float32) : float32 :=
  div (mul c1 c2) (sub (add c1 c2) (mul c1 c2)).

Definition opencog_pln_and (tv1 tv2 : opencog_truth_value_t)
  : opencog_truth_value_t :=
  {| strength := fminf (strength tv1) (strength tv2);
     confidence := combine_confidence (confidence tv1) (confidence tv2);
     count := fminf (count tv1) (count tv2) |}.

Definition opencog_pln_or (tv1 tv2 : opencog_truth_value_t)
  : opencog_truth_value_t :=
  {| strength := fmaxf (strength tv1) (strength tv2);
     confidence := combine_confidence (confidence tv1) (confidence tv2);
     count := fmaxf (count tv1) (count tv2) |}.

Definition opencog_pln_not (tv : opencog_truth_value_t)
  : opencog_truth_value_t :=
  {| strength := sub one (strength tv);
     confidence := confidence tv;
     count := count tv |}.

(** *** Truth and attention accessors *)

(** [fmaxf(lo, fminf(hi, x))]. *)
Definition clamp (lo hi x : float32) : float32 := fmaxf lo (fminf hi x).

Definition opencog_set_truth_value (now : Z) (s : opencog_atomspace_t)
    (id : Z) (st cf : float32) : opencog_atomspace_t :=
  match opencog_get_atom now s id with
  | (None, s') => s'
  | (Some i, s') =>
      modify_atom i (set_truth (mk_tv (clamp zero one st) (clamp zero one cf) one)) s'
  end.

(** Reads [p->field] where [p = &atoms[i]]; the default is never reached
    for an index returned by [opencog_get_atom]. *)
Definition atom_at (s : opencog_atomspace_t) (i : nat) : option opencog_atom_t :=
  atoms s !! i.

Definition opencog_get_truth_value (now : Z) (s : opencog_atomspace_t) (id : Z)
  : opencog_truth_value_t * opencog_atomspace_t :=
  match opencog_get_atom now s id with
  | (Some i, s') =>
      (match atom_at s' i with
       | Some a => truth_value a
       | None => mk_tv zero zero zero
       end, s')
  | (None, s') => (mk_tv zero zero zero, s')
  end.

Definition opencog_set_attention_value (now : Z) (s : opencog_atomspace_t)
    (id : Z) (st lt vl : float32) : opencog_atomspace_t :=
  match opencog_get_atom now s id with
  | (None, s') => s'
  | (Some i, s') =>
      modify_atom i
        (set_attention
           (mk_av (clamp minus_one one st) (clamp zero one lt) (clamp zero one vl)))
        s'
  end.

Definition opencog_get_attention_value (now : Z) (s : opencog_atomspace_t)
    (id : Z) : opencog_attention_value_t * opencog_atomspace_t :=
  match opencog_get_atom now s id with
  | (Some i, s') =>
      (match atom_at s' i with
       | Some a => attention_value a
       | None => mk_av zero zero zero
       end, s')
  | (None, s') => (mk_av zero zero zero, s')
  end.

(** *** ECAN: decay and spreading *)

(** Body of the loop of [opencog_update_attention_values] for one slot. *)
Definition decay_atom (rate threshold : float32) (a : opencog_atom_t)
  : opencog_atom_t :=
  if is_deleted a then a
  else
    let av := attention_value a in
    let sti1 := mul (sti av) rate in
    let lti1 := mul (lti av) rate in
    let '(sti2, lti2) :=
      if gtb sti1 threshold
      then (let transfer := mul sti1 c0_1 in
            (sub sti1 transfer, add lti1 transfer))
      else (sti1, lti1) in
    set_attention
      (mk_av (clamp minus_one one sti2) (clamp zero one lti2)
         (clamp zero one (vlti av)))
      a.

Definition opencog_update_attention_values (s : opencog_atomspace_t)
  : opencog_atomspace_t :=
  set_atoms
    (decay_atom (attention_decay_rate s) (attention_threshold s) <$> atoms s)
    s.

(** [target->sti += amount], then the clamp to [-1, 1]. *)
Definition add_sti (amount : float32) (a : opencog_atom_t) : opencog_atom_t :=
  let av := attention_value a in
  set_attention (mk_av (clamp minus_one one (add (sti av) amount)) (lti av) (vlti av)) a.

(** One of the two loops of [opencog_spread_attention] over an id array.
    The loop body writes neither array nor their counts, so the array is
    read once. *)
Fixpoint spread_to (now : Z) (s : opencog_atomspace_t) (amount : float32)
    (targets : list Z) : opencog_atomspace_t :=
  match targets with
  | [] => s
  | id :: rest =>
      match opencog_get_atom now s id with
      | (Some j, s') => spread_to now (modify_atom j (add_sti amount) s') amount rest
      | (None, s') => spread_to now s' amount rest
      end
  end.

Definition spread_over (now : Z) (s : opencog_atomspace_t) (amount : float32)
    (targets : list Z) : opencog_atomspace_t :=
  match targets with
  | [] => s
  | _ => spread_to now s (div amount (of_Z (Z.of_nat (length targets)))) targets
  end.

Definition opencog_spread_attention (now : Z) (s : opencog_atomspace_t)
    (source_atom_id : Z) (amount : float32) : opencog_atomspace_t :=
  match opencog_get_atom now s source_atom_id with
  | (None, s') => s'
  | (Some i, s1) =>
      let s2 :=
        match atom_at s1 i with
        | Some src => spread_over now s1 amount (outgoing src)
        | None => s1
        end in
      match atom_at s2 i with
      | Some src => spread_over now s2 amount (incoming src)
      | None => s2
      end
  end.

(** *** Inference *)

(** [outgoing_count >= 2 && outgoing[0] == x && outgoing[1] == y]. *)
Definition starts_with (a : opencog_atom_t) (x y : Z) : bool :=
  match outgoing a with
  | o0 :: o1 :: _ => (o0 =? x) && (o1 =? y)
  | _ => false
  end.

(** The scan of [opencog_infer_inheritance]: [(ab_link, bc_link)] after
    the loop, started from [(0, 0)]; a later match overwrites an earlier
    one. *)
Definition scan_step (a b c : Z) (acc : Z * Z) (atom : opencog_atom_t) : Z * Z :=
  if is_deleted atom || negb (atom_type_eqb (type atom) OPENCOG_INHERITANCE_LINK)
  then acc
  else
    let ab := if starts_with atom a b then atom_id atom else fst acc in
    let bc := if starts_with atom b c then atom_id atom else snd acc in
    (ab, bc).

Definition scan_premises (l : list opencog_atom_t) (a b c : Z) : Z * Z :=
  fold_left (scan_step a b c) l (0, 0).

Definition record_success (s : opencog_atomspace_t) : opencog_atomspace_t :=
  let total := wrap64 (total_inferences s + 1) in
  let ok := wrap64 (successful_inferences s + 1) in
  set_metrics total ok (div (of_Z ok) (of_Z total)) s.

Definition record_failure (s : opencog_atomspace_t) : opencog_atomspace_t :=
  set_metrics (wrap64 (total_inferences s + 1)) (successful_inferences s)
    (reasoning_accuracy s) s.

Definition opencog_infer_inheritance (now : Z) (s : opencog_atomspace_t)
    (concept_a concept_b concept_c : Z) : bool * opencog_atomspace_t :=
  let '(ab_link, bc_link) := scan_premises (atoms s) concept_a concept_b concept_c in
  if (ab_link =? 0) || (bc_link =? 0) then (false, s)
  else
    let '(tv_ab, s1) := opencog_get_truth_value now s ab_link in
    let '(tv_bc, s2) := opencog_get_truth_value now s1 bc_link in
    let tv_result :=
      {| strength := mul (strength tv_ab) (strength tv_bc);
         confidence := combine_confidence (confidence tv_ab) (confidence tv_bc);
         count := fminf (count tv_ab) (count tv_bc) |} in
    let '(ac_link, s3) :=
      opencog_add_link now s2 OPENCOG_INHERITANCE_LINK [concept_a; concept_c] in
    if 0 <? ac_link then
      let s4 :=
        opencog_set_truth_value now s3 ac_link (strength tv_result)
          (confidence tv_result) in
      (true, record_success s4)
    else (false, record_failure s3).

(** The three running sums of [opencog_infer_similarity]. *)
Definition related (a : opencog_atom_t) (x : Z) : bool :=
  match outgoing a with
  | o0 :: o1 :: _ => (o0 =? x) || (o1 =? x)
  | _ => false
  end.

Definition relation_step (a b : Z) (acc : float32 * float32 * float32)
    (atom : opencog_atom_t) : float32 * float32 * float32 :=
  if is_deleted atom || negb (atom_type_eqb (type atom) OPENCOG_INHERITANCE_LINK)
  then acc
  else
    match outgoing atom with
    | _ :: _ :: _ =>
        let '(common, total_a, total_b) := acc in
        let w := strength (truth_value atom) in
        let ra := related atom a in
        let rb := related atom b in
        (if ra && rb then add common w else common,
         if ra then add total_a w else total_a,
         if rb then add total_b w else total_b)
    | _ => acc
    end.

Definition opencog_infer_similarity (now : Z) (s : opencog_atomspace_t)
    (concept_a concept_b : Z) : bool * opencog_atomspace_t :=
  let '(common, total_a, total_b) :=
    fold_left (relation_step concept_a concept_b) (atoms s) (zero, zero, zero) in
  let denom := sub (add total_a total_b) common in
  let similarity_strength := if gtb denom zero then div common denom else zero in
  if gtb similarity_strength c0_1 then
    let '(sim_link, s1) :=
      opencog_add_link now s OPENCOG_SIMILARITY_LINK [concept_a; concept_b] in
    if 0 <? sim_link then
      let cf := fminf c0_9 (div common c10) in
      let s2 := opencog_set_truth_value now s1 sim_link similarity_strength cf in
      (true, record_success s2)
    else (false, record_failure s1)
  else (false, record_failure s).

(** *** Queries *)

Definition opencog_query_by_type (s : opencog_atomspace_t)
    (ty : opencog_atom_type_t) : list Z :=
  atom_id <$>
    filter (fun a => Is_true (negb (is_deleted a) && atom_type_eqb (type a) ty))
      (atoms s).

Definition opencog_query_by_name (s : opencog_atomspace_t) (nm : string)
  : list Z :=
  atom_id <$>
    filter (fun a => Is_true (negb (is_deleted a) && String.eqb (name a) nm))
      (atoms s).

(** An absent target and an empty adjacency array both come back as the
    empty result. *)
Definition opencog_query_incoming (now : Z) (s : opencog_atomspace_t) (id : Z)
  : list Z * opencog_atomspace_t :=
  match opencog_get_atom now s id with
  | (Some i, s') =>
      (match atom_at s' i with Some a => incoming a | None => [] end, s')
  | (None, s') => ([], s')
  end.

Definition opencog_query_outgoing (now : Z) (s : opencog_atomspace_t) (id : Z)
  : list Z * opencog_atomspace_t :=
  match opencog_get_atom now s id with
  | (Some i, s') =>
      (match atom_at s' i with Some a => outgoing a | None => [] end, s')
  | (None, s') => ([], s')
  end.

(** *** The Cogfluence bridge

    The knowledge unit of [ggml-cogfluence.h]: the record holds the
    fields [opencog_from_cogfluence_unit] reads.  [name] is a [char]
    array of the unit (128 bytes), never [NULL]; the tensors, the
    timestamps and the relation array of the unit are not read by the
    scalar part of the bridge. *)

Module Cogfluence.

Inductive cogfluence_unit_type_t : Type :=
  | COGFLUENCE_CONCEPT
  | COGFLUENCE_RELATION
  | COGFLUENCE_WORKFLOW
  | COGFLUENCE_RULE
  | COGFLUENCE_PATTERN.

Record cogfluence_knowledge_unit_t : Type := mk_unit {
  name : string;
  type : cogfluence_unit_type_t;
  atomspace_id : Z;
  truth_value : float32;
  confidence : float32;
  activation_level : float32;
  attention_value : float32
}.

End Cogfluence.

(** The [switch] on [unit->type]. *)
Definition unit_atom_type (ty : Cogfluence.cogfluence_unit_type_t)
  : opencog_atom_type_t :=
  match ty with
  | Cogfluence.COGFLUENCE_CONCEPT => OPENCOG_CONCEPT_NODE
  | Cogfluence.COGFLUENCE_RELATION => OPENCOG_INHERITANCE_LINK
  | Cogfluence.COGFLUENCE_RULE => OPENCOG_IMPLICATION_LINK
  | _ => OPENCOG_CONCEPT_NODE
  end.

(** The five assignments through the atom pointer: strength, confidence,
    sti, lti and the unit id are copied as they are, without a clamp;
    count and vlti keep what [opencog_add_node] gave them.  The copy of
    the unit's tensor ([ggml_dup]) is outside the scalar model. *)
Definition import_unit (u : Cogfluence.cogfluence_knowledge_unit_t)
    (a : opencog_atom_t) : opencog_atom_t :=
  {| atom_id := atom_id a;
     name := name a;
     type := type a;
     truth_value :=
       mk_tv (Cogfluence.truth_value u) (Cogfluence.confidence u)
         (count (truth_value a));
     attention_value :=
       mk_av (Cogfluence.attention_value u) (Cogfluence.activation_level u)
         (vlti (attention_value a));
     cogfluence_unit_id := Cogfluence.atomspace_id u;
     outgoing := outgoing a;
     outgoing_capacity := outgoing_capacity a;
     incoming := incoming a;
     incoming_capacity := incoming_capacity a;
     creation_time := creation_time a;
     last_access := last_access a;
     is_deleted := is_deleted a |}.

(** A [NULL] unit is [None]. *)
Definition opencog_from_cogfluence_unit (now : Z) (s : opencog_atomspace_t)
    (unit : option Cogfluence.cogfluence_knowledge_unit_t)
  : Z * opencog_atomspace_t :=
  match unit with
  | None => (0, s)
  | Some u =>
      let '(atom_id, s1) :=
        opencog_add_node now s (unit_atom_type (Cogfluence.type u))
          (Some (Cogfluence.name u)) in
      if 0 <? atom_id then
        match opencog_get_atom now s1 atom_id with
        | (Some i, s2) => (atom_id, modify_atom i (import_unit u) s2)
        | (None, s2) => (atom_id, s2)
        end
      else (atom_id, s1)
  end.

(** *** The tensor functions and the printer, as far as the table goes

    Tensors and [printf] output are outside the model.  What these
    functions do to the table is what their lookups and the allocation
    do: [opencog_compute_similarity] looks both atoms up before it reads
    anything, [opencog_atom_to_tensor] and [opencog_print_atom] look one
    atom up, and [opencog_tensor_to_atom] adds a concept node and looks
    it up to attach the tensor.  Of the first three the table they leave
    is modelled; a [NULL] tensor is [false]. *)

Definition opencog_compute_similarity (now : Z) (s : opencog_atomspace_t)
    (atom1_id atom2_id : Z) : opencog_atomspace_t :=
  let '(_, s1) := opencog_get_atom now s atom1_id in
  let '(_, s2) := opencog_get_atom now s1 atom2_id in
  s2.

Definition opencog_atom_to_tensor (now : Z) (s : opencog_atomspace_t)
    (atom_id : Z) : opencog_atomspace_t :=
  snd (opencog_get_atom now s atom_id).

Definition opencog_print_atom (now : Z) (s : opencog_atomspace_t)
    (atom_id : Z) : opencog_atomspace_t :=
  snd (opencog_get_atom now s atom_id).

Definition opencog_tensor_to_atom (now : Z) (s : opencog_atomspace_t)
    (tensor : bool) (name : option string) : Z * opencog_atomspace_t :=
  match tensor, name with
  | true, Some n =>
      let '(atom_id, s1) := opencog_add_node now s OPENCOG_CONCEPT_NODE (Some n) in
      if atom_id =? 0 then (0, s1)
      else (atom_id, snd (opencog_get_atom now s1 atom_id))
  | _, _ => (0, s)
  end.

(** *** A client of the table

    One call of the interface with its arguments, and the state it leaves
    behind; results are dropped.  A run is a list of calls.  The
    functions without a call here do not write the table:
    [opencog_query_by_type] and [opencog_query_by_name] scan it,
    [opencog_link_cogfluence] stores a handle and
    [opencog_print_atomspace_statistics] prints. *)

Inductive api_call : Type :=
  | Call_add_node (now : Z) (ty : opencog_atom_type_t) (nm : option string)
  | Call_add_link (now : Z) (ty : opencog_atom_type_t) (out : list Z)
  | Call_get_atom (now : Z) (id : Z)
  | Call_set_truth_value (now : Z) (id : Z) (st cf : float32)
  | Call_get_truth_value (now : Z) (id : Z)
  | Call_set_attention_value (now : Z) (id : Z) (st lt vl : float32)
  | Call_get_attention_value (now : Z) (id : Z)
  | Call_update_attention_values
  | Call_spread_attention (now : Z) (id : Z) (amount : float32)
  | Call_infer_inheritance (now : Z) (a b c : Z)
  | Call_infer_similarity (now : Z) (a b : Z)
  | Call_query_incoming (now : Z) (id : Z)
  | Call_query_outgoing (now : Z) (id : Z)
  | Call_from_cogfluence_unit (now : Z)
      (unit : option Cogfluence.cogfluence_knowledge_unit_t)
  | Call_compute_similarity (now : Z) (a b : Z)
  | Call_atom_to_tensor (now : Z) (id : Z)
  | Call_tensor_to_atom (now : Z) (tensor : bool) (nm : option string)
  | Call_print_atom (now : Z) (id : Z).

Definition exec (c : api_call) (s : opencog_atomspace_t) : opencog_atomspace_t :=
  match c with
  | Call_add_node now ty nm => snd (opencog_add_node now s ty nm)
  | Call_add_link now ty out => snd (opencog_add_link now s ty out)
  | Call_get_atom now id => snd (opencog_get_atom now s id)
  | Call_set_truth_value now id st cf => opencog_set_truth_value now s id st cf
  | Call_get_truth_value now id => snd (opencog_get_truth_value now s id)
  | Call_set_attention_value now id st lt vl =>
      opencog_set_attention_value now s id st lt vl
  | Call_get_attention_value now id => snd (opencog_get_attention_value now s id)
  | Call_update_attention_values => opencog_update_attention_values s
  | Call_spread_attention now id amount => opencog_spread_attention now s id amount
  | Call_infer_inheritance now a b c => snd (opencog_infer_inheritance now s a b c)
  | Call_infer_similarity now a b => snd (opencog_infer_similarity now s a b)
  | Call_query_incoming now id => snd (opencog_query_incoming now s id)
  | Call_query_outgoing now id => snd (opencog_query_outgoing now s id)
  | Call_from_cogfluence_unit now unit => snd (opencog_from_cogfluence_unit now s unit)
  | Call_compute_similarity now a b => opencog_compute_similarity now s a b
  | Call_atom_to_tensor now id => opencog_atom_to_tensor now s id
  | Call_tensor_to_atom now tensor nm => snd (opencog_tensor_to_atom now s tensor nm)
  | Call_print_atom now id => opencog_print_atom now s id
  end.

Definition run (cs : list api_call) (s : opencog_atomspace_t)
  : opencog_atomspace_t :=
  fold_left (fun st c => exec c st) cs s.

(** The units a call hands to the bridge satisfy [allowed]; the other
    calls are unconstrained. *)
Definition imports (allowed : Cogfluence.cogfluence_knowledge_unit_t -> Prop)
    (c : api_call) : Prop :=
  match c with
  | Call_from_cogfluence_unit _ (Some u) => allowed u
  | _ => True
  end.

(** ** Predicates used in the statements *)

(** [id] names an atom of the table that is not deleted. *)
Definition live_atom (s : opencog_atomspace_t) (id : Z) : Prop :=
  exists a, In a (atoms s) /\ atom_id a = id /\ is_deleted a = false.

(** The table with every [last_access] stamp erased. *)
Definition forget_access (s : opencog_atomspace_t) : opencog_atomspace_t :=
  set_atoms (set_last_access 0 <$> atoms s) s.

(** Slots never share an id. *)
Definition ids_distinct (l : list opencog_atom_t) : Prop :=
  forall i j a b,
    l !! i = Some a -> l !! j = Some b -> atom_id a = atom_id b -> i = j.

(** What [opencog_atomspace_init] establishes and every call keeps: ids
    are handed out in slot order starting from 1, the count stays within
    the capacity, and the id counter is far from wrapping. *)
Record wf (s : opencog_atomspace_t) : Prop := mk_wf {
  wf_next : next_atom_id s = Z.of_nat (atom_count s) + 1;
  wf_ids : forall i a, atoms s !! i = Some a -> atom_id a = Z.of_nat i + 1;
  wf_count : (atom_count s <= atom_capacity s)%nat;
  wf_capacity : Z.of_nat (atom_capacity s) + 1 < 2 ^ 64
}.

(** What a call may do to a slot that already exists: the id, the deleted
    flag and the outgoing array stay, the incoming array only gains
    entries. *)
Definition atom_frame (a a' : opencog_atom_t) : Prop :=
  atom_id a' = atom_id a /\ is_deleted a' = is_deleted a /\
  outgoing a' = outgoing a /\ type a' = type a /\
  (forall x, In x (incoming a) -> In x (incoming a')).

Definition grows (s s' : opencog_atomspace_t) : Prop :=
  forall i a, atoms s !! i = Some a ->
    exists a', atoms s' !! i = Some a' /\ atom_frame a a'.

(** [f] leaves the two fields the search of [opencog_get_atom] reads. *)
Definition keeps_key (f : opencog_atom_t -> opencog_atom_t) : Prop :=
  forall a, atom_id (f a) = atom_id a /\ is_deleted (f a) = is_deleted a.

(** Calls that allocate nothing. *)
Record inplace (s s' : opencog_atomspace_t) : Prop := mk_inplace {
  inplace_grows : grows s s';
  inplace_count : atom_count s' = atom_count s;
  inplace_next : next_atom_id s' = next_atom_id s;
  inplace_capacity : atom_capacity s' = atom_capacity s
}.

(** Calls in general: old slots are framed and the invariant carries
    over. *)
Definition evolves (s s' : opencog_atomspace_t) : Prop :=
  grows s s' /\ (wf s -> wf s').

(** The state [opencog_add_link] returns on its success path. *)
Definition linked (now : Z) (s : opencog_atomspace_t)
    (ty : opencog_atom_type_t) (out : list Z) : opencog_atomspace_t :=
  let s0 := snd (verify_outgoing now s out) in
  let s1 := snd (generate_atom_id s0) in
  let s2 := link_incoming now s1 (next_atom_id s0) out in
  set_atoms (atoms s2 ++ [init_link now s1 (next_atom_id s0) ty out]) s2.

(** The truth value a lookup of [id] returns does not depend on the
    clock. *)
Definition truth_of (s : opencog_atomspace_t) (id : Z) : opencog_truth_value_t :=
  fst (opencog_get_truth_value 0 s id).

(** [x' - x] is within [tol] of [q], both floats being finite. *)
Definition rose_by (x x' : float32) (q tol : Q) : bool :=
  match to_Q x, to_Q x' with
  | Some v, Some v' => Qle_bool (Qabs (v' - v - q)) tol
  | _, _ => false
  end.

(** The amount moved from sti to lti when sti is 0.5 before the tick, and
    the sti left behind. *)
Definition transfer_half : float32 := mul (mul c0_5 c0_95) c0_1.
Definition sti_after_half : float32 := sub (mul c0_5 c0_95) transfer_half.

(** [z] is an Inheritance link with outgoing [[a; c]] and a strength
    within 1e-4 of 0.765. *)
Definition is_deduced_link (a c : Z) (z : opencog_atom_t) : bool :=
  atom_type_eqb (type z) OPENCOG_INHERITANCE_LINK &&
  match outgoing z with
  | [o0; o1] => (o0 =? a) && (o1 =? c)
  | _ => false
  end &&
  within (strength (truth_value z)) (765 # 1000) (1 # 10000).

(** [atom] is a slot the scan of [opencog_infer_inheritance] accepts as
    the premise from [x] to [y]: live, of Inheritance type, with an
    outgoing array that starts with [x], [y]. *)
Definition is_premise (x y : Z) (atom : opencog_atom_t) : bool :=
  negb (is_deleted atom) &&
  atom_type_eqb (type atom) OPENCOG_INHERITANCE_LINK &&
  starts_with atom x y.

(** ** Sample inputs and tables *)

(** 1.5 and -0.5, two arguments outside [0, 1]. *)
Definition c1_5 : float32 := Val (S754_finite false 12582912 (-23)).
Definition minus_c0_5 : float32 := Val (S754_finite true 8388608 (-24)).


(** One concept, id 1, created at time 10. *)
Definition a_calls : list api_call :=
  [ Call_add_node 10 OPENCOG_CONCEPT_NODE (Some "A"%string) ].

Definition table_a : opencog_atomspace_t := run a_calls opencog_atomspace_init.

(** The same table with the evidence count of the concept set to 10 by
    hand: no call of the interface stores a count other than 1. *)
Definition table_counted : opencog_atomspace_t :=
  modify_atom 0 (set_truth (mk_tv c0_5 c0_5 c10)) table_a.

(** The same table with the id counter set back to 1 by hand: the next
    atom gets the id the concept already has. *)
Definition table_stale : opencog_atomspace_t := set_next_atom_id 1 table_a.

(** Three concepts A, B, C with ids 1, 2, 3. *)
Definition abc_calls : list api_call :=
  a_calls ++
  [ Call_add_node 11 OPENCOG_CONCEPT_NODE (Some "B"%string);
    Call_add_node 12 OPENCOG_CONCEPT_NODE (Some "C"%string) ].

Definition table_abc : opencog_atomspace_t := run abc_calls opencog_atomspace_init.

(** Concepts A, B, C and the single Inheritance link A -> B (id 4). *)
Definition ab_link_calls : list api_call :=
  abc_calls ++ [ Call_add_link 13 OPENCOG_INHERITANCE_LINK [1; 2] ].

Definition table_ab_link : opencog_atomspace_t :=
  run ab_link_calls opencog_atomspace_init.

(** A -> B (id 4) with truth (0.9, 0.8) and B -> C (id 5) with truth
    (0.85, 0.9), over the concepts A, B, C. *)
Definition premise_calls : list api_call :=
  ab_link_calls ++
  [ Call_set_truth_value 14 4 c0_9 c0_8;
    Call_add_link 15 OPENCOG_INHERITANCE_LINK [2; 3];
    Call_set_truth_value 16 5 c0_85 c0_9 ].

Definition table_premises : opencog_atomspace_t :=
  run premise_calls opencog_atomspace_init.

(** The same table after a second link A -> B (id 6) with strength 0.1
    has been added: [opencog_add_link] does not deduplicate. *)
Definition rival_calls : list api_call :=
  premise_calls ++
  [ Call_add_link 17 OPENCOG_INHERITANCE_LINK [1; 2];
    Call_set_truth_value 18 6 c0_1 c0_5 ].

Definition table_rival : opencog_atomspace_t :=
  run rival_calls opencog_atomspace_init.

(** Concepts A, B, C and two ternary Inheritance links, [1; 2; 3] (id 4)
    and [2; 3; 1] (id 5). *)
Definition wide_calls : list api_call :=
  abc_calls ++
  [ Call_add_link 13 OPENCOG_INHERITANCE_LINK [1; 2; 3];
    Call_add_link 14 OPENCOG_INHERITANCE_LINK [2; 3; 1] ].

Definition table_wide : opencog_atomspace_t :=
  run wide_calls opencog_atomspace_init.

(** Concept A with attention (sti 0.5, lti 0.5, vlti 0). *)
Definition attentive_calls : list api_call :=
  a_calls ++ [ Call_set_attention_value 11 1 c0_5 c0_5 zero ].

Definition table_attentive : opencog_atomspace_t :=
  run attentive_calls opencog_atomspace_init.

(** Two knowledge units: one with values in range, one with a strength
    above 1, a quiet NaN confidence, a signaling NaN activation and a
    negative attention value. *)
Definition unit_cat : Cogfluence.cogfluence_knowledge_unit_t :=
  Cogfluence.mk_unit "cat" Cogfluence.COGFLUENCE_CONCEPT 7 c0_5 c0_9 c0_1 c0_5.

Definition unit_wild : Cogfluence.cogfluence_knowledge_unit_t :=
  Cogfluence.mk_unit "wild" Cogfluence.COGFLUENCE_RULE 8 c1_5 qNaN SNaN
    minus_c0_5.

(** A run that imports [unit_cat], writes NaN and out-of-range values
    through the setters and imports [unit_cat] again. *)
Definition run_imports : list api_call :=
  [ Call_from_cogfluence_unit 5 (Some unit_cat);
    Call_set_truth_value 6 1 c0_5 c0_9;
    Call_from_cogfluence_unit 7 (Some unit_cat);
    Call_set_truth_value 8 2 SNaN c1_5;
    Call_set_attention_value 8 2 c1_5 qNaN SNaN;
    Call_from_cogfluence_unit 8 None ].

(** A run without imports. *)
Definition run_setters : list api_call :=
  [ Call_set_truth_value 6 1 c1_5 qNaN;
    Call_add_node 7 OPENCOG_CONCEPT_NODE (Some "B"%string);
    Call_add_link 8 OPENCOG_INHERITANCE_LINK [1; 2];
    Call_update_attention_values;
    Call_from_cogfluence_unit 9 None ].

(** ** Ranges and bounds *)

(** [lo <= x <= hi], false on NaN. *)
Definition in_range (lo hi x : float32) : bool := leb lo x && leb x hi.

(** What storing [x] through the clamp [fmaxf(lo, fminf(hi, x))] means,
    in terms of the order alone: the stored value [r] lies within the
    bounds; it is the argument when the argument lies strictly between
    them, and numerically equal to it when it lies within them (a zero
    may come back with the other sign); an argument above the upper
    bound, or a quiet NaN, is stored as the upper bound; an argument
    below the lower bound, or a signaling NaN, as the lower bound. *)
Definition saturates (lo hi x r : float32) : Prop :=
  in_range lo hi r = true /\
  (in_range lo hi x = true -> compare r x = Some Eq) /\
  (ltb lo x = true -> ltb x hi = true -> r = x) /\
  (gtb x hi = true -> r = hi) /\
  (ltb x lo = true -> r = lo) /\
  (x = qNaN -> r = hi) /\
  (x = SNaN -> r = lo).

(** The ranges the header documents: strength and confidence in [0, 1],
    sti in [-1, 1], lti and vlti in [0, 1]. *)
Definition truth_in_range (tv : opencog_truth_value_t) : bool :=
  in_range zero one (strength tv) && in_range zero one (confidence tv).

Definition attention_in_range (av : opencog_attention_value_t) : bool :=
  in_range minus_one one (sti av) && in_range zero one (lti av) &&
  in_range zero one (vlti av).

Definition atom_in_range (a : opencog_atom_t) : Prop :=
  truth_in_range (truth_value a) = true /\
  attention_in_range (attention_value a) = true.

(** A knowledge unit whose four floats lie in the ranges of the fields
    [opencog_from_cogfluence_unit] copies them to. *)
Definition unit_in_range (u : Cogfluence.cogfluence_knowledge_unit_t) : Prop :=
  in_range zero one (Cogfluence.truth_value u) = true /\
  in_range zero one (Cogfluence.confidence u) = true /\
  in_range minus_one one (Cogfluence.attention_value u) = true /\
  in_range zero one (Cogfluence.activation_level u) = true.

(** The adjacency arrays fit their allocations: the write
    [incoming[incoming_count++]] stays inside [incoming_capacity] slots. *)
Definition caps_ok (a : opencog_atom_t) : Prop :=
  (incoming_count a <= incoming_capacity a)%nat /\
  outgoing_capacity a = outgoing_count a.

(** The in-place writes of the accessors and of the spreading loops. *)
Inductive writer : (opencog_atom_t -> opencog_atom_t) -> Prop :=
  | writer_access t : writer (set_last_access t)
  | writer_truth st cf :
      writer (set_truth (mk_tv (clamp zero one st) (clamp zero one cf) one))
  | writer_attention st lt vl :
      writer (set_attention
                (mk_av (clamp minus_one one st) (clamp zero one lt)
                   (clamp zero one vl)))
  | writer_add_sti x : writer (add_sti x).

(** The parameters fixed by [opencog_atomspace_init]. *)
Definition config (s : opencog_atomspace_t)
  : nat * float32 * float32 * float32 * float32 * float32 :=
  (atom_capacity s, attention_decay_rate s, attention_threshold s,
   importance_diffusion_rate s, default_strength s, default_confidence s).

(** Every stored value is in its documented range, and so are the
    defaults new atoms are created with. *)
Definition ranges_ok (s : opencog_atomspace_t) : Prop :=
  Forall atom_in_range (atoms s) /\
  in_range zero one (default_strength s) = true /\
  in_range zero one (default_confidence s) = true.

(** ** The graph of a table *)

(** The fields of an atom that make up the graph: its id, its deleted
    flag and its two adjacency arrays. *)
Definition skeleton (a : opencog_atom_t) : Z * bool * list Z * list Z :=
  (atom_id a, is_deleted a, outgoing a, incoming a).

Definition graph (s : opencog_atomspace_t) : list (Z * bool * list Z * list Z) :=
  skeleton <$> atoms s.

(** Referential integrity of a table: nothing is deleted, outgoing ids
    point to earlier atoms, and the incoming arrays mirror the outgoing
    ones in both directions. *)
Record consistent (s : opencog_atomspace_t) : Prop := mk_consistent {
  c_wf : wf s;
  c_live : forall a, In a (atoms s) -> is_deleted a = false;
  c_back : forall a id, In a (atoms s) -> In id (outgoing a) -> 0 < id < atom_id a;
  c_in : forall x l, In x (atoms s) -> In l (incoming x) ->
           exists y, In y (atoms s) /\ atom_id y = l /\ In (atom_id x) (outgoing y);
  c_out : forall y id, In y (atoms s) -> In id (outgoing y) ->
            exists x, In x (atoms s) /\ atom_id x = id /\ In (atom_id y) (incoming x)
}.

(** The three performance counters. *)
Definition counters (s : opencog_atomspace_t) : Z * Z * float32 :=
  (total_inferences s, successful_inferences s, reasoning_accuracy s).

(** A truth value the setter would store unchanged: both clamps leave it
    alone and the evidence count is 1. *)
Definition truth_settled (tv : opencog_truth_value_t) : Prop :=
  clamp zero one (strength tv) = strength tv /\
  clamp zero one (confidence tv) = confidence tv /\
  count tv = one.

Definition settled (s : opencog_atomspace_t) : Prop :=
  Forall (fun a => truth_settled (truth_value a)) (atoms s) /\
  truth_settled (mk_tv (default_strength s) (default_confidence s) one).

(** The floats of [0, 1] apart from negative zero: +0, 1 and what lies
    strictly between them. *)
Definition exact_unit (x : float32) : Prop :=
  x = zero \/ x = one \/ (ltb zero x = true /\ ltb x one = true).

(** A knowledge unit with such a truth value and confidence. *)
Definition unit_settled (u : Cogfluence.cogfluence_knowledge_unit_t) : Prop :=
  exact_unit (Cogfluence.truth_value u) /\ exact_unit (Cogfluence.confidence u).

(** What one inference attempt that reached the link creation does to
    the counters and the atom count: the attempt is counted; on success
    one atom is added, the success is counted and the accuracy is
    recomputed; on failure nothing else changes. *)
Definition accounted (s : opencog_atomspace_t) (r : bool * opencog_atomspace_t)
  : Prop :=
  total_inferences (snd r) = wrap64 (total_inferences s + 1) /\
  if fst r
  then atom_count (snd r) = S (atom_count s) /\
       successful_inferences (snd r) = wrap64 (successful_inferences s + 1) /\
       reasoning_accuracy (snd r)
       = div (of_Z (successful_inferences (snd r))) (of_Z (total_inferences (snd r)))
  else atom_count (snd r) = atom_count s /\
       successful_inferences (snd r) = successful_inferences s /\
       reasoning_accuracy (snd r) = reasoning_accuracy s.

(** The success counter never exceeds the number of atoms. *)
Definition success_bounded (s : opencog_atomspace_t) : Prop :=
  wf s /\ 0 <= successful_inferences s <= Z.of_nat (atom_count s).

(** Everything of an atom but its attention value. *)
Definition without_attention (a : opencog_atom_t) : opencog_atom_t :=
  set_attention (mk_av zero zero zero) a.

(** The table with every sti and every [last_access] stamp erased: what
    [opencog_spread_attention] may not change. *)
Definition without_sti (a : opencog_atom_t) : opencog_atom_t :=
  set_last_access 0
    (set_attention
       (mk_av zero (lti (attention_value a)) (vlti (attention_value a))) a).

Definition forget_sti (s : opencog_atomspace_t) : opencog_atomspace_t :=
  set_atoms (without_sti <$> atoms s) s.

(** Dog, Cat and Pet with the links Dog->Pet and Cat->Pet, as in the
    reasoning test of [test-moses.c]. *)
Definition pets_calls : list api_call :=
  [ Call_add_node 10 OPENCOG_CONCEPT_NODE (Some "Dog"%string);
    Call_add_node 11 OPENCOG_CONCEPT_NODE (Some "Cat"%string);
    Call_add_node 12 OPENCOG_CONCEPT_NODE (Some "Pet"%string);
    Call_add_link 13 OPENCOG_INHERITANCE_LINK [1; 3];
    Call_set_truth_value 14 4 c0_95 c0_9;
    Call_add_link 15 OPENCOG_INHERITANCE_LINK [2; 3];
    Call_set_truth_value 16 5 c0_9 c0_85 ].

Definition table_pets : opencog_atomspace_t := run pets_calls opencog_atomspace_init.

(** ** The table is append-only *)

(** The fields of an atom that are written once, when it is created. *)
Definition identity (a : opencog_atom_t)
  : Z * string * opencog_atom_type_t * Z * list Z * nat * Z * bool :=
  (atom_id a, name a, type a, cogfluence_unit_id a, outgoing a,
   outgoing_capacity a, creation_time a, is_deleted a).

(** [a'] is a later state of the atom [a]: the identity is the same and
    the incoming array has only gained entries at its end. *)
Definition stays (a a' : opencog_atom_t) : Prop :=
  identity a' = identity a /\ incoming a `prefix_of` incoming a'.

(** Every slot of [s] is still there in [s'], holding a later state of
    the same atom. *)
Definition append_only (s s' : opencog_atomspace_t) : Prop :=
  forall i a, atoms s !! i = Some a ->
    exists a', atoms s' !! i = Some a' /\ stays a a'.

(** ** The MOSES program interpreter ([ggml-distributed-cognitive.c])

    [moses_program_execute] is the caller of the three PLN combinators.
    A program is an array of instructions; instruction [i] may read the
    results of the instructions before it. *)

Module Moses.

Inductive moses_operation_type_t : Type :=
  | MOSES_OP_CONSTANT
  | MOSES_OP_VARIABLE
  | MOSES_OP_PLN_AND
  | MOSES_OP_PLN_OR
  | MOSES_OP_PLN_NOT
  | MOSES_OP_PLN_IMPLIES
  | MOSES_OP_SIMILARITY
  | MOSES_OP_INHERITANCE
  | MOSES_OP_PATTERN_MATCH
  | MOSES_OP_ATTENTION.

(** The [operands] union: eight bytes, seen as two 32-bit words.  Every
    member but [binary_op.arg2_index] lives in the first word. *)
Record operands_t : Type := mk_operands {
  word0 : Z;
  word1 : Z
}.

(** The binary32 value with the bit pattern [w]: sign in bit 31, biased
    exponent in bits 30-23, fraction in bits 22-0.  With all exponent
    bits set a zero fraction is an infinity, a fraction with bit 22 set a
    quiet NaN and any other fraction a signaling NaN. *)
Definition float_of_bits (w : Z) : float32 :=
  let s := Z.testbit w 31 in
  let e := Z.land (Z.shiftr w 23) 255 in
  let m := Z.land w (2 ^ 23 - 1) in
  if e =? 0 then
    match m with
    | Zpos p => Val (S754_finite s p (-149))
    | _ => Val (S754_zero s)
    end
  else if e =? 255 then
    (if m =? 0 then Val (S754_infinity s)
     else if Z.testbit m 22 then qNaN else SNaN)
  else
    match m + 2 ^ 23 with
    | Zpos p => Val (S754_finite s p (e - 150))
    | _ => qNaN
    end.

Definition constant_value (o : operands_t) : float32 := float_of_bits (word0 o).
Definition variable_index (o : operands_t) : Z := word0 o mod 2 ^ 32.
Definition arg1_index (o : operands_t) : Z := word0 o mod 2 ^ 32.
Definition arg2_index (o : operands_t) : Z := word1 o mod 2 ^ 32.
Definition unary_arg_index (o : operands_t) : Z := word0 o mod 2 ^ 32.

Record moses_instruction_t : Type := mk_instruction {
  op_type : moses_operation_type_t;
  operands : operands_t;
  output_value : float32;
  truth_value : opencog_truth_value_t
}.

(** [instruction_count] is the length of [instructions] and
    [variable_count] the length of [variable_values]. *)
Record moses_program_t : Type := mk_program {
  instructions : list moses_instruction_t;
  instruction_capacity : nat;
  fitness_score : float32;
  reasoning_accuracy : float32;
  efficiency_score : float32;
  program_id : Z;
  generation : Z;
  parent1_id : Z;
  parent2_id : Z;
  variable_values : list float32;
  execution_count : Z;
  average_execution_time : float32;
  success_rate : float32
}.

Definition c0_7 : float32 := Val (S754_finite false 11744051 (-24)).

Definition set_result (out : float32) (tv : opencog_truth_value_t)
    (ins : moses_instruction_t) : moses_instruction_t :=
  {| op_type := op_type ins; operands := operands ins;
     output_value := out; truth_value := tv |}.

(** The switch of the loop body for instruction [i]; [l] is the whole
    instruction array, of which the slots before [i] have been executed. *)
Definition dispatch (vars : list float32) (l : list moses_instruction_t)
    (i : nat) (ins : moses_instruction_t) : moses_instruction_t :=
  let o := operands ins in
  let tv := truth_value ins in
  match op_type ins with
  | MOSES_OP_CONSTANT =>
      set_result (constant_value o) (mk_tv (constant_value o) c0_9 (count tv)) ins
  | MOSES_OP_VARIABLE =>
      if variable_index o <? Z.of_nat (length vars) then
        match vars !! Z.to_nat (variable_index o) with
        | Some v => set_result v (mk_tv v c0_8 (count tv)) ins
        | None => ins
        end
      else set_result zero tv ins
  | MOSES_OP_PLN_AND =>
      if (arg1_index o <? Z.of_nat i) && (arg2_index o <? Z.of_nat i) then
        match l !! Z.to_nat (arg1_index o), l !! Z.to_nat (arg2_index o) with
        | Some x, Some y =>
            let r := opencog_pln_and (truth_value x) (truth_value y) in
            set_result (strength r) r ins
        | _, _ => ins
        end
      else ins
  | MOSES_OP_PLN_OR =>
      if (arg1_index o <? Z.of_nat i) && (arg2_index o <? Z.of_nat i) then
        match l !! Z.to_nat (arg1_index o), l !! Z.to_nat (arg2_index o) with
        | Some x, Some y =>
            let r := opencog_pln_or (truth_value x) (truth_value y) in
            set_result (strength r) r ins
        | _, _ => ins
        end
      else ins
  | MOSES_OP_PLN_NOT =>
      if unary_arg_index o <? Z.of_nat i then
        match l !! Z.to_nat (unary_arg_index o) with
        | Some x =>
            let r := opencog_pln_not (truth_value x) in
            set_result (strength r) r ins
        | None => ins
        end
      else ins
  | MOSES_OP_SIMILARITY =>
      if (arg1_index o <? Z.of_nat i) && (arg2_index o <? Z.of_nat i) then
        match l !! Z.to_nat (arg1_index o), l !! Z.to_nat (arg2_index o) with
        | Some x, Some y =>
            let similarity := sub one (fabsf (sub (output_value x) (output_value y))) in
            let out := fmaxf zero similarity in
            set_result out (mk_tv out c0_7 (count tv)) ins
        | _, _ => ins
        end
      else ins
  | _ => set_result zero tv ins
  end.

(** The three clamps that end the loop body. *)
Definition clamp_result (ins : moses_instruction_t) : moses_instruction_t :=
  let tv := truth_value ins in
  set_result (clamp zero one (output_value ins))
    (mk_tv (clamp zero one (strength tv)) (clamp zero one (confidence tv)) (count tv))
    ins.

(** One iteration of the loop: [instructions[i]] is rewritten in place. *)
Definition execute_at (vars : list float32) (l : list moses_instruction_t)
    (i : nat) : list moses_instruction_t :=
  match l !! i with
  | Some ins => <[i := clamp_result (dispatch vars l i ins)]> l
  | None => l
  end.

Definition execute_all (vars : list float32) (l : list moses_instruction_t)
  : list moses_instruction_t :=
  fold_left (execute_at vars) (seq 0 (length l)) l.

(** [memcpy(program->variable_values, input_variables, copy_count)].  The
    array behind [input_variables] is expected to hold [variable_count]
    floats; of a shorter one the floats it holds are copied. *)
Definition copy_variables (input : list float32) (variable_count : nat)
    (vars : list float32) : list float32 :=
  let copy_count := Nat.min variable_count (length vars) in
  let copied := take copy_count input in
  copied ++ drop (length copied) vars.

(** A [NULL] [input_variables] is [None]. *)
Definition moses_program_execute (program : moses_program_t)
    (input_variables : option (list float32)) (variable_count : nat)
  : bool * moses_program_t :=
  match input_variables with
  | None => (false, program)
  | Some input =>
      let vars := copy_variables input variable_count (variable_values program) in
      (true,
       {| instructions := execute_all vars (instructions program);
          instruction_capacity := instruction_capacity program;
          fitness_score := fitness_score program;
          reasoning_accuracy := reasoning_accuracy program;
          efficiency_score := efficiency_score program;
          program_id := program_id program;
          generation := generation program;
          parent1_id := parent1_id program;
          parent2_id := parent2_id program;
          variable_values := vars;
          execution_count := wrap64 (execution_count program + 1);
          average_execution_time := average_execution_time program;
          success_rate := success_rate program |})
  end.

(** The part of an instruction that execution may not change. *)
Definition code (ins : moses_instruction_t) : moses_operation_type_t * operands_t :=
  (op_type ins, operands ins).

(** All three results of an instruction are in [0, 1]. *)
Definition result_in_range (ins : moses_instruction_t) : Prop :=
  in_range zero one (output_value ins) = true /\
  in_range zero one (strength (truth_value ins)) = true /\
  in_range zero one (confidence (truth_value ins)) = true.

(** The loop with the executed slots kept apart from the pending ones. *)
Fixpoint execute_from (vars : list float32) (done todo : list moses_instruction_t)
  : list moses_instruction_t :=
  match todo with
  | [] => done
  | ins :: rest =>
      execute_from vars
        (done ++ [clamp_result (dispatch vars done (length done) ins)]) rest
  end.

(** What the switch does to an instruction, apart from the instruction
    itself: nothing (an argument index that does not point backwards),
    a zero output with the truth value kept, a new output, strength and
    confidence with the count kept, or a new output and truth value. *)
Inductive outcome : Type :=
  | Stale
  | Reset
  | Fresh (out st cf : float32)
  | Whole (out : float32) (tv : opencog_truth_value_t).

Definition apply_outcome (oc : outcome) (ins : moses_instruction_t)
  : moses_instruction_t :=
  match oc with
  | Stale => ins
  | Reset => set_result zero (truth_value ins) ins
  | Fresh out st cf => set_result out (mk_tv st cf (count (truth_value ins))) ins
  | Whole out tv => set_result out tv ins
  end.

(** An instruction as [moses_program_generate_random] leaves it: the
    results are zero until the program is executed. *)
Definition blank (op : moses_operation_type_t) (w0 w1 : Z) : moses_instruction_t :=
  mk_instruction op (mk_operands w0 w1) zero (mk_tv zero zero zero).

(** Two instructions the interpreter has no case for, and their
    conjunction. *)
Definition unknowns_program : moses_program_t :=
  {| instructions :=
       [ blank MOSES_OP_PLN_IMPLIES 0 0;
         blank MOSES_OP_PATTERN_MATCH 0 0;
         blank MOSES_OP_PLN_AND 0 1 ];
     instruction_capacity := 256;
     fitness_score := zero;
     reasoning_accuracy := zero;
     efficiency_score := zero;
     program_id := 1;
     generation := 0;
     parent1_id := 0;
     parent2_id := 0;
     variable_values := repeat zero 32;
     execution_count := 0;
     average_execution_time := zero;
     success_rate := zero |}.

(** Constants and inputs that are NaNs: the quiet NaN 0x7fc00000 and the
    signaling NaN 0x7f800001 as constants, then the first two inputs. *)
Definition nan_program : moses_program_t :=
  {| instructions :=
       [ blank MOSES_OP_CONSTANT 2143289344 0;
         blank MOSES_OP_CONSTANT 2139095041 0;
         blank MOSES_OP_VARIABLE 0 0;
         blank MOSES_OP_VARIABLE 1 0 ];
     instruction_capacity := 256;
     fitness_score := zero;
     reasoning_accuracy := zero;
     efficiency_score := zero;
     program_id := 2;
     generation := 0;
     parent1_id := 0;
     parent2_id := 0;
     variable_values := repeat zero 32;
     execution_count := 0;
     average_execution_time := zero;
     success_rate := zero |}.

End Moses.

(** * Lemmas *)

(** ** binary32: subtraction from 1 on the grid of multiples of 2^-24 *)

Lemma iter_pos_iter {A} (f : A -> A) n : forall x, SpecFloat.iter_pos f n x = Pos.iter f x n.
Proof.
  induction n as [n IH|n IH|]; intros x; simpl.
  - rewrite !IH. rewrite <- Pos.iter_swap. rewrite <- Pos.iter_swap. reflexivity.
  - rewrite !IH. reflexivity.
  - reflexivity.
Qed.

Lemma iter_xO_value n : forall p, Zpos (Pos.iter xO p n) = Zpos p * 2 ^ Zpos n.
Proof.
  induction n as [|n IH] using Pos.peano_ind; intros p.
  - simpl. lia.
  - rewrite Pos.iter_succ, (Pos2Z.inj_xO (Pos.iter xO p n)), IH, Pos2Z.inj_succ,
      Z.pow_succ_r by lia.
    ring.
Qed.

Lemma iter_xO_digits n :
  forall p, Zpos (digits2_pos (Pos.iter xO p n)) = Zpos (digits2_pos p) + Zpos n.
Proof.
  induction n as [|n IH] using Pos.peano_ind; intros p.
  - simpl. lia.
  - rewrite Pos.iter_succ. simpl digits2_pos. rewrite Pos2Z.inj_succ, IH. lia.
Qed.

Lemma shr_iter_xO n :
  forall m, SpecFloat.iter_pos shr_1 n (Build_shr_record (Zpos (Pos.iter xO m n)) false false)
            = Build_shr_record (Zpos m) false false.
Proof.
  intros m. rewrite iter_pos_iter. revert m.
  induction n as [|n IH] using Pos.peano_ind; intros m.
  - reflexivity.
  - rewrite Pos.iter_succ_r, Pos.iter_succ. simpl shr_1. apply IH.
Qed.

Lemma digits_bounds p :
  2 ^ (Zpos (digits2_pos p) - 1) <= Zpos p < 2 ^ Zpos (digits2_pos p).
Proof.
  induction p as [p IH|p IH|]; simpl digits2_pos.
  - rewrite Pos2Z.inj_succ, (Pos2Z.inj_xI p).
    replace (Z.succ (Zpos (digits2_pos p)) - 1) with (Z.succ (Zpos (digits2_pos p) - 1)) by lia.
    rewrite !Z.pow_succ_r by lia.
    revert IH. generalize (2 ^ (Zpos (digits2_pos p) - 1)) (2 ^ Zpos (digits2_pos p)).
    lia.
  - rewrite Pos2Z.inj_succ, (Pos2Z.inj_xO p).
    replace (Z.succ (Zpos (digits2_pos p)) - 1) with (Z.succ (Zpos (digits2_pos p) - 1)) by lia.
    rewrite !Z.pow_succ_r by lia.
    revert IH. generalize (2 ^ (Zpos (digits2_pos p) - 1)) (2 ^ Zpos (digits2_pos p)).
    lia.
  - simpl. lia.
Qed.

Lemma iter_xO_inv X Y n : Zpos X = Zpos Y * 2 ^ Zpos n -> X = Pos.iter xO Y n.
Proof. intros H. rewrite <- iter_xO_value in H. congruence. Qed.

Lemma shr_fexp_canonical M e :
  Zpos (digits2_pos M) = 24 -> -149 <= e ->
  shr_fexp prec emax (Zpos M) e loc_Exact = (Build_shr_record (Zpos M) false false, e).
Proof.
  intros Hd He. unfold shr_fexp, fexp, emin, prec, emax, Zdigits2.
  rewrite Hd. replace (Z.max (24 + e - 24) (3 - 128 - 24) - e) with 0 by lia.
  reflexivity.
Qed.

Lemma shr_fexp_shift M n e :
  Zpos (digits2_pos M) = 24 -> -149 <= e ->
  shr_fexp prec emax (Zpos (Pos.iter xO M n)) e loc_Exact
  = (Build_shr_record (Zpos M) false false, e + Zpos n).
Proof.
  intros Hd He. unfold shr_fexp, fexp, emin, prec, emax, Zdigits2.
  rewrite iter_xO_digits, Hd.
  replace (Z.max (24 + Zpos n + e - 24) (3 - 128 - 24) - e) with (Zpos n) by lia.
  unfold shr, shr_record_of_loc. rewrite shr_iter_xO. reflexivity.
Qed.

Lemma round_aux_canonical M e :
  Zpos (digits2_pos M) = 24 -> -149 <= e <= 104 ->
  binary_round_aux prec emax false (Zpos M) e loc_Exact = S754_finite false M e.
Proof.
  intros Hd He. unfold binary_round_aux.
  rewrite shr_fexp_canonical by lia. cbn [shr_m loc_of_shr_record round_nearest_even].
  rewrite shr_fexp_canonical by lia. cbn [shr_m].
  unfold emax, prec. replace (e <=? 128 - 24) with true; [reflexivity|].
  symmetry. apply Z.leb_le. lia.
Qed.

Lemma round_aux_shift M n e :
  Zpos (digits2_pos M) = 24 -> -149 <= e -> e + Zpos n <= 104 ->
  binary_round_aux prec emax false (Zpos (Pos.iter xO M n)) e loc_Exact
  = S754_finite false M (e + Zpos n).
Proof.
  intros Hd He Hn. unfold binary_round_aux.
  rewrite shr_fexp_shift by lia. cbn [shr_m loc_of_shr_record round_nearest_even].
  rewrite shr_fexp_canonical by lia. cbn [shr_m].
  unfold emax, prec. replace (e + Zpos n <=? 128 - 24) with true; [reflexivity|].
  symmetry. apply Z.leb_le. lia.
Qed.

(** [binary_round] is exact on a value [X * 2^ex] that equals a canonical
    [M * 2^e] with a 24-bit [M]. *)
Lemma binary_round_exact X ex M e :
  Zpos (digits2_pos M) = 24 -> -149 <= e <= 104 -> -149 <= ex ->
  (e <= ex /\ Zpos M = Zpos X * 2 ^ (ex - e)) \/
  (ex <= e /\ Zpos X = Zpos M * 2 ^ (e - ex)) ->
  binary_round prec emax false X ex = S754_finite false M e.
Proof.
  intros Hd He Hex [[Hle Hv]|[Hle Hv]]; unfold binary_round.
  - assert (Hdx : Zpos (digits2_pos X) = 24 - (ex - e)).
    { destruct (ex - e) as [|n|n] eqn:E; try lia.
      - rewrite Z.mul_1_r in Hv. injection Hv as <-. lia.
      - apply iter_xO_inv in Hv. subst M. rewrite iter_xO_digits in Hd. lia. }
    unfold fexp, emin, prec, emax. rewrite Hdx.
    replace (Z.max (24 - (ex - e) + ex - 24) (3 - 128 - 24)) with e by lia.
    unfold shl_align.
    destruct (e - ex) as [|n|n] eqn:E; try lia.
    + assert (ex = e) by lia. subst ex. rewrite Z.sub_diag, Z.mul_1_r in Hv.
      injection Hv as <-. apply round_aux_canonical; assumption.
    + replace (ex - e) with (Zpos n) in Hv by lia.
      apply iter_xO_inv in Hv. rewrite <- Hv.
      apply round_aux_canonical; assumption.
  - assert (Hdx : Zpos (digits2_pos X) = 24 + (e - ex)).
    { destruct (e - ex) as [|n|n] eqn:E; try lia.
      - rewrite Z.mul_1_r in Hv. injection Hv as ->. lia.
      - apply iter_xO_inv in Hv. subst X. rewrite iter_xO_digits. lia. }
    unfold fexp, emin, prec, emax. rewrite Hdx.
    replace (Z.max (24 + (e - ex) + ex - 24) (3 - 128 - 24)) with e by lia.
    unfold shl_align.
    destruct (e - ex) as [|n|n] eqn:E; try lia.
    + assert (ex = e) by lia. subst ex. rewrite Z.mul_1_r in Hv.
      injection Hv as ->. apply round_aux_canonical; assumption.
    + apply iter_xO_inv in Hv. subst X.
      replace e with (ex + Zpos n) by lia.
      apply round_aux_shift; try assumption; lia.
Qed.

Lemma digits_le_24 q : Zpos q < 2 ^ 24 -> Zpos (digits2_pos q) <= 24.
Proof.
  intros H. destruct (digits_bounds q) as [Hlo _].
  destruct (Z_le_gt_dec (Zpos (digits2_pos q)) 24) as [|Hgt]; [assumption|].
  exfalso.
  assert (2 ^ 24 <= 2 ^ (Zpos (digits2_pos q) - 1)) by (apply Z.pow_le_mono_r; lia).
  lia.
Qed.

Lemma canon_spec q :
  Zpos q < 2 ^ 24 ->
  Zpos (digits2_pos (canon q)) = 24 /\
  Zpos (canon q) = Zpos q * 2 ^ (24 - Zpos (digits2_pos q)).
Proof.
  intros H. pose proof (digits_le_24 q H) as Hd. unfold canon.
  destruct (24 - Zpos (digits2_pos q)) as [|n|n] eqn:E; try lia.
  rewrite iter_xO_digits, iter_xO_value. split; [lia|reflexivity].
Qed.

Lemma grid_canon q :
  Zpos q < 2 ^ 24 ->
  grid (Zpos q) = Val (S754_finite false (canon q) (Zpos (digits2_pos q) - 48)).
Proof.
  intros H. destruct (canon_spec q H) as [Hd Hv].
  pose proof (digits_le_24 q H).
  unfold grid, binary_normalize. f_equal.
  apply binary_round_exact; try lia.
  left. split; [lia|]. rewrite Hv. f_equal. f_equal. lia.
Qed.

Lemma sub_one_grid_pos q :
  Zpos q < 2 ^ 24 -> sub one (grid (Zpos q)) = grid (2 ^ 24 - Zpos q).
Proof.
  intros H. destruct (canon_spec q H) as [Hd Hv].
  pose proof (digits_le_24 q H) as Hd24.
  set (d := Zpos (digits2_pos q)) in *.
  rewrite grid_canon by assumption. fold d.
  destruct (2 ^ 24 - Zpos q) as [|q'|q'] eqn:Eq'; try lia.
  assert (Hq' : Zpos q' < 2 ^ 24) by lia.
  destruct (canon_spec q' Hq') as [Hd' Hv'].
  pose proof (digits_le_24 q' Hq') as Hd24'.
  rewrite grid_canon by assumption.
  set (d' := Zpos (digits2_pos q')) in *.
  unfold sub, one. cbn [quiet]. f_equal. unfold SFsub.
  replace (Z.min (-23) (d - 48)) with (d - 48) by lia.
  unfold shl_align.
  rewrite Z.sub_diag.
  destruct (d - 48 - -23) as [|n|n] eqn:En; try lia.
  cbn [fst cond_Zopp].
  assert (Hdiff : Zpos (Pos.iter xO 8388608%positive n) - Zpos (canon q)
                  = Zpos q' * 2 ^ (24 - d)).
  { rewrite iter_xO_value, Hv.
    replace (Zpos n) with (1 + (24 - d)) by lia.
    rewrite Z.pow_add_r by lia.
    change (Zpos 8388608 * 2 ^ 1) with (2 ^ 24).
    replace (Zpos 8388608 * (2 ^ 1 * 2 ^ (24 - d))) with (2 ^ 24 * 2 ^ (24 - d))
      by (change (2 ^ 1) with 2; change (2 ^ 24) with (Zpos 8388608 * 2); ring).
    rewrite <- Eq'. ring. }
  destruct (Zpos (Pos.iter xO 8388608%positive n) - Zpos (canon q)) as [|X|X] eqn:EX.
  - exfalso. assert (0 < 2 ^ (24 - d)) by (apply Z.pow_pos_nonneg; lia). nia.
  - unfold binary_normalize. apply binary_round_exact; try lia.
    destruct (Z_le_gt_dec d' d) as [Hle|Hgt].
    + left. split; [lia|]. rewrite Hv', Hdiff, <- Z.mul_assoc, <- Z.pow_add_r by lia.
      f_equal. f_equal. lia.
    + right. split; [lia|]. rewrite Hv', Hdiff, <- Z.mul_assoc, <- Z.pow_add_r by lia.
      f_equal. f_equal. lia.
  - exfalso. assert (0 < 2 ^ (24 - d)) by (apply Z.pow_pos_nonneg; lia). nia.
Qed.

(** Subtraction from 1 is exact on the grid of multiples of [2^-24]. *)
Lemma sub_one_grid k :
  0 <= k <= 2 ^ 24 -> sub one (grid k) = grid (2 ^ 24 - k).
Proof.
  intros Hk.
  destruct (Z.eq_dec k 0) as [->|H0]; [vm_compute; reflexivity|].
  destruct (Z.eq_dec k (2 ^ 24)) as [->|H1]; [vm_compute; reflexivity|].
  destruct k as [|q|q]; try lia.
  apply sub_one_grid_pos. lia.
Qed.

Lemma sub_one_involutive_grid k :
  0 <= k <= 2 ^ 24 -> sub one (sub one (grid k)) = grid k.
Proof.
  intros Hk. rewrite sub_one_grid by assumption.
  rewrite sub_one_grid by lia. f_equal. lia.
Qed.

(** ** The float order and the clamps *)

(** An addition with a signaling NaN operand is a quiet NaN. *)
Lemma add_signaling x y :
  is_signaling x || is_signaling y = true -> add x y = qNaN.
Proof.
  unfold add, qNaN. destruct x as [u|], y as [v|]; simpl; try discriminate;
    intros _; try reflexivity; destruct u; reflexivity.
Qed.

Lemma SFcompare_antisym x y :
  SFcompare y x = option_map CompOpp (SFcompare x y).
Proof.
  destruct x as [sx|sx| |sx mx ex], y as [sy|sy| |sy my ey]; simpl;
    try reflexivity; try (destruct sx; reflexivity); try (destruct sy; reflexivity);
    try (destruct sx, sy; reflexivity).
  destruct sx, sy; try reflexivity;
    rewrite (Z.compare_antisym ex ey); destruct (ex ?= ey); simpl; try reflexivity;
    change (Pcompare mx my Eq) with (mx ?= my)%positive;
    change (Pcompare my mx Eq) with (my ?= mx)%positive;
    rewrite (Pos.compare_antisym mx my); destruct (mx ?= my)%positive; reflexivity.
Qed.

Lemma SFcompare_refl x : x <> S754_nan -> SFcompare x x = Some Eq.
Proof.
  intros Hx. destruct x as [s|s| |s m e]; try congruence; simpl;
    try (destruct s; reflexivity).
  destruct s; rewrite Z.compare_refl;
    change (Pcompare m m Eq) with (m ?= m)%positive; rewrite Pos.compare_refl;
    reflexivity.
Qed.

Lemma SFcompare_nan x y :
  SFcompare x y = None <-> x = S754_nan \/ y = S754_nan.
Proof.
  split.
  - destruct x as [sx|sx| |sx mx ex], y as [sy|sy| |sy my ey]; simpl; auto;
      discriminate.
  - intros [-> | ->]; [reflexivity|destruct x; reflexivity].
Qed.

(** [SFcompare] orders the values that are not NaNs: by sign, then by
    exponent, then by mantissa. *)
Ltac order_trans x y z :=
  unfold SFltb, SFleb;
  destruct x as [?sx|?sx| |?sx ?mx ?ex], y as [?sy|?sy| |?sy ?my ?ey],
           z as [?sz|?sz| |?sz ?mz ?ez];
  simpl; try discriminate; try reflexivity;
  try (destruct sx, sy, sz; try discriminate; try reflexivity; fail);
  try (destruct sx, sy; try discriminate; try reflexivity; fail);
  try (destruct sy, sz; try discriminate; try reflexivity; fail);
  try (destruct sx, sz; try discriminate; try reflexivity; fail);
  try (destruct sx; try discriminate; try reflexivity; fail);
  try (destruct sy; try discriminate; try reflexivity; fail);
  try (destruct sz; try discriminate; try reflexivity; fail);
  destruct sx, sy, sz; try discriminate; try reflexivity;
  change (Pcompare ?a ?b Eq) with (a ?= b)%positive;
  destruct (Z.compare_spec ex ey), (Z.compare_spec ey ez), (Z.compare_spec ex ez);
  subst; try discriminate; try reflexivity; try lia;
  destruct (Pos.compare_spec mx my), (Pos.compare_spec my mz),
    (Pos.compare_spec mx mz); subst; simpl; try discriminate; try reflexivity;
  try lia.

Lemma SFltb_trans x y z :
  SFltb x y = true -> SFltb y z = true -> SFltb x z = true.
Proof. order_trans x y z. Qed.

Lemma SFleb_ltb_trans x y z :
  SFleb x y = true -> SFltb y z = true -> SFltb x z = true.
Proof. order_trans x y z. Qed.

Lemma SFltb_leb_trans x y z :
  SFltb x y = true -> SFleb y z = true -> SFltb x z = true.
Proof. order_trans x y z. Qed.

Lemma is_nan_quiet x : is_nan x = false <-> quiet x <> S754_nan.
Proof.
  destruct x as [[]|]; simpl; split; intros H; try reflexivity; try discriminate;
    congruence.
Qed.

Lemma compare_antisym x y : compare y x = option_map CompOpp (compare x y).
Proof. apply SFcompare_antisym. Qed.

Lemma compare_refl x : is_nan x = false -> compare x x = Some Eq.
Proof. intros H. apply SFcompare_refl, is_nan_quiet, H. Qed.

Lemma compare_None x y : compare x y = None <-> is_nan x = true \/ is_nan y = true.
Proof.
  unfold compare. rewrite SFcompare_nan.
  destruct x as [[]|], y as [[]|]; simpl; split; intros [H|H]; auto; discriminate.
Qed.

Lemma ltb_trans x y z : ltb x y = true -> ltb y z = true -> ltb x z = true.
Proof. apply SFltb_trans. Qed.

Lemma leb_ltb_trans x y z : leb x y = true -> ltb y z = true -> ltb x z = true.
Proof. apply SFleb_ltb_trans. Qed.

Lemma ltb_leb_trans x y z : ltb x y = true -> leb y z = true -> ltb x z = true.
Proof. apply SFltb_leb_trans. Qed.

(** The three comparisons read off [compare]. *)
Lemma ltb_compare x y : ltb x y = true <-> compare x y = Some Lt.
Proof.
  unfold ltb, SFltb, compare. destruct (SFcompare _ _) as [[]|]; split; congruence.
Qed.

Lemma leb_compare x y :
  leb x y = true <-> compare x y = Some Lt \/ compare x y = Some Eq.
Proof.
  unfold leb, SFleb, compare. destruct (SFcompare _ _) as [[]|]; split;
    intros; auto; try discriminate; intuition discriminate.
Qed.

Lemma ltb_leb x y : ltb x y = true -> leb x y = true.
Proof. rewrite ltb_compare, leb_compare. auto. Qed.

Lemma ltb_not_leb x y : ltb x y = true -> leb y x = false.
Proof.
  rewrite ltb_compare. intros H.
  destruct (leb y x) eqn:E; [|reflexivity].
  apply leb_compare in E. rewrite (compare_antisym x y), H in E.
  simpl in E. intuition discriminate.
Qed.

Lemma leb_not_ltb x y : leb x y = true -> ltb y x = false.
Proof.
  intros H. destruct (ltb y x) eqn:E; [|reflexivity].
  rewrite (ltb_not_leb _ _ E) in H. discriminate.
Qed.

Lemma leb_not_nan_l x y : leb x y = true -> is_nan x = false.
Proof.
  rewrite leb_compare. intros H. destruct (is_nan x) eqn:E; [|reflexivity].
  assert (N : compare x y = None) by (apply compare_None; auto).
  rewrite N in H. intuition discriminate.
Qed.

Lemma leb_not_nan_r x y : leb x y = true -> is_nan y = false.
Proof.
  rewrite leb_compare. intros H. destruct (is_nan y) eqn:E; [|reflexivity].
  assert (N : compare x y = None) by (apply compare_None; auto).
  rewrite N in H. intuition discriminate.
Qed.

Lemma ltb_not_nan_l x y : ltb x y = true -> is_nan x = false.
Proof. intros H. apply (leb_not_nan_l x y), ltb_leb, H. Qed.

Lemma ltb_not_nan_r x y : ltb x y = true -> is_nan y = false.
Proof. intros H. apply (leb_not_nan_r x y), ltb_leb, H. Qed.

Lemma leb_refl x : is_nan x = false -> leb x x = true.
Proof. intros H. apply leb_compare. right. apply compare_refl, H. Qed.

(** Two values that are not NaNs are ordered one way or the other. *)
Lemma leb_total x y :
  is_nan x = false -> is_nan y = false -> ltb y x = false -> leb x y = true.
Proof.
  intros Hx Hy L. apply leb_compare.
  destruct (compare x y) as [[]|] eqn:E; auto.
  - exfalso. assert (ltb y x = true); [|congruence].
    apply ltb_compare. rewrite (compare_antisym x y), E. reflexivity.
  - apply compare_None in E as [E|E]; congruence.
Qed.

Lemma leb_eq_or_lt x y : leb x y = true -> ltb x y = false -> compare x y = Some Eq.
Proof.
  rewrite leb_compare. intros [H|H] L; [|exact H].
  apply ltb_compare in H. congruence.
Qed.

Lemma not_nan_not_signaling x : is_nan x = false -> is_signaling x = false.
Proof. destruct x; [reflexivity|discriminate]. Qed.

(** *** [fminf] and [fmaxf], case by case *)

Lemma fminf_lt hi x : ltb x hi = true -> fminf hi x = x.
Proof.
  intros H. unfold fminf, gtb. rewrite (ltb_not_leb _ _ H), H. reflexivity.
Qed.

Lemma fminf_ge hi x : leb hi x = true -> fminf hi x = hi.
Proof. intros H. unfold fminf. rewrite H. reflexivity. Qed.

Lemma fminf_qnan hi : is_signaling hi = false -> fminf hi qNaN = hi.
Proof.
  intros H. unfold fminf, gtb, leb, ltb. simpl quiet.
  replace (SFleb (quiet hi) S754_nan) with false
    by (unfold SFleb; destruct (quiet hi); reflexivity).
  replace (SFltb S754_nan (quiet hi)) with false by reflexivity.
  rewrite H. reflexivity.
Qed.

Lemma fminf_snan hi : fminf hi SNaN = qNaN.
Proof.
  unfold fminf, gtb, leb, ltb. simpl quiet.
  replace (SFleb (quiet hi) S754_nan) with false
    by (unfold SFleb; destruct (quiet hi); reflexivity).
  replace (SFltb S754_nan (quiet hi)) with false by reflexivity.
  rewrite orb_true_r. apply add_signaling, orb_true_r.
Qed.

Lemma fmaxf_lt lo x : ltb lo x = true -> fmaxf lo x = x.
Proof.
  intros H. unfold fmaxf. rewrite (ltb_not_leb _ _ H), H. reflexivity.
Qed.

Lemma fmaxf_le lo x : leb x lo = true -> fmaxf lo x = lo.
Proof. intros H. unfold fmaxf. rewrite H. reflexivity. Qed.

Lemma fmaxf_qnan lo : is_signaling lo = false -> fmaxf lo qNaN = lo.
Proof.
  intros H. unfold fmaxf, leb, ltb. simpl quiet.
  replace (SFleb S754_nan (quiet lo)) with false by reflexivity.
  replace (SFltb (quiet lo) S754_nan) with false
    by (unfold SFltb; destruct (quiet lo); reflexivity).
  rewrite H. reflexivity.
Qed.

Lemma fmaxf_snan lo : fmaxf lo SNaN = qNaN.
Proof.
  unfold fmaxf, leb, ltb. simpl quiet.
  replace (SFleb S754_nan (quiet lo)) with false by reflexivity.
  replace (SFltb (quiet lo) S754_nan) with false
    by (unfold SFltb; destruct (quiet lo); reflexivity).
  rewrite orb_true_r. apply add_signaling, orb_true_r.
Qed.

Lemma nan_cases x : is_nan x = true -> x = qNaN \/ x = SNaN.
Proof. destruct x as [[]|]; try discriminate; auto. Qed.

(** [fminf hi x] is [x] when [x < hi], a quiet NaN when [x] is a
    signaling NaN, and [hi] otherwise. *)
Lemma fminf_clamp hi x :
  is_nan hi = false ->
  (fminf hi x = x /\ ltb x hi = true) \/
  (fminf hi x = hi /\ ltb x hi = false /\ is_signaling x = false) \/
  (fminf hi x = qNaN /\ x = SNaN).
Proof.
  intros Hhi. destruct (ltb x hi) eqn:L.
  - left. split; [apply fminf_lt, L|reflexivity].
  - destruct (is_nan x) eqn:N.
    + destruct (nan_cases x N) as [-> | ->].
      * right. left. split; [apply fminf_qnan, not_nan_not_signaling, Hhi|auto].
      * right. right. split; [apply fminf_snan|reflexivity].
    + right. left. split; [apply fminf_ge, leb_total; assumption|].
      split; [reflexivity|apply not_nan_not_signaling, N].
Qed.

(** [fmaxf lo v] is [v] when [lo < v] and [lo] otherwise, for a [v] that
    is not a signaling NaN. *)
Lemma fmaxf_clamp lo v :
  is_nan lo = false -> is_signaling v = false ->
  (fmaxf lo v = v /\ ltb lo v = true) \/ (fmaxf lo v = lo /\ ltb lo v = false).
Proof.
  intros Hlo Hv. destruct (ltb lo v) eqn:L.
  - left. split; [apply fmaxf_lt, L|reflexivity].
  - right. split; [|reflexivity]. destruct (is_nan v) eqn:N.
    + destruct (nan_cases v N) as [-> | ->]; [|discriminate].
      apply fmaxf_qnan, not_nan_not_signaling, Hlo.
    + apply fmaxf_le, leb_total; assumption.
Qed.

(** *** The clamp [fmaxf(lo, fminf(hi, x))] *)

Lemma clamp_snan lo hi : is_nan lo = false -> clamp lo hi SNaN = lo.
Proof.
  intros Hlo. unfold clamp. rewrite fminf_snan.
  apply fmaxf_qnan, not_nan_not_signaling, Hlo.
Qed.

Lemma clamp_qnan lo hi : ltb lo hi = true -> clamp lo hi qNaN = hi.
Proof.
  intros H. unfold clamp.
  rewrite fminf_qnan by (apply not_nan_not_signaling, (ltb_not_nan_r lo hi H)).
  apply fmaxf_lt, H.
Qed.

Lemma clamp_above lo hi x :
  ltb lo hi = true -> gtb x hi = true -> clamp lo hi x = hi.
Proof.
  intros H Hx. unfold gtb in Hx. unfold clamp.
  rewrite (fminf_ge hi x (ltb_leb _ _ Hx)). apply fmaxf_lt, H.
Qed.

Lemma clamp_below lo hi x :
  ltb lo hi = true -> ltb x lo = true -> clamp lo hi x = lo.
Proof.
  intros H Hx. unfold clamp.
  rewrite (fminf_lt _ _ (ltb_trans _ _ _ Hx H)). apply fmaxf_le, ltb_leb, Hx.
Qed.

(** A value strictly between the bounds is left alone. *)
Lemma clamp_inside lo hi x :
  ltb lo x = true -> ltb x hi = true -> clamp lo hi x = x.
Proof.
  intros Hlo Hhi. unfold clamp. rewrite (fminf_lt _ _ Hhi). apply fmaxf_lt, Hlo.
Qed.

Lemma clamp_lower lo hi : ltb lo hi = true -> clamp lo hi lo = lo.
Proof.
  intros H. unfold clamp. rewrite (fminf_lt _ _ H).
  apply fmaxf_le, leb_refl, (ltb_not_nan_l lo hi H).
Qed.

Lemma clamp_upper lo hi : ltb lo hi = true -> clamp lo hi hi = hi.
Proof.
  intros H. unfold clamp.
  rewrite (fminf_ge hi hi) by (apply leb_refl, (ltb_not_nan_r lo hi H)).
  apply fmaxf_lt, H.
Qed.

(** What the clamp returns: the argument itself, or one of the bounds. *)
Lemma clamp_cases lo hi x :
  ltb lo hi = true ->
  (clamp lo hi x = x /\ ltb lo x = true /\ ltb x hi = true) \/
  (clamp lo hi x = hi /\ ltb x hi = false /\ is_signaling x = false) \/
  (clamp lo hi x = lo /\ ltb lo x = false).
Proof.
  intros H.
  pose proof (ltb_not_nan_l _ _ H) as Nlo. pose proof (ltb_not_nan_r _ _ H) as Nhi.
  unfold clamp.
  destruct (fminf_clamp hi x Nhi) as [[E L]|[[E [L S]]|[E ->]]]; rewrite E.
  - destruct (fmaxf_clamp lo x Nlo (not_nan_not_signaling _ (ltb_not_nan_l _ _ L)))
      as [[E' L']|[E' L']]; rewrite E'; auto.
  - rewrite (fmaxf_lt _ _ H). auto.
  - rewrite (fmaxf_qnan lo (not_nan_not_signaling _ Nlo)). right. right.
    split; [reflexivity|]. unfold ltb. simpl. destruct (quiet lo); reflexivity.
Qed.

(** Whatever the argument, NaNs and infinities included, a clamp between
    two ordered bounds lands between them. *)
Lemma clamp_in_range lo hi x :
  ltb lo hi = true -> in_range lo hi (clamp lo hi x) = true.
Proof.
  intros H.
  pose proof (ltb_not_nan_l _ _ H) as Nlo. pose proof (ltb_not_nan_r _ _ H) as Nhi.
  unfold in_range.
  destruct (clamp_cases lo hi x H) as [(-> & L1 & L2)|[(-> & _)|(-> & _)]].
  - rewrite (ltb_leb _ _ L1), (ltb_leb _ _ L2). reflexivity.
  - rewrite (ltb_leb _ _ H), (leb_refl _ Nhi). reflexivity.
  - rewrite (leb_refl _ Nlo), (ltb_leb _ _ H). reflexivity.
Qed.

Lemma clamp_unit x : in_range zero one (clamp zero one x) = true.
Proof. apply clamp_in_range; reflexivity. Qed.

Lemma clamp_sti x : in_range minus_one one (clamp minus_one one x) = true.
Proof. apply clamp_in_range; reflexivity. Qed.

(** Clamping twice is clamping once. *)
Lemma clamp_idempotent lo hi x :
  ltb lo hi = true -> clamp lo hi (clamp lo hi x) = clamp lo hi x.
Proof.
  intros H.
  destruct (clamp_cases lo hi x H) as [(E & L1 & L2)|[(E & _)|(E & _)]]; rewrite E.
  - exact E.
  - apply clamp_upper, H.
  - apply clamp_lower, H.
Qed.

(** A value inside the bounds passes the clamp numerically unchanged;
    only the sign of a zero may differ. *)
Lemma clamp_numerically lo hi x :
  ltb lo hi = true -> in_range lo hi x = true ->
  compare (clamp lo hi x) x = Some Eq.
Proof.
  intros H Hx. unfold in_range in Hx. apply andb_prop in Hx as [Hl Hh].
  pose proof (leb_not_nan_r _ _ Hl) as Nx.
  destruct (clamp_cases lo hi x H) as [(E & _)|[(E & L & _)|(E & L)]]; rewrite E.
  - apply compare_refl, Nx.
  - rewrite (compare_antisym x hi), (leb_eq_or_lt _ _ Hh L). reflexivity.
  - apply leb_eq_or_lt; assumption.
Qed.

(** The clamp saturates: it meets the description [saturates] of what
    [fmaxf(lo, fminf(hi, x))] stores. *)
Lemma clamp_saturates lo hi x :
  ltb lo hi = true -> saturates lo hi x (clamp lo hi x).
Proof.
  intros H. unfold saturates.
  split; [apply clamp_in_range, H|].
  split; [apply clamp_numerically, H|].
  split; [apply clamp_inside|].
  split; [apply clamp_above, H|].
  split; [apply clamp_below, H|].
  split; [intros ->; apply clamp_qnan, H|].
  intros ->. apply clamp_snan, (ltb_not_nan_l _ _ H).
Qed.

Lemma fminf_le x y :
  is_nan x = false -> is_nan y = false ->
  leb (fminf x y) x = true /\ leb (fminf x y) y = true.
Proof.
  intros Hx Hy. destruct (ltb y x) eqn:L.
  - rewrite (fminf_lt _ _ L). split; [apply ltb_leb, L|apply leb_refl, Hy].
  - pose proof (leb_total x y Hx Hy L) as Hle. rewrite (fminf_ge _ _ Hle).
    split; [apply leb_refl, Hx|exact Hle].
Qed.

Lemma fmaxf_ge x y :
  is_nan x = false -> is_nan y = false ->
  leb x (fmaxf x y) = true /\ leb y (fmaxf x y) = true.
Proof.
  intros Hx Hy. destruct (ltb x y) eqn:L.
  - rewrite (fmaxf_lt _ _ L). split; [apply ltb_leb, L|apply leb_refl, Hy].
  - pose proof (leb_total y x Hy Hx L) as Hle. rewrite (fmaxf_le _ _ Hle).
    split; [apply leb_refl, Hx|exact Hle].
Qed.

(** ** The linear search *)

Section Search.
Implicit Types (l : list opencog_atom_t) (id : Z) (i : nat).

Lemma find_live_Some l id i :
  find_live l id = Some i ->
  exists a, l !! i = Some a /\ atom_id a = id /\ is_deleted a = false.
Proof.
  revert i. induction l as [|x l IH]; intros i H; simpl in H.
  - discriminate.
  - destruct (atom_id x =? id) eqn:Hid; simpl in H.
    + destruct (is_deleted x) eqn:Hdel; simpl in H.
      * destruct (find_live l id) as [k|]; simpl in H; [|discriminate].
        injection H as <-. destruct (IH k eq_refl) as (a & ? & ? & ?).
        exists a. auto.
      * injection H as <-. exists x. apply Z.eqb_eq in Hid. auto.
    + destruct (find_live l id) as [k|]; simpl in H; [|discriminate].
      injection H as <-. destruct (IH k eq_refl) as (a & ? & ? & ?).
      exists a. auto.
Qed.

Lemma find_live_lt l id i : find_live l id = Some i -> (i < length l)%nat.
Proof.
  intros H. destruct (find_live_Some _ _ _ H) as (a & Ha & _).
  eapply lookup_lt_Some; eauto.
Qed.

Lemma find_live_not_live s id : ~ live_atom s id -> find_live (atoms s) id = None.
Proof.
  intros Hn. destruct (find_live (atoms s) id) as [i|] eqn:E; [|reflexivity].
  destruct (find_live_Some _ _ _ E) as (a & Ha & Hid & Hdel).
  exfalso. apply Hn. exists a. split; [|auto].
  apply list_elem_of_In. eapply list_elem_of_lookup_2; eauto.
Qed.

Lemma find_live_alter f i l id :
  keeps_key f -> find_live (alter f i l) id = find_live l id.
Proof.
  intros Hf. revert i. induction l as [|x l IH]; intros [|i]; csimpl; auto.
  - destruct (Hf x) as [-> ->]. reflexivity.
  - rewrite (IH i). reflexivity.
Qed.

Lemma find_live_fmap f l id :
  keeps_key f -> find_live (f <$> l) id = find_live l id.
Proof.
  intros Hf. induction l as [|x l IH]; csimpl; auto.
  destruct (Hf x) as [-> ->]. rewrite IH. reflexivity.
Qed.

Lemma find_live_app_l l l' id i :
  find_live l id = Some i -> find_live (l ++ l') id = Some i.
Proof.
  revert i. induction l as [|x l IH]; intros i H; simpl in *; [discriminate|].
  destruct ((atom_id x =? id) && negb (is_deleted x)); [assumption|].
  destruct (find_live l id) as [k|]; simpl in H; [|discriminate].
  rewrite (IH k eq_refl). assumption.
Qed.

Lemma find_live_distinct l i a :
  ids_distinct l -> l !! i = Some a -> is_deleted a = false ->
  find_live l (atom_id a) = Some i.
Proof.
  revert i. induction l as [|x l IH]; intros i Hd Hi Hlive.
  - discriminate.
  - destruct i as [|i]; simpl in *.
    + injection Hi as ->. rewrite Z.eqb_refl, Hlive. reflexivity.
    + destruct (atom_id x =? atom_id a) eqn:E.
      * apply Z.eqb_eq in E.
        specialize (Hd 0%nat (S i) x a eq_refl Hi E). discriminate.
      * simpl. rewrite (IH i); auto.
        intros p q u v Hp Hq Huv.
        specialize (Hd (S p) (S q) u v Hp Hq Huv). lia.
Qed.

Lemma wf_ids_distinct s : wf s -> ids_distinct (atoms s).
Proof.
  intros [_ Hids _ _] i j a b Ha Hb E.
  apply Hids in Ha. apply Hids in Hb. lia.
Qed.
End Search.

(** ** Writes through a slot pointer *)

Lemma keeps_key_last_access t : keeps_key (set_last_access t).
Proof. intros a. split; reflexivity. Qed.

Lemma keeps_key_truth tv : keeps_key (set_truth tv).
Proof. intros a. split; reflexivity. Qed.

Lemma keeps_key_attention av : keeps_key (set_attention av).
Proof. intros a. split; reflexivity. Qed.

Lemma keeps_key_add_sti x : keeps_key (add_sti x).
Proof. intros a. split; reflexivity. Qed.

Lemma keeps_key_push_incoming x : keeps_key (push_incoming x).
Proof. intros a. split; reflexivity. Qed.

Lemma keeps_key_decay r t : keeps_key (decay_atom r t).
Proof.
  intros a. unfold decay_atom. destruct (is_deleted a) eqn:E; [auto|].
  destruct (gtb _ _); split; simpl; auto.
Qed.

Create HintDb atomspace.

#[local] Hint Resolve keeps_key_last_access keeps_key_truth keeps_key_attention
  keeps_key_add_sti keeps_key_push_incoming keeps_key_decay : atomspace.

Lemma atoms_modify_atom i f s : atoms (modify_atom i f s) = alter f i (atoms s).
Proof. reflexivity. Qed.

Lemma find_live_modify i f s id :
  keeps_key f -> find_live (atoms (modify_atom i f s)) id = find_live (atoms s) id.
Proof. intros Hf. rewrite atoms_modify_atom. apply find_live_alter, Hf. Qed.

(** *** [opencog_get_atom] *)

Lemma get_atom_fst now s id :
  fst (opencog_get_atom now s id) =
  if id =? 0 then None else find_live (atoms s) id.
Proof.
  unfold opencog_get_atom. destruct (id =? 0); [reflexivity|].
  destruct (find_live (atoms s) id); reflexivity.
Qed.

Lemma get_atom_snd now s id :
  snd (opencog_get_atom now s id) =
  match fst (opencog_get_atom now s id) with
  | Some i => modify_atom i (set_last_access now) s
  | None => s
  end.
Proof.
  unfold opencog_get_atom. destruct (id =? 0); [reflexivity|].
  destruct (find_live (atoms s) id); reflexivity.
Qed.

Lemma get_atom_find now s id id' :
  find_live (atoms (snd (opencog_get_atom now s id))) id' = find_live (atoms s) id'.
Proof.
  rewrite get_atom_snd. destruct (fst (opencog_get_atom now s id)); [|reflexivity].
  apply find_live_modify. auto with atomspace.
Qed.

Lemma forget_access_touch i t s :
  forget_access (modify_atom i (set_last_access t) s) = forget_access s.
Proof.
  unfold forget_access, modify_atom, set_atoms; simpl. f_equal.
  generalize (atoms s) i. clear.
  induction l as [|x l IH]; intros [|i]; csimpl; auto.
  rewrite IH. reflexivity.
Qed.

Lemma get_atom_forget now s id :
  forget_access (snd (opencog_get_atom now s id)) = forget_access s.
Proof.
  rewrite get_atom_snd. destruct (fst (opencog_get_atom now s id)); [|reflexivity].
  apply forget_access_touch.
Qed.

(** *** The verification loop of [opencog_add_link] *)

Lemma verify_outgoing_forget now out :
  forall s, forget_access (snd (verify_outgoing now s out)) = forget_access s.
Proof.
  induction out as [|id out IH]; intros s; simpl; [reflexivity|].
  pose proof (get_atom_forget now s id) as Hg.
  destruct (opencog_get_atom now s id) as [[j|] s']; simpl in *.
  - rewrite IH. exact Hg.
  - exact Hg.
Qed.

Lemma verify_outgoing_find now out id' :
  forall s,
    find_live (atoms (snd (verify_outgoing now s out))) id' = find_live (atoms s) id'.
Proof.
  induction out as [|id out IH]; intros s; simpl; [reflexivity|].
  pose proof (get_atom_find now s id id') as Hg.
  destruct (opencog_get_atom now s id) as [[j|] s']; simpl in *.
  - rewrite IH. exact Hg.
  - exact Hg.
Qed.

Lemma verify_outgoing_dangling now out id :
  forall s, In id out -> find_live (atoms s) id = None ->
    fst (verify_outgoing now s out) = false.
Proof.
  induction out as [|x out IH]; intros s Hin Hnone; simpl in *; [contradiction|].
  pose proof (get_atom_fst now s x) as Hf.
  pose proof (get_atom_find now s x id) as Hg.
  destruct (opencog_get_atom now s x) as [[j|] s']; simpl in *; [|reflexivity].
  destruct Hin as [->|Hin].
  - destruct (id =? 0); congruence.
  - apply IH; [assumption|congruence].
Qed.

Lemma forget_access_inv s s' :
  forget_access s' = forget_access s ->
  atom_count s' = atom_count s /\ next_atom_id s' = next_atom_id s /\
  incoming <$> atoms s' = incoming <$> atoms s /\
  outgoing <$> atoms s' = outgoing <$> atoms s /\
  atom_id <$> atoms s' = atom_id <$> atoms s.
Proof.
  intros H.
  assert (Ha : set_last_access 0 <$> atoms s' = set_last_access 0 <$> atoms s)
    by exact (f_equal atoms H).
  assert (Hn : next_atom_id s' = next_atom_id s) by exact (f_equal next_atom_id H).
  repeat split.
  - unfold atom_count. rewrite <- (length_fmap (set_last_access 0) (atoms s')), Ha.
    apply length_fmap.
  - exact Hn.
  - apply (f_equal (fmap incoming)) in Ha.
    rewrite <- !list_fmap_compose in Ha. exact Ha.
  - apply (f_equal (fmap outgoing)) in Ha.
    rewrite <- !list_fmap_compose in Ha. exact Ha.
  - apply (f_equal (fmap atom_id)) in Ha.
    rewrite <- !list_fmap_compose in Ha. exact Ha.
Qed.

(** ** Frames: what calls preserve *)

Lemma atom_frame_refl a : atom_frame a a.
Proof. repeat split; auto. Qed.

Lemma atom_frame_trans a b c : atom_frame a b -> atom_frame b c -> atom_frame a c.
Proof.
  intros (H1 & H2 & H3 & H4 & H5) (K1 & K2 & K3 & K4 & K5).
  repeat split; try congruence. auto.
Qed.

Lemma atom_frame_last_access t a : atom_frame a (set_last_access t a).
Proof. repeat split; auto. Qed.

Lemma atom_frame_truth tv a : atom_frame a (set_truth tv a).
Proof. repeat split; auto. Qed.

Lemma atom_frame_attention av a : atom_frame a (set_attention av a).
Proof. repeat split; auto. Qed.

Lemma atom_frame_add_sti x a : atom_frame a (add_sti x a).
Proof. repeat split; auto. Qed.

Lemma atom_frame_push_incoming x a : atom_frame a (push_incoming x a).
Proof.
  repeat split; auto. intros y Hy. simpl. apply in_or_app. auto.
Qed.

Lemma atom_frame_decay r t a : atom_frame a (decay_atom r t a).
Proof.
  unfold decay_atom. destruct (is_deleted a); [apply atom_frame_refl|].
  destruct (gtb _ _); apply atom_frame_attention.
Qed.

#[local] Hint Resolve atom_frame_refl atom_frame_last_access atom_frame_truth
  atom_frame_attention atom_frame_add_sti atom_frame_push_incoming
  atom_frame_decay : atomspace.

Lemma grows_refl s : grows s s.
Proof. intros i a H. exists a. auto with atomspace. Qed.

Lemma grows_trans s1 s2 s3 : grows s1 s2 -> grows s2 s3 -> grows s1 s3.
Proof.
  intros H12 H23 i a Ha.
  destruct (H12 i a Ha) as (b & Hb & Fab).
  destruct (H23 i b Hb) as (c & Hc & Fbc).
  exists c. split; [assumption|]. eapply atom_frame_trans; eauto.
Qed.

Lemma grows_atoms s s' : atoms s' = atoms s -> grows s s'.
Proof. intros E i a H. exists a. rewrite E. auto with atomspace. Qed.

Lemma grows_modify i f s :
  (forall a, atom_frame a (f a)) -> grows s (modify_atom i f s).
Proof.
  intros Hf j a Ha. rewrite atoms_modify_atom.
  destruct (decide (i = j)) as [->|Hne].
  - exists (f a). rewrite list_lookup_alter_eq, Ha. auto.
  - exists a. rewrite list_lookup_alter_ne by assumption. auto with atomspace.
Qed.

Lemma grows_append s s' l : atoms s' = atoms s ++ l -> grows s s'.
Proof.
  intros E i a Ha. exists a. split; [|auto with atomspace].
  rewrite E, lookup_app_l; [assumption|]. eapply lookup_lt_Some; eauto.
Qed.

Lemma inplace_refl s : inplace s s.
Proof. split; auto using grows_refl. Qed.

Lemma inplace_trans s1 s2 s3 : inplace s1 s2 -> inplace s2 s3 -> inplace s1 s3.
Proof.
  intros [] []. split; try congruence. eapply grows_trans; eauto.
Qed.

Lemma inplace_modify i f s :
  (forall a, atom_frame a (f a)) -> inplace s (modify_atom i f s).
Proof.
  intros Hf. split; auto using grows_modify.
  unfold atom_count. rewrite atoms_modify_atom. apply length_alter.
Qed.

Lemma inplace_metrics t k acc s : inplace s (set_metrics t k acc s).
Proof. split; auto. apply grows_atoms. reflexivity. Qed.

Lemma inplace_fmap f s :
  (forall a, atom_frame a (f a)) -> inplace s (set_atoms (f <$> atoms s) s).
Proof.
  intros Hf. split; auto.
  - intros i a Ha. exists (f a). simpl. rewrite list_lookup_fmap, Ha. auto.
  - unfold atom_count. simpl. apply length_fmap.
Qed.

Lemma inplace_wf s s' : wf s -> inplace s s' -> wf s'.
Proof.
  intros [Hn Hi Hc Hcap] [Hg Hcnt Hnext Hcp]. split.
  - congruence.
  - intros i a' Ha'.
    assert (Hlt : (i < length (atoms s))%nat).
    { apply lookup_lt_Some in Ha'. unfold atom_count in Hcnt. lia. }
    destruct (lookup_lt_is_Some_2 _ _ Hlt) as [a Ha].
    destruct (Hg i a Ha) as (b & Hb & Hid & _).
    rewrite Ha' in Hb. injection Hb as <-. rewrite Hid. auto.
  - congruence.
  - congruence.
Qed.

(** Allocation of one slot: the tail of [opencog_add_node] and
    [opencog_add_link]. *)
Lemma wf_allocate s s2 x :
  wf s -> (atom_count s < atom_capacity s)%nat ->
  inplace (snd (generate_atom_id s)) s2 ->
  atom_id x = next_atom_id s ->
  wf (set_atoms (atoms s2 ++ [x]) s2).
Proof.
  intros [Hn Hi Hc Hcap] Hroom [Hg Hcnt Hnext Hcp] Hid.
  unfold generate_atom_id in *; simpl in *.
  unfold atom_count in *. simpl in *.
  split; unfold atom_count; simpl.
  - rewrite Hnext, length_app, Hcnt, Hn. simpl. unfold wrap64.
    rewrite Z.mod_small; lia.
  - intros i a Ha. apply lookup_snoc_Some in Ha as [[Hlt Ha]|[-> <-]].
    + assert (Hlt' : (i < length (atoms s))%nat) by lia.
      destruct (lookup_lt_is_Some_2 _ _ Hlt') as [a0 Ha0].
      destruct (Hg i a0 Ha0) as (b & Hb & Hidb & _).
      rewrite Ha in Hb. injection Hb as <-. rewrite Hidb. auto.
    + rewrite Hid, Hn, Hcnt. reflexivity.
  - rewrite length_app, Hcnt, Hcp. simpl. lia.
  - rewrite Hcp. assumption.
Qed.

Lemma find_live_grows s s' id j :
  grows s s' -> find_live (atoms s) id = Some j -> find_live (atoms s') id = Some j.
Proof.
  unfold grows. generalize (atoms s) (atoms s'). clear s s'.
  intros l. revert j. induction l as [|x l IH]; intros j l' Hg H; simpl in H.
  - discriminate.
  - destruct (Hg 0%nat x eq_refl) as (x' & Hx' & Hid & Hdel & _).
    destruct l' as [|y l']; [discriminate|]. injection Hx' as ->.
    simpl. rewrite Hid, Hdel.
    destruct ((atom_id x =? id) && negb (is_deleted x)); [assumption|].
    destruct (find_live l id) as [k|] eqn:E; simpl in H; [|discriminate].
    rewrite (IH k l'); auto.
    intros i a Ha. exact (Hg (S i) a Ha).
Qed.

(** *** Every call that allocates nothing is [inplace] *)

Lemma get_atom_inplace now s id : inplace s (snd (opencog_get_atom now s id)).
Proof.
  rewrite get_atom_snd. destruct (fst (opencog_get_atom now s id)).
  - apply inplace_modify. auto with atomspace.
  - apply inplace_refl.
Qed.

Lemma verify_outgoing_inplace now out :
  forall s, inplace s (snd (verify_outgoing now s out)).
Proof.
  induction out as [|id out IH]; intros s; simpl; [apply inplace_refl|].
  pose proof (get_atom_inplace now s id) as Hg.
  destruct (opencog_get_atom now s id) as [[j|] s']; simpl in *; [|assumption].
  eapply inplace_trans; [exact Hg|apply IH].
Qed.

Lemma link_incoming_inplace now link out :
  forall s, inplace s (link_incoming now s link out).
Proof.
  induction out as [|id out IH]; intros s; simpl; [apply inplace_refl|].
  pose proof (get_atom_inplace now s id) as Hg.
  destruct (opencog_get_atom now s id) as [[j|] s']; simpl in *.
  - eapply inplace_trans; [exact Hg|].
    eapply inplace_trans; [|apply IH].
    apply inplace_modify. auto with atomspace.
  - eapply inplace_trans; [exact Hg|apply IH].
Qed.

Lemma spread_to_inplace now amount targets :
  forall s, inplace s (spread_to now s amount targets).
Proof.
  induction targets as [|id out IH]; intros s; simpl; [apply inplace_refl|].
  pose proof (get_atom_inplace now s id) as Hg.
  destruct (opencog_get_atom now s id) as [[j|] s']; simpl in *.
  - eapply inplace_trans; [exact Hg|].
    eapply inplace_trans; [|apply IH].
    apply inplace_modify. auto with atomspace.
  - eapply inplace_trans; [exact Hg|apply IH].
Qed.

Lemma spread_over_inplace now amount targets s :
  inplace s (spread_over now s amount targets).
Proof.
  destruct targets; simpl; [apply inplace_refl|].
  apply (spread_to_inplace now _ (_ :: _)).
Qed.

Lemma spread_attention_inplace now s id amount :
  inplace s (opencog_spread_attention now s id amount).
Proof.
  unfold opencog_spread_attention.
  pose proof (get_atom_inplace now s id) as Hg.
  destruct (opencog_get_atom now s id) as [[i|] s1]; simpl in *; [|assumption].
  eapply inplace_trans; [exact Hg|].
  set (s2 := match atom_at s1 i with
             | Some src => spread_over now s1 amount (outgoing src)
             | None => s1 end).
  assert (H12 : inplace s1 s2).
  { subst s2. destruct (atom_at s1 i); auto using spread_over_inplace, inplace_refl. }
  eapply inplace_trans; [exact H12|].
  destruct (atom_at s2 i); auto using spread_over_inplace, inplace_refl.
Qed.

Lemma set_truth_value_inplace now s id st cf :
  inplace s (opencog_set_truth_value now s id st cf).
Proof.
  unfold opencog_set_truth_value.
  pose proof (get_atom_inplace now s id) as Hg.
  destruct (opencog_get_atom now s id) as [[i|] s1]; simpl in *; [|assumption].
  eapply inplace_trans; [exact Hg|]. apply inplace_modify. auto with atomspace.
Qed.

Lemma set_attention_value_inplace now s id st lt vl :
  inplace s (opencog_set_attention_value now s id st lt vl).
Proof.
  unfold opencog_set_attention_value.
  pose proof (get_atom_inplace now s id) as Hg.
  destruct (opencog_get_atom now s id) as [[i|] s1]; simpl in *; [|assumption].
  eapply inplace_trans; [exact Hg|]. apply inplace_modify. auto with atomspace.
Qed.

Lemma get_truth_value_snd now s id :
  snd (opencog_get_truth_value now s id) = snd (opencog_get_atom now s id).
Proof.
  unfold opencog_get_truth_value.
  destruct (opencog_get_atom now s id) as [[i|] s1]; reflexivity.
Qed.

Lemma get_attention_value_snd now s id :
  snd (opencog_get_attention_value now s id) = snd (opencog_get_atom now s id).
Proof.
  unfold opencog_get_attention_value.
  destruct (opencog_get_atom now s id) as [[i|] s1]; reflexivity.
Qed.

Lemma query_incoming_snd now s id :
  snd (opencog_query_incoming now s id) = snd (opencog_get_atom now s id).
Proof.
  unfold opencog_query_incoming.
  destruct (opencog_get_atom now s id) as [[i|] s1]; reflexivity.
Qed.

Lemma query_outgoing_snd now s id :
  snd (opencog_query_outgoing now s id) = snd (opencog_get_atom now s id).
Proof.
  unfold opencog_query_outgoing.
  destruct (opencog_get_atom now s id) as [[i|] s1]; reflexivity.
Qed.

Lemma update_attention_values_inplace s :
  inplace s (opencog_update_attention_values s).
Proof. apply inplace_fmap. auto with atomspace. Qed.

Lemma record_success_inplace s : inplace s (record_success s).
Proof. apply inplace_metrics. Qed.

Lemma record_failure_inplace s : inplace s (record_failure s).
Proof. apply inplace_metrics. Qed.

(** *** Allocation *)

Lemma evolves_refl s : evolves s s.
Proof. split; auto using grows_refl. Qed.

Lemma evolves_trans s1 s2 s3 : evolves s1 s2 -> evolves s2 s3 -> evolves s1 s3.
Proof. intros [] []. split; eauto using grows_trans. Qed.

Lemma inplace_evolves s s' : inplace s s' -> evolves s s'.
Proof.
  intros H. split; [apply H|]. intros Hwf. eapply inplace_wf; eauto.
Qed.

Lemma add_node_evolves now s ty nm : evolves s (snd (opencog_add_node now s ty nm)).
Proof.
  unfold opencog_add_node. destruct nm as [n|]; [|apply evolves_refl].
  destruct (atom_capacity s <=? atom_count s)%nat eqn:Hcap; [apply evolves_refl|].
  apply Nat.leb_gt in Hcap. simpl. split.
  - eapply grows_append. reflexivity.
  - intros Hwf.
    apply (wf_allocate s (snd (generate_atom_id s))); auto using inplace_refl.
Qed.

Lemma add_link_cases now s ty out :
  (fst (opencog_add_link now s ty out) = 0 /\
   inplace s (snd (opencog_add_link now s ty out)))
  \/
  (out <> [] /\ (atom_count s < atom_capacity s)%nat /\
   fst (verify_outgoing now s out) = true /\
   opencog_add_link now s ty out = (next_atom_id s, linked now s ty out)).
Proof.
  unfold opencog_add_link, linked.
  destruct out as [|o out]; [left; split; auto using inplace_refl|].
  destruct (atom_capacity s <=? atom_count s)%nat eqn:Hcap;
    [left; split; auto using inplace_refl|].
  apply Nat.leb_gt in Hcap.
  pose proof (verify_outgoing_inplace now (o :: out) s) as Hv.
  destruct (verify_outgoing now s (o :: out)) as [[|] s0]; simpl in Hv.
  - right. split; [discriminate|]. split; [assumption|]. split; [reflexivity|].
    rewrite <- (inplace_next _ _ Hv). reflexivity.
  - left. split; auto.
Qed.

Lemma add_link_success now s ty out :
  out <> [] -> (atom_count s < atom_capacity s)%nat ->
  fst (verify_outgoing now s out) = true ->
  opencog_add_link now s ty out = (next_atom_id s, linked now s ty out).
Proof.
  intros Hout Hroom Hv. unfold opencog_add_link, linked.
  destruct out as [|o out]; [congruence|].
  apply Nat.leb_gt in Hroom. rewrite Hroom.
  pose proof (verify_outgoing_inplace now (o :: out) s) as Hi.
  destruct (verify_outgoing now s (o :: out)) as [[|] s0]; simpl in *.
  - rewrite <- (inplace_next _ _ Hi). reflexivity.
  - discriminate.
Qed.

Lemma linked_atoms now s ty out :
  wf s ->
  exists s2 x,
    linked now s ty out = set_atoms (atoms s2 ++ [x]) s2 /\
    inplace (snd (generate_atom_id (snd (verify_outgoing now s out)))) s2 /\
    s2 = link_incoming now (snd (generate_atom_id (snd (verify_outgoing now s out))))
           (next_atom_id s) out /\
    atom_count s2 = atom_count s /\
    atom_id x = next_atom_id s /\ outgoing x = out /\ is_deleted x = false /\
    type x = ty.
Proof.
  intros Hwf. unfold linked.
  pose proof (verify_outgoing_inplace now out s) as Hv.
  set (s0 := snd (verify_outgoing now s out)) in *.
  rewrite (inplace_next _ _ Hv).
  eexists _, _. split; [reflexivity|].
  pose proof (link_incoming_inplace now (next_atom_id s) out (snd (generate_atom_id s0)))
    as Hl.
  repeat split; try apply Hl; auto.
  rewrite (inplace_count _ _ Hl). exact (inplace_count _ _ Hv).
Qed.

Lemma linked_evolves now s ty out :
  (atom_count s < atom_capacity s)%nat -> evolves s (linked now s ty out).
Proof.
  intros Hroom.
  pose proof (verify_outgoing_inplace now out s) as Hv.
  set (s0 := snd (verify_outgoing now s out)) in *.
  pose proof (link_incoming_inplace now (next_atom_id s0) out (snd (generate_atom_id s0)))
    as Hl.
  split.
  - apply (grows_trans _ s0); [apply Hv|].
    apply (grows_trans _ (snd (generate_atom_id s0))); [apply grows_atoms; reflexivity|].
    apply (grows_trans _ _ _ (inplace_grows _ _ Hl)).
    eapply grows_append. reflexivity.
  - intros Hwf. unfold linked. fold s0.
    assert (Hwf0 : wf s0) by (eapply inplace_wf; eauto).
    apply (wf_allocate s0); auto.
    rewrite (inplace_count _ _ Hv), (inplace_capacity _ _ Hv). assumption.
Qed.

Lemma add_link_evolves now s ty out : evolves s (snd (opencog_add_link now s ty out)).
Proof.
  destruct (add_link_cases now s ty out) as [[_ H]|(_ & Hroom & _ & E)].
  - apply inplace_evolves, H.
  - rewrite E. apply linked_evolves, Hroom.
Qed.

(** *** Inference and whole runs *)

Lemma infer_inheritance_evolves now s a b c :
  evolves s (snd (opencog_infer_inheritance now s a b c)).
Proof.
  unfold opencog_infer_inheritance.
  destruct (scan_premises (atoms s) a b c) as [ab bc].
  destruct ((ab =? 0) || (bc =? 0)); [apply evolves_refl|].
  pose proof (get_atom_inplace now s ab) as H1.
  rewrite <- get_truth_value_snd in H1.
  destruct (opencog_get_truth_value now s ab) as [tv_ab s1]; simpl in H1.
  pose proof (get_atom_inplace now s1 bc) as H2.
  rewrite <- get_truth_value_snd in H2.
  destruct (opencog_get_truth_value now s1 bc) as [tv_bc s2]; simpl in H2.
  pose proof (add_link_evolves now s2 OPENCOG_INHERITANCE_LINK [a; c]) as H3.
  destruct (opencog_add_link now s2 OPENCOG_INHERITANCE_LINK [a; c]) as [ac s3].
  simpl in H3.
  apply (evolves_trans _ s1); [apply inplace_evolves, H1|].
  apply (evolves_trans _ s2); [apply inplace_evolves, H2|].
  apply (evolves_trans _ s3); [exact H3|].
  destruct (0 <? ac); simpl.
  - apply inplace_evolves.
    eapply inplace_trans; [apply set_truth_value_inplace|apply record_success_inplace].
  - apply inplace_evolves, record_failure_inplace.
Qed.

Lemma infer_similarity_evolves now s a b :
  evolves s (snd (opencog_infer_similarity now s a b)).
Proof.
  unfold opencog_infer_similarity.
  destruct (fold_left (relation_step a b) (atoms s) (zero, zero, zero))
    as [[common total_a] total_b].
  destruct (gtb (if gtb _ zero then _ else zero) c0_1).
  - pose proof (add_link_evolves now s OPENCOG_SIMILARITY_LINK [a; b]) as H3.
    destruct (opencog_add_link now s OPENCOG_SIMILARITY_LINK [a; b]) as [l s1].
    simpl in H3.
    apply (evolves_trans _ s1); [exact H3|].
    destruct (0 <? l); simpl.
    + apply inplace_evolves.
      eapply inplace_trans; [apply set_truth_value_inplace|apply record_success_inplace].
    + apply inplace_evolves, record_failure_inplace.
  - apply inplace_evolves, record_failure_inplace.
Qed.

Lemma atom_frame_import u a : atom_frame a (import_unit u a).
Proof. repeat split; auto. Qed.

Lemma from_cogfluence_unit_evolves now s unit :
  evolves s (snd (opencog_from_cogfluence_unit now s unit)).
Proof.
  destruct unit as [u|]; [|apply evolves_refl].
  unfold opencog_from_cogfluence_unit.
  pose proof (add_node_evolves now s (unit_atom_type (Cogfluence.type u))
                (Some (Cogfluence.name u))) as H1.
  destruct (opencog_add_node now s (unit_atom_type (Cogfluence.type u))
              (Some (Cogfluence.name u))) as [id s1]. cbn [snd] in H1.
  destruct (0 <? id); [|exact H1].
  pose proof (get_atom_inplace now s1 id) as H2.
  destruct (opencog_get_atom now s1 id) as [[i|] s2]; cbn [snd] in *.
  - eapply evolves_trans; [exact H1|]. apply inplace_evolves.
    eapply inplace_trans; [exact H2|].
    apply inplace_modify. intros a. apply atom_frame_import.
  - eapply evolves_trans; [exact H1|]. apply inplace_evolves, H2.
Qed.

Lemma compute_similarity_evolves now s a b :
  evolves s (opencog_compute_similarity now s a b).
Proof.
  unfold opencog_compute_similarity.
  pose proof (get_atom_inplace now s a) as H1.
  destruct (opencog_get_atom now s a) as [r1 s1]. cbn [snd] in H1.
  pose proof (get_atom_inplace now s1 b) as H2.
  destruct (opencog_get_atom now s1 b) as [r2 s2]. cbn [snd] in H2.
  apply inplace_evolves. eapply inplace_trans; eauto.
Qed.

Lemma tensor_to_atom_evolves now s tensor nm :
  evolves s (snd (opencog_tensor_to_atom now s tensor nm)).
Proof.
  unfold opencog_tensor_to_atom.
  destruct tensor; [|apply evolves_refl].
  destruct nm as [n|]; [|apply evolves_refl].
  pose proof (add_node_evolves now s OPENCOG_CONCEPT_NODE (Some n)) as H1.
  destruct (opencog_add_node now s OPENCOG_CONCEPT_NODE (Some n)) as [id s1].
  cbn [snd] in H1.
  destruct (id =? 0); [exact H1|]. cbn [snd].
  eapply evolves_trans; [exact H1|]. apply inplace_evolves, get_atom_inplace.
Qed.

Lemma exec_evolves c s : evolves s (exec c s).
Proof.
  destruct c; simpl.
  - apply add_node_evolves.
  - apply add_link_evolves.
  - apply inplace_evolves, get_atom_inplace.
  - apply inplace_evolves, set_truth_value_inplace.
  - rewrite get_truth_value_snd. apply inplace_evolves, get_atom_inplace.
  - apply inplace_evolves, set_attention_value_inplace.
  - rewrite get_attention_value_snd. apply inplace_evolves, get_atom_inplace.
  - apply inplace_evolves, update_attention_values_inplace.
  - apply inplace_evolves, spread_attention_inplace.
  - apply infer_inheritance_evolves.
  - apply infer_similarity_evolves.
  - rewrite query_incoming_snd. apply inplace_evolves, get_atom_inplace.
  - rewrite query_outgoing_snd. apply inplace_evolves, get_atom_inplace.
  - apply from_cogfluence_unit_evolves.
  - apply compute_similarity_evolves.
  - apply inplace_evolves, get_atom_inplace.
  - apply tensor_to_atom_evolves.
  - apply inplace_evolves, get_atom_inplace.
Qed.

Lemma run_evolves cs : forall s, evolves s (run cs s).
Proof.
  induction cs as [|c cs IH]; intros s; simpl; [apply evolves_refl|].
  eapply evolves_trans; [apply exec_evolves|apply IH].
Qed.

Lemma wf_init : wf opencog_atomspace_init.
Proof.
  split; simpl; try reflexivity.
  - intros i a H. destruct i; discriminate.
  - unfold atom_count. simpl. lia.
Qed.

(** Every table a client can build satisfies the invariant. *)
Lemma wf_reachable cs : wf (run cs opencog_atomspace_init).
Proof. apply run_evolves, wf_init. Qed.

(** * Properties *)

(** ** [opencog_add_link] with a dangling id *)

(** C1 (as stated, refuted): a failing [opencog_add_link] does not leave
    the table completely unchanged.  On the table holding the single
    concept 1 (stamped at time 10), linking [1; 2] at time 20 fails on id
    2, after the lookup of id 1 has already moved its [last_access] stamp
    to 20. *)
Lemma add_link_dangling_not_unchanged :
  ~ (forall now s ty out id,
       In id out -> ~ live_atom s id ->
       opencog_add_link now s ty out = (0, s)).
Proof.
  intros H.
  specialize (H 20 table_a OPENCOG_INHERITANCE_LINK [1; 2] 2).
  assert (Hin : In 2 [1; 2]) by (simpl; auto).
  assert (Hdead : ~ live_atom table_a 2).
  { intros (a & Ha & Hid & _). simpl in Ha. destruct Ha as [<-|[]]. discriminate. }
  specialize (H Hin Hdead).
  apply (f_equal (fun r => last_access <$> atoms (snd r))) in H.
  vm_compute in H. discriminate.
Qed.

(** C1 (amended): if some id of the outgoing list does not name a live
    atom, [opencog_add_link] returns 0 and the table is unchanged except
    for [last_access] stamps: no atom is allocated, no id is consumed and
    no incoming or outgoing array is modified. *)
Theorem add_link_dangling_only_touches_access now s ty out id :
  In id out -> ~ live_atom s id ->
  let r := opencog_add_link now s ty out in
  fst r = 0 /\
  forget_access (snd r) = forget_access s /\
  atom_count (snd r) = atom_count s /\
  next_atom_id (snd r) = next_atom_id s /\
  incoming <$> atoms (snd r) = incoming <$> atoms s.
Proof.
  intros Hin Hdead r.
  assert (H : fst r = 0 /\ forget_access (snd r) = forget_access s).
  { subst r. unfold opencog_add_link.
    destruct out as [|o out]; [contradiction|].
    destruct (atom_capacity s <=? atom_count s)%nat; [auto|].
    pose proof (verify_outgoing_dangling now (o :: out) id s Hin
                  (find_live_not_live s id Hdead)) as Hv.
    pose proof (verify_outgoing_forget now (o :: out) s) as Hf.
    destruct (verify_outgoing now s (o :: out)) as [[|] s0]; simpl in *.
    - discriminate.
    - auto. }
  destruct H as [H0 Hf]. split; [assumption|]. split; [assumption|].
  destruct (forget_access_inv _ _ Hf) as (? & ? & ? & _). auto.
Qed.

Lemma add_link_dangling_only_touches_access_witness :
  let r := opencog_add_link 20 table_a OPENCOG_INHERITANCE_LINK [1; 2] in
  fst r = 0 /\
  forget_access (snd r) = forget_access table_a /\
  atom_count (snd r) = atom_count table_a /\
  next_atom_id (snd r) = next_atom_id table_a /\
  incoming <$> atoms (snd r) = incoming <$> atoms table_a.
Proof.
  apply (add_link_dangling_only_touches_access 20 table_a
           OPENCOG_INHERITANCE_LINK [1; 2] 2).
  - simpl; auto.
  - intros (a & Ha & Hid & _). simpl in Ha. destruct Ha as [<-|[]]. discriminate.
Defined.

(** ** Outgoing/incoming duality *)

Lemma verify_outgoing_true now out :
  forall s, fst (verify_outgoing now s out) = true ->
    forall id, In id out -> id <> 0 /\ exists j, find_live (atoms s) id = Some j.
Proof.
  induction out as [|x out IH]; intros s Hv id Hin; simpl in *; [contradiction|].
  pose proof (get_atom_fst now s x) as Hf.
  pose proof (get_atom_find now s x id) as Hg.
  destruct (opencog_get_atom now s x) as [[j|] s']; simpl in *; [|discriminate].
  destruct Hin as [->|Hin].
  - destruct (id =? 0) eqn:E; [discriminate|]. apply Z.eqb_neq in E. eauto.
  - destruct (IH s' Hv id Hin) as [Hne [k Hk]]. split; [assumption|].
    exists k. congruence.
Qed.

Lemma get_atom_resolved now s id j :
  id <> 0 -> find_live (atoms s) id = Some j ->
  opencog_get_atom now s id = (Some j, modify_atom j (set_last_access now) s).
Proof.
  intros Hne Hj. unfold opencog_get_atom.
  apply Z.eqb_neq in Hne. rewrite Hne, Hj. reflexivity.
Qed.

Lemma link_incoming_registers now link out :
  forall s id j,
    In id out -> id <> 0 -> find_live (atoms s) id = Some j ->
    exists a, atoms (link_incoming now s link out) !! j = Some a /\
              In link (incoming a).
Proof.
  induction out as [|x out IH]; intros s id j Hin Hne Hj; simpl in *;
    [contradiction|].
  destruct Hin as [->|Hin].
  - rewrite (get_atom_resolved now s id j Hne Hj).
    set (s' := modify_atom j (push_incoming link) _).
    destruct (find_live_Some _ _ _ Hj) as (a & Ha & _).
    assert (Hs' : exists a', atoms s' !! j = Some a' /\ In link (incoming a')).
    { subst s'. rewrite !atoms_modify_atom, !list_lookup_alter_eq, Ha. simpl.
      eexists. split; [reflexivity|]. simpl. apply in_or_app. simpl. auto. }
    destruct Hs' as (a' & Ha' & Hl).
    destruct (inplace_grows _ _ (link_incoming_inplace now link out s') j a' Ha')
      as (b & Hb & _ & _ & _ & _ & Hinc).
    exists b. auto.
  - pose proof (get_atom_find now s x id) as Hg.
    destruct (opencog_get_atom now s x) as [[k|] s']; simpl in *.
    + apply (IH _ id j Hin Hne).
      rewrite find_live_modify by auto with atomspace. congruence.
    + apply (IH _ id j Hin Hne). congruence.
Qed.

(** Queries on a table that satisfies the invariant read the slot that
    carries the id. *)
Lemma query_slot now s i x :
  wf s -> atoms s !! i = Some x -> is_deleted x = false ->
  fst (opencog_query_outgoing now s (atom_id x)) = outgoing x /\
  fst (opencog_query_incoming now s (atom_id x)) = incoming x.
Proof.
  intros Hwf Hx Hlive.
  assert (Hne : atom_id x <> 0) by (rewrite (wf_ids _ Hwf i x Hx); lia).
  pose proof (find_live_distinct _ _ _ (wf_ids_distinct _ Hwf) Hx Hlive) as Hf.
  unfold opencog_query_outgoing, opencog_query_incoming, atom_at.
  rewrite (get_atom_resolved now s _ i Hne Hf).
  rewrite atoms_modify_atom, list_lookup_alter_eq, Hx. simpl. auto.
Qed.

(** After a successful [opencog_add_link] and any further calls, the link
    reads back its outgoing array and every target lists the link. *)
Lemma add_link_duality_general now s ty out L s1 cs :
  wf s -> opencog_add_link now s ty out = (L, s1) -> L <> 0 ->
  (forall t, fst (opencog_query_outgoing t (run cs s1) L) = out) /\
  (forall t id, In id out -> In L (fst (opencog_query_incoming t (run cs s1) id))).
Proof.
  intros Hwf Hadd HL.
  destruct (add_link_cases now s ty out) as [[H0 _]|(Hout & Hroom & Hv & E)].
  { rewrite Hadd in H0. simpl in H0. contradiction. }
  rewrite Hadd in E. injection E as -> ->.
  destruct (linked_evolves now s ty out Hroom) as [Hg1 Hwf1].
  specialize (Hwf1 Hwf).
  destruct (run_evolves cs (linked now s ty out)) as [Hg2 Hwf2].
  specialize (Hwf2 Hwf1).
  destruct (linked_atoms now s ty out Hwf)
    as (s2 & x & Elinked & Hin2 & Es2 & Hcnt & Hid & Hox & Hdel & _).
  split.
  - intros t.
    assert (Hx : atoms (linked now s ty out) !! atom_count s = Some x).
    { rewrite Elinked. simpl. rewrite <- Hcnt. unfold atom_count.
      apply list_lookup_middle. reflexivity. }
    destruct (Hg2 _ _ Hx) as (x' & Hx' & Hid' & Hdel' & Hout' & _).
    destruct (query_slot t _ _ _ Hwf2 Hx') as [Hq _]; [congruence|].
    rewrite Hid', Hid in Hq. rewrite Hq. congruence.
  - intros t id Hin.
    destruct (verify_outgoing_true now out s Hv id Hin) as [Hne [j Hj]].
    assert (Hj1 : find_live (atoms (snd (generate_atom_id (snd (verify_outgoing now s out)))))
                    id = Some j).
    { simpl. rewrite verify_outgoing_find. exact Hj. }
    destruct (link_incoming_registers now (next_atom_id s) out _ id j Hin Hne Hj1)
      as (a & Ha & HLa).
    rewrite <- Es2 in Ha.
    assert (Ha1 : atoms (linked now s ty out) !! j = Some a).
    { rewrite Elinked. simpl. rewrite lookup_app_l; [assumption|].
      eapply lookup_lt_Some; eauto. }
    destruct (Hg2 _ _ Ha1) as (a' & Ha' & Hid' & Hdel' & _ & _ & Hinc).
    destruct (find_live_Some _ _ _ Hj) as (a0 & Ha0 & Hid0 & Hdel0).
    destruct (Hg1 _ _ Ha0) as (a1 & Ha1' & Hid1 & Hdel1 & _).
    rewrite Ha1 in Ha1'. injection Ha1' as <-.
    destruct (query_slot t _ _ _ Hwf2 Ha') as [_ Hq]; [congruence|].
    assert (Eid : atom_id a' = id) by congruence.
    rewrite Eid in Hq. rewrite Hq. auto.
Qed.

(** C2: after a successful [opencog_add_link] that creates link [L] with
    outgoing [[A; B]], and after any further calls on the table,
    [opencog_query_outgoing] of [L] returns exactly [[A; B]] and
    [opencog_query_incoming] of [A] and of [B] contain [L]. *)
Theorem add_link_duality now s ty A B L s1 cs t1 t2 t3 :
  wf s -> opencog_add_link now s ty [A; B] = (L, s1) -> L <> 0 ->
  fst (opencog_query_outgoing t1 (run cs s1) L) = [A; B] /\
  In L (fst (opencog_query_incoming t2 (run cs s1) A)) /\
  In L (fst (opencog_query_incoming t3 (run cs s1) B)).
Proof.
  intros Hwf Hadd HL.
  destruct (add_link_duality_general now s ty [A; B] L s1 cs Hwf Hadd HL)
    as [Hout Hinc].
  split; [apply Hout|]. split; apply Hinc; simpl; auto.
Qed.

Lemma add_link_duality_witness :
  let s1 := snd (opencog_add_link 13 table_abc OPENCOG_INHERITANCE_LINK [1; 2]) in
  let s2 := run [Call_update_attention_values;
                 Call_add_link 14 OPENCOG_MEMBER_LINK [2; 3];
                 Call_spread_attention 15 1 c0_5] s1 in
  fst (opencog_query_outgoing 16 s2 4) = [1; 2] /\
  In 4 (fst (opencog_query_incoming 17 s2 1)) /\
  In 4 (fst (opencog_query_incoming 18 s2 2)).
Proof.
  apply (add_link_duality 13 table_abc OPENCOG_INHERITANCE_LINK 1 2 4).
  - apply (wf_reachable abc_calls).
  - vm_compute. reflexivity.
  - lia.
Defined.

(** ** [opencog_infer_inheritance] with a missing premise *)

(** The early return: when the scan leaves [ab_link] or [bc_link] at 0 the
    function returns [false] and the table, counters included, is the one
    it was given. *)
Lemma infer_inheritance_missing_premise now s a b c :
  fst (scan_premises (atoms s) a b c) = 0 \/ snd (scan_premises (atoms s) a b c) = 0 ->
  opencog_infer_inheritance now s a b c = (false, s).
Proof.
  intros H. unfold opencog_infer_inheritance.
  destruct (scan_premises (atoms s) a b c) as [ab bc]; simpl in H.
  destruct H as [-> | ->]; simpl; [reflexivity|].
  rewrite orb_true_r. reflexivity.
Qed.

(** On the table with the link A -> B and no link B -> C the call
    returns [false] through the early return and [total_inferences] stays
    at 0; the other failure path of the function and the failure paths of
    [opencog_infer_similarity] count the attempt. *)
Lemma infer_inheritance_missing_premise_total :
  Forall (fun x => outgoing x <> [2; 3]) (atoms table_ab_link) /\
  total_inferences table_ab_link = 0 /\
  fst (opencog_infer_inheritance 20 table_ab_link 1 2 3) = false /\
  total_inferences (snd (opencog_infer_inheritance 20 table_ab_link 1 2 3)) = 0.
Proof.
  split.
  - vm_compute. repeat constructor; discriminate.
  - rewrite infer_inheritance_missing_premise by (right; reflexivity).
    repeat split; reflexivity.
Qed.

Lemma scan_step_fst_skip a b c acc atom :
  is_premise a b atom = false -> fst (scan_step a b c acc atom) = fst acc.
Proof.
  unfold is_premise, scan_step. intros H.
  destruct (is_deleted atom); [reflexivity|].
  destruct (atom_type_eqb (type atom) OPENCOG_INHERITANCE_LINK); [|reflexivity].
  simpl in *. rewrite H. reflexivity.
Qed.

Lemma scan_step_snd_skip a b c acc atom :
  is_premise b c atom = false -> snd (scan_step a b c acc atom) = snd acc.
Proof.
  unfold is_premise, scan_step. intros H.
  destruct (is_deleted atom); [reflexivity|].
  destruct (atom_type_eqb (type atom) OPENCOG_INHERITANCE_LINK); [|reflexivity].
  simpl in *. rewrite H. reflexivity.
Qed.

Lemma scan_fst_none a b c l :
  forall acc, (forall x, In x l -> is_premise a b x = false) ->
    fst (fold_left (scan_step a b c) l acc) = fst acc.
Proof.
  induction l as [|x l IH]; intros acc H; simpl; [reflexivity|].
  rewrite IH by (intros y Hy; apply H; right; exact Hy).
  apply scan_step_fst_skip, H. left. reflexivity.
Qed.

Lemma scan_snd_none a b c l :
  forall acc, (forall x, In x l -> is_premise b c x = false) ->
    snd (fold_left (scan_step a b c) l acc) = snd acc.
Proof.
  induction l as [|x l IH]; intros acc H; simpl; [reflexivity|].
  rewrite IH by (intros y Hy; apply H; right; exact Hy).
  apply scan_step_snd_skip, H. left. reflexivity.
Qed.

(** The scan selects the last premise in table order. *)
Lemma scan_premises_last_ab a b c l1 x l2 :
  is_premise a b x = true ->
  (forall y, In y l2 -> is_premise a b y = false) ->
  fst (scan_premises (l1 ++ x :: l2) a b c) = atom_id x.
Proof.
  intros Hx Hl2. unfold scan_premises.
  rewrite fold_left_app. simpl. rewrite scan_fst_none by exact Hl2.
  unfold is_premise in Hx. unfold scan_step.
  destruct (is_deleted x); [discriminate|].
  destruct (atom_type_eqb (type x) OPENCOG_INHERITANCE_LINK); [|discriminate].
  simpl in *. rewrite Hx. reflexivity.
Qed.

Lemma scan_premises_last_bc a b c l1 x l2 :
  is_premise b c x = true ->
  (forall y, In y l2 -> is_premise b c y = false) ->
  snd (scan_premises (l1 ++ x :: l2) a b c) = atom_id x.
Proof.
  intros Hx Hl2. unfold scan_premises.
  rewrite fold_left_app. simpl. rewrite scan_snd_none by exact Hl2.
  unfold is_premise in Hx. unfold scan_step.
  destruct (is_deleted x); [discriminate|].
  destruct (atom_type_eqb (type x) OPENCOG_INHERITANCE_LINK); [|discriminate].
  simpl in *. rewrite Hx. reflexivity.
Qed.

(** C3 (as stated, refuted): the scan compares only the first two
    outgoing ids.  [table_wide] holds no Inheritance link with outgoing
    exactly [[1; 2]] (nor exactly [[2; 3]]), yet the ternary links
    [[1; 2; 3]] and [[2; 3; 1]] are taken as the premises and
    [opencog_infer_inheritance] on (1, 2, 3) returns [true]. *)
Lemma infer_inheritance_prefix_match :
  ~ (forall now s a b c,
       wf s ->
       (forall x, In x (atoms s) -> is_deleted x = false ->
          type x = OPENCOG_INHERITANCE_LINK -> outgoing x <> [a; b]) \/
       (forall x, In x (atoms s) -> is_deleted x = false ->
          type x = OPENCOG_INHERITANCE_LINK -> outgoing x <> [b; c]) ->
       fst (opencog_infer_inheritance now s a b c) = false /\
       total_inferences (snd (opencog_infer_inheritance now s a b c))
       = wrap64 (total_inferences s + 1)).
Proof.
  intros H.
  destruct (H 20 table_wide 1 2 3 (wf_reachable wide_calls)) as [Hfalse _].
  - left. intros x Hin _ _ Hout.
    apply (in_map outgoing) in Hin. rewrite Hout in Hin.
    assert (E : map outgoing (atoms table_wide) = [[]; []; []; [1; 2; 3]; [2; 3; 1]])
      by (vm_compute; reflexivity).
    rewrite E in Hin. simpl in Hin.
    repeat (destruct Hin as [Hin|Hin]; [discriminate Hin|]). contradiction.
  - assert (Htrue : fst (opencog_infer_inheritance 20 table_wide 1 2 3) = true)
      by (vm_compute; reflexivity).
    congruence.
Qed.

(** C3 (amended): for every call of [opencog_infer_inheritance] on
    (a, b, c) where the table holds no live Inheritance link whose
    outgoing array starts with a, b, or none whose outgoing array starts
    with b, c, the call returns [false] and creates no atom. *)
Theorem infer_inheritance_no_premise now s a b c :
  (forall x, In x (atoms s) -> is_premise a b x = false) \/
  (forall x, In x (atoms s) -> is_premise b c x = false) ->
  fst (opencog_infer_inheritance now s a b c) = false /\
  atoms (snd (opencog_infer_inheritance now s a b c)) = atoms s.
Proof.
  intros H. rewrite infer_inheritance_missing_premise; [split; reflexivity|].
  unfold scan_premises. destruct H as [H|H].
  - left. rewrite scan_fst_none by exact H. reflexivity.
  - right. rewrite scan_snd_none by exact H. reflexivity.
Qed.

Lemma infer_inheritance_no_premise_witness :
  fst (opencog_infer_inheritance 20 table_ab_link 1 2 3) = false /\
  atoms (snd (opencog_infer_inheritance 20 table_ab_link 1 2 3)) = atoms table_ab_link.
Proof.
  apply (infer_inheritance_no_premise 20 table_ab_link 1 2 3).
  right. intros x Hin.
  assert (E : forallb (fun y => negb (is_premise 2 3 y)) (atoms table_ab_link) = true)
    by (vm_compute; reflexivity).
  rewrite forallb_forall in E. specialize (E x Hin).
  destruct (is_premise 2 3 x); [discriminate E|reflexivity].
Defined.

(** ** [opencog_add_node] and the name argument *)

(** C8 (as stated, refuted): the empty name is accepted.  On the fresh
    table, [opencog_add_node] with the name [""] returns id 1 and the
    table then holds one atom. *)
Lemma add_node_empty_name_accepted :
  ~ (forall now s ty,
       fst (opencog_add_node now s ty (Some ""%string)) = 0 /\
       atom_count (snd (opencog_add_node now s ty (Some ""%string))) = atom_count s).
Proof.
  intros H.
  destruct (H 10 opencog_atomspace_init OPENCOG_CONCEPT_NODE) as [H0 _].
  vm_compute in H0. discriminate.
Qed.

(** C8 (amended): for every table, [opencog_add_node] with a [NULL]
    name returns the failure sentinel 0 and leaves the table as it was;
    the guard tests the pointer, not the length of the string, so any
    name that is present, the empty one included, is stored in a new atom
    as long as the table has room. *)
Theorem add_node_name_guard now s ty :
  wf s ->
  opencog_add_node now s ty None = (0, s) /\
  forall n, (atom_count s < atom_capacity s)%nat ->
    fst (opencog_add_node now s ty (Some n)) = next_atom_id s /\
    next_atom_id s <> 0 /\
    atoms (snd (opencog_add_node now s ty (Some n)))
    = atoms s ++ [init_node now s (next_atom_id s) ty n].
Proof.
  intros Hwf. split; [reflexivity|].
  intros n Hroom. unfold opencog_add_node.
  apply Nat.leb_gt in Hroom. rewrite Hroom. simpl.
  repeat split. rewrite (wf_next _ Hwf). lia.
Qed.

Lemma add_node_name_guard_witness :
  opencog_add_node 10 opencog_atomspace_init OPENCOG_CONCEPT_NODE None
  = (0, opencog_atomspace_init) /\
  forall n, (atom_count opencog_atomspace_init
             < atom_capacity opencog_atomspace_init)%nat ->
    fst (opencog_add_node 10 opencog_atomspace_init OPENCOG_CONCEPT_NODE (Some n))
    = next_atom_id opencog_atomspace_init /\
    next_atom_id opencog_atomspace_init <> 0 /\
    atoms (snd (opencog_add_node 10 opencog_atomspace_init OPENCOG_CONCEPT_NODE
                  (Some n)))
    = atoms opencog_atomspace_init
      ++ [init_node 10 opencog_atomspace_init
            (next_atom_id opencog_atomspace_init) OPENCOG_CONCEPT_NODE n].
Proof.
  apply (add_node_name_guard 10 opencog_atomspace_init OPENCOG_CONCEPT_NODE).
  apply wf_init.
Defined.

(** ** [opencog_set_truth_value] *)

Lemma find_live_In l a :
  In a l -> is_deleted a = false -> exists j, find_live l (atom_id a) = Some j.
Proof.
  induction l as [|x l IH]; intros Hin Hlive; simpl in *; [contradiction|].
  destruct ((atom_id x =? atom_id a) && negb (is_deleted x)) eqn:E; [eauto|].
  destruct Hin as [->|Hin].
  - rewrite Z.eqb_refl, Hlive in E. discriminate.
  - destruct (IH Hin Hlive) as [j ->]. simpl. eauto.
Qed.

Lemma live_atom_resolves now s id :
  live_atom s id -> id <> 0 ->
  exists j a, atoms s !! j = Some a /\ atom_id a = id /\ is_deleted a = false /\
    find_live (atoms s) id = Some j /\
    opencog_get_atom now s id = (Some j, modify_atom j (set_last_access now) s).
Proof.
  intros (a0 & Hin & Hid & Hdel) Hne.
  destruct (find_live_In _ _ Hin Hdel) as [j Hj]. rewrite Hid in Hj.
  destruct (find_live_Some _ _ _ Hj) as (a & Ha & Hida & Hdela).
  exists j, a. repeat split; auto. apply get_atom_resolved; auto.
Qed.

(** C9: for every live atom id and any strength and confidence,
    [opencog_set_truth_value] sets the count to 1.0, whatever the count
    was, and stores the strength and the confidence saturated to [0, 1]:
    what is read back lies in [0, 1]; an argument within [0, 1] is read
    back numerically unchanged; one above 1, or a quiet NaN, as 1; one
    below 0, or a signaling NaN, as 0. *)
Theorem set_truth_value_resets_count now t s id st cf :
  live_atom s id -> id <> 0 ->
  let tv :=
    fst (opencog_get_truth_value t (opencog_set_truth_value now s id st cf) id) in
  count tv = one /\
  saturates zero one st (strength tv) /\
  saturates zero one cf (confidence tv).
Proof.
  intros Hlive Hne tv.
  assert (E : tv = mk_tv (clamp zero one st) (clamp zero one cf) one).
  { subst tv.
    destruct (live_atom_resolves now s id Hlive Hne)
      as (j & a & Ha & _ & _ & Hj & Hget).
    unfold opencog_set_truth_value. rewrite Hget.
    set (s' := modify_atom j (set_truth _) _).
    assert (Hj' : find_live (atoms s') id = Some j).
    { subst s'. rewrite !find_live_modify by auto with atomspace. exact Hj. }
    unfold opencog_get_truth_value, atom_at.
    rewrite (get_atom_resolved t s' id j Hne Hj'). simpl.
    rewrite !list_lookup_alter_eq, Ha. reflexivity. }
  rewrite E. simpl.
  split; [reflexivity|]. split; apply clamp_saturates; reflexivity.
Qed.

Lemma set_truth_value_resets_count_witness :
  count (fst (opencog_get_truth_value 15 table_counted 1)) = c10 /\
  fst (opencog_get_truth_value 30
         (opencog_set_truth_value 20 table_counted 1 c1_5 minus_c0_5) 1)
  = mk_tv one zero one /\
  fst (opencog_get_truth_value 30
         (opencog_set_truth_value 20 table_counted 1 qNaN SNaN) 1)
  = mk_tv one zero one.
Proof.
  assert (Hlive : live_atom table_counted 1).
  { destruct (find_live_Some (atoms table_counted) 1 0) as (a & Ha & Hid & Hdel);
      [vm_compute; reflexivity|].
    exists a. split; [|auto].
    apply list_elem_of_In. eapply list_elem_of_lookup_2; eauto. }
  split; [vm_compute; reflexivity|]. split.
  - destruct (set_truth_value_resets_count 20 30 table_counted 1 c1_5 minus_c0_5
                Hlive ltac:(lia)) as (Hn & Hs & Hc).
    destruct (fst (opencog_get_truth_value 30
                     (opencog_set_truth_value 20 table_counted 1 c1_5 minus_c0_5) 1))
      as [s c n]. simpl in *.
    destruct Hs as (_ & _ & _ & Hs & _). destruct Hc as (_ & _ & _ & _ & Hc & _).
    rewrite (Hs eq_refl), (Hc eq_refl), Hn. reflexivity.
  - destruct (set_truth_value_resets_count 20 30 table_counted 1 qNaN SNaN
                Hlive ltac:(lia)) as (Hn & Hs & Hc).
    destruct (fst (opencog_get_truth_value 30
                     (opencog_set_truth_value 20 table_counted 1 qNaN SNaN) 1))
      as [s c n]. simpl in *.
    destruct Hs as (_ & _ & _ & _ & _ & Hs & _).
    destruct Hc as (_ & _ & _ & _ & _ & _ & Hc).
    rewrite (Hs eq_refl), (Hc eq_refl), Hn. reflexivity.
Defined.

(** ** [opencog_spread_attention] and its source *)

(** A slot whose id is not among the targets keeps its attention value
    and its adjacency through a spreading loop. *)
Lemma spread_to_other now amount targets :
  forall s j a,
    atoms s !! j = Some a -> ~ In (atom_id a) targets ->
    exists a', atoms (spread_to now s amount targets) !! j = Some a' /\
      attention_value a' = attention_value a /\ atom_id a' = atom_id a /\
      outgoing a' = outgoing a /\ incoming a' = incoming a.
Proof.
  induction targets as [|x targets IH]; intros s j a Ha Hnot; simpl in *.
  - exists a. auto.
  - assert (Hx : x <> atom_id a) by tauto.
    assert (Hrest : ~ In (atom_id a) targets) by tauto.
    unfold opencog_get_atom.
    destruct (x =? 0); [apply (IH s j a Ha Hrest)|].
    destruct (find_live (atoms s) x) as [k|] eqn:Hk; [|apply (IH s j a Ha Hrest)].
    destruct (find_live_Some _ _ _ Hk) as (b & Hb & Hidb & _).
    assert (Hkj : k <> j) by (intros ->; congruence).
    apply IH; [|assumption].
    rewrite !atoms_modify_atom, !list_lookup_alter_ne by assumption. exact Ha.
Qed.

Lemma spread_over_other now amount targets s j a :
  atoms s !! j = Some a -> ~ In (atom_id a) targets ->
  exists a', atoms (spread_over now s amount targets) !! j = Some a' /\
    attention_value a' = attention_value a /\ atom_id a' = atom_id a /\
    outgoing a' = outgoing a /\ incoming a' = incoming a.
Proof.
  intros Ha Hnot. destruct targets as [|x targets]; simpl.
  - exists a. auto.
  - apply (spread_to_other now _ (x :: targets)); assumption.
Qed.

(** C10: for every live source atom and every amount,
    [opencog_spread_attention] leaves the source's own attention value
    (sti, lti and vlti) as it was, provided the source id is not among the
    source's own outgoing or incoming ids. *)
Theorem spread_attention_keeps_source now t t' s src amount :
  live_atom s src -> src <> 0 ->
  ~ In src (fst (opencog_query_outgoing t s src)) ->
  ~ In src (fst (opencog_query_incoming t s src)) ->
  fst (opencog_get_attention_value t' (opencog_spread_attention now s src amount) src)
  = fst (opencog_get_attention_value t s src).
Proof.
  intros Hlive Hne Hout Hinc.
  destruct (live_atom_resolves t s src Hlive Hne) as (j & a & Ha & Hid & _ & Hj & Hget).
  unfold opencog_query_outgoing, opencog_query_incoming, atom_at in Hout, Hinc.
  rewrite Hget in Hout, Hinc. simpl in Hout, Hinc.
  rewrite list_lookup_alter_eq, Ha in Hout, Hinc. simpl in Hout, Hinc.
  assert (Hrhs : fst (opencog_get_attention_value t s src) = attention_value a).
  { unfold opencog_get_attention_value, atom_at. rewrite Hget. simpl.
    rewrite list_lookup_alter_eq, Ha. reflexivity. }
  rewrite Hrhs.
  pose proof (spread_attention_inplace now s src amount) as Hin.
  pose proof (find_live_grows _ _ _ _ (inplace_grows _ _ Hin) Hj) as Hj'.
  assert (Hfinal : exists a', atoms (opencog_spread_attention now s src amount) !! j
                              = Some a' /\ attention_value a' = attention_value a).
  { unfold opencog_spread_attention, atom_at.
    rewrite (get_atom_resolved now s src j Hne Hj).
    set (s1 := modify_atom j (set_last_access now) s).
    assert (H1 : atoms s1 !! j = Some (set_last_access now a)).
    { subst s1. rewrite atoms_modify_atom, list_lookup_alter_eq, Ha. reflexivity. }
    rewrite H1.
    destruct (spread_over_other now amount (outgoing (set_last_access now a)) s1 j _ H1)
      as (a2 & Ha2 & Hav2 & Hid2 & Hout2 & Hinc2).
    { simpl. rewrite Hid. exact Hout. }
    rewrite Ha2.
    destruct (spread_over_other now amount (incoming a2) _ j _ Ha2)
      as (a3 & Ha3 & Hav3 & _).
    { rewrite Hid2, Hinc2. simpl. rewrite Hid. exact Hinc. }
    exists a3. split; [assumption|]. rewrite Hav3, Hav2. reflexivity. }
  destruct Hfinal as (a' & Ha' & Hav).
  unfold opencog_get_attention_value, atom_at.
  rewrite (get_atom_resolved t' _ src j Hne Hj'). simpl.
  rewrite list_lookup_alter_eq, Ha'. simpl. exact Hav.
Qed.

Lemma spread_attention_keeps_source_witness :
  fst (opencog_get_attention_value 30
         (opencog_spread_attention 20 table_ab_link 4 c0_5) 4)
  = fst (opencog_get_attention_value 25 table_ab_link 4).
Proof.
  apply (spread_attention_keeps_source 20 25 30 table_ab_link 4 c0_5).
  - exists (init_link 13 table_abc 4 OPENCOG_INHERITANCE_LINK [1; 2]).
    split; [|split; reflexivity]. vm_compute. auto 6.
  - lia.
  - vm_compute. intuition discriminate.
  - vm_compute. intuition discriminate.
Defined.

(** ** PLN combinators and the unit interval *)

Lemma fminf_cases x y :
  fminf x y = x \/ fminf x y = y \/
  (is_signaling x || is_signaling y = true /\ fminf x y = qNaN).
Proof.
  unfold fminf. destruct (leb x y); [auto|]. destruct (gtb x y); [auto|].
  destruct (is_signaling x || is_signaling y) eqn:E.
  - right. right. split; [reflexivity|apply add_signaling, E].
  - destruct (is_nan y); auto.
Qed.

Lemma fmaxf_cases x y :
  fmaxf x y = x \/ fmaxf x y = y \/
  (is_signaling x || is_signaling y = true /\ fmaxf x y = qNaN).
Proof.
  unfold fmaxf. destruct (leb y x); [auto|]. destruct (ltb x y); [auto|].
  destruct (is_signaling x || is_signaling y) eqn:E.
  - right. right. split; [reflexivity|apply add_signaling, E].
  - destruct (is_nan y); auto.
Qed.

Lemma in_unit_not_signaling x : in_unit x = true -> is_signaling x = false.
Proof. destruct x; [reflexivity|discriminate]. Qed.

(** The strength of AND and OR is one of the two input strengths, so it
    stays in [0,1] with them; only the confidence goes through a
    division. *)
Lemma pln_and_or_strength_in_unit tv1 tv2 :
  in_unit (strength tv1) = true -> in_unit (strength tv2) = true ->
  in_unit (strength (opencog_pln_and tv1 tv2)) = true /\
  in_unit (strength (opencog_pln_or tv1 tv2)) = true.
Proof.
  intros H1 H2. simpl.
  pose proof (in_unit_not_signaling _ H1) as S1.
  pose proof (in_unit_not_signaling _ H2) as S2.
  split.
  - destruct (fminf_cases (strength tv1) (strength tv2)) as [-> | [-> | [E _]]];
      try assumption.
    rewrite S1, S2 in E. discriminate.
  - destruct (fmaxf_cases (strength tv1) (strength tv2)) as [-> | [-> | [E _]]];
      try assumption.
    rewrite S1, S2 in E. discriminate.
Qed.

(** C5 (the code at the failing input): two truth values with strength
    0.5 and confidence 0, both inside [0,1], make AND and OR divide 0 by
    0; the confidence they return is NaN, which is not in [0,1].  The
    combinators apply no clamp and no guard on the denominator. *)
Theorem pln_and_or_zero_confidence_nan :
  let tv := {| strength := c0_5; confidence := zero; count := one |} in
  in_unit (strength tv) = true /\ in_unit (confidence tv) = true /\
  confidence (opencog_pln_and tv tv) = qNaN /\
  confidence (opencog_pln_or tv tv) = qNaN /\
  in_unit (confidence (opencog_pln_and tv tv)) = false /\
  in_unit (confidence (opencog_pln_or tv tv)) = false.
Proof. vm_compute. repeat split; reflexivity. Qed.

(** ** One tick of attention decay *)

(** C7 (as stated, refuted): the lti of an atom is decayed before the
    transfer is added, so it does not rise by about 0.0475 from its prior
    value whatever that value was.  With sti 0.5 and lti 0.5 one tick
    gives lti 0.5225, a rise of 0.0225; even a tolerance of 0.01 is
    missed. *)
Lemma decay_tick_lti_rise_depends_on_prior :
  ~ (forall s j a,
       attention_decay_rate s = c0_95 -> attention_threshold s = c0_1 ->
       atoms s !! j = Some a -> is_deleted a = false ->
       sti (attention_value a) = c0_5 ->
       exists a', atoms (opencog_update_attention_values s) !! j = Some a' /\
         within (sti (attention_value a')) (4275 # 10000) (1 # 100) = true /\
         rose_by (lti (attention_value a)) (lti (attention_value a'))
           (475 # 10000) (1 # 100) = true).
Proof.
  intros H.
  destruct (H table_attentive 0%nat
              (set_attention (mk_av c0_5 c0_5 zero)
                 (set_last_access 11 (init_node 10 opencog_atomspace_init 1
                                        OPENCOG_CONCEPT_NODE "A"))))
    as (a' & Ha' & _ & Hrise); try reflexivity.
  vm_compute in Ha'. injection Ha' as <-.
  vm_compute in Hrise. discriminate.
Qed.

(** C7 (amended): with decay rate 0.95 and threshold 0.1, one tick takes a
    live atom with sti 0.5 and prior lti [l] to sti = 0.4275 (within 1e-6)
    and lti = clamp(0.95 * l + t) where the transfer [t] is 0.0475 (within
    1e-6); vlti is only clamped.  The rise of about 0.0475 is over the
    decayed lti, and it is the rise over the prior lti when that is 0. *)
Theorem decay_tick_half_sti s j a :
  attention_decay_rate s = c0_95 -> attention_threshold s = c0_1 ->
  atoms s !! j = Some a -> is_deleted a = false ->
  sti (attention_value a) = c0_5 ->
  exists a', atoms (opencog_update_attention_values s) !! j = Some a' /\
    sti (attention_value a') = sti_after_half /\
    lti (attention_value a') =
      clamp zero one (add (mul (lti (attention_value a)) c0_95) transfer_half) /\
    vlti (attention_value a') = clamp zero one (vlti (attention_value a)) /\
    within sti_after_half (4275 # 10000) (1 # 1000000) = true /\
    within transfer_half (475 # 10000) (1 # 1000000) = true /\
    (lti (attention_value a) = zero -> lti (attention_value a') = transfer_half).
Proof.
  intros Hrate Hthr Ha Hlive Hsti.
  exists (decay_atom c0_95 c0_1 a).
  split.
  { unfold opencog_update_attention_values. simpl.
    rewrite list_lookup_fmap, Ha, Hrate, Hthr. reflexivity. }
  unfold decay_atom. rewrite Hlive, Hsti.
  replace (gtb (mul c0_5 c0_95) c0_1) with true by (vm_compute; reflexivity).
  simpl.
  split; [vm_compute; reflexivity|].
  split; [reflexivity|].
  split; [reflexivity|].
  split; [vm_compute; reflexivity|].
  split; [vm_compute; reflexivity|].
  intros ->. vm_compute. reflexivity.
Qed.

Lemma decay_tick_half_sti_witness :
  exists a', atoms (opencog_update_attention_values table_attentive) !! 0%nat = Some a' /\
    sti (attention_value a') = sti_after_half /\
    lti (attention_value a') = clamp zero one (add (mul c0_5 c0_95) transfer_half) /\
    vlti (attention_value a') = clamp zero one zero /\
    within sti_after_half (4275 # 10000) (1 # 1000000) = true /\
    within transfer_half (475 # 10000) (1 # 1000000) = true /\
    (c0_5 = zero -> lti (attention_value a') = transfer_half).
Proof.
  apply (decay_tick_half_sti table_attentive 0%nat
           (set_attention (mk_av c0_5 c0_5 zero)
              (set_last_access 11 (init_node 10 opencog_atomspace_init 1
                                     OPENCOG_CONCEPT_NODE "A"))));
    reflexivity.
Defined.

(** ** Deduction of A -> C *)

Lemma get_truth_value_fst now s id :
  fst (opencog_get_truth_value now s id) = truth_of s id.
Proof.
  unfold truth_of, opencog_get_truth_value, opencog_get_atom, atom_at.
  destruct (id =? 0); [reflexivity|].
  destruct (find_live (atoms s) id) as [i|] eqn:E; [|reflexivity].
  simpl. rewrite !list_lookup_alter_eq.
  destruct (atoms s !! i); reflexivity.
Qed.

Lemma truth_of_touch now s x id :
  truth_of (snd (opencog_get_atom now s x)) id = truth_of s id.
Proof.
  unfold truth_of, opencog_get_truth_value, atom_at.
  assert (Hfind : fst (opencog_get_atom 0 (snd (opencog_get_atom now s x)) id)
                  = fst (opencog_get_atom 0 s id)).
  { rewrite !get_atom_fst, get_atom_find. reflexivity. }
  pose proof (get_atom_snd 0 (snd (opencog_get_atom now s x)) id) as H1.
  pose proof (get_atom_snd 0 s id) as H2.
  destruct (opencog_get_atom 0 (snd (opencog_get_atom now s x)) id) as [o1 s1].
  destruct (opencog_get_atom 0 s id) as [o2 s2].
  simpl in *. subst o1. destruct o2 as [i|]; [|reflexivity].
  subst s1 s2. simpl. rewrite !list_lookup_alter_eq.
  rewrite get_atom_snd.
  destruct (fst (opencog_get_atom now s x)) as [k|]; [|reflexivity].
  rewrite atoms_modify_atom.
  destruct (decide (k = i)) as [->|Hne].
  - rewrite list_lookup_alter_eq. destruct (atoms s !! i); reflexivity.
  - rewrite list_lookup_alter_ne by assumption. reflexivity.
Qed.

Lemma verify_outgoing_live now out :
  forall s,
    (forall id, In id out -> id <> 0 /\ exists j, find_live (atoms s) id = Some j) ->
    fst (verify_outgoing now s out) = true.
Proof.
  induction out as [|x out IH]; intros s H; simpl; [reflexivity|].
  destruct (H x (or_introl eq_refl)) as [Hne [j Hj]].
  rewrite (get_atom_resolved now s x j Hne Hj).
  apply IH. intros id Hin.
  destruct (H id (or_intror Hin)) as [Hid [k Hk]]. split; [assumption|].
  exists k. rewrite find_live_modify by auto with atomspace. exact Hk.
Qed.

(** The slot [opencog_set_truth_value] writes when the id is the one of
    slot [n]. *)
Lemma set_truth_value_slot now s n x st cf :
  wf s -> atoms s !! n = Some x -> is_deleted x = false ->
  opencog_set_truth_value now s (atom_id x) st cf =
  modify_atom n (set_truth (mk_tv (clamp zero one st) (clamp zero one cf) one))
    (modify_atom n (set_last_access now) s).
Proof.
  intros Hwf Hx Hlive.
  assert (Hne : atom_id x <> 0) by (rewrite (wf_ids _ Hwf n x Hx); lia).
  pose proof (find_live_distinct _ _ _ (wf_ids_distinct _ Hwf) Hx Hlive) as Hf.
  unfold opencog_set_truth_value.
  rewrite (get_atom_resolved now s _ n Hne Hf). reflexivity.
Qed.

Lemma truth_of_slot s n x :
  wf s -> atoms s !! n = Some x -> is_deleted x = false ->
  truth_of s (atom_id x) = truth_value x.
Proof.
  intros Hwf Hx Hlive.
  assert (Hne : atom_id x <> 0) by (rewrite (wf_ids _ Hwf n x Hx); lia).
  pose proof (find_live_distinct _ _ _ (wf_ids_distinct _ Hwf) Hx Hlive) as Hf.
  unfold truth_of, opencog_get_truth_value, atom_at.
  rewrite (get_atom_resolved 0 s _ n Hne Hf). simpl.
  rewrite list_lookup_alter_eq, Hx. reflexivity.
Qed.

Lemma live_atom_nonzero s id : wf s -> live_atom s id -> id <> 0.
Proof.
  intros Hwf (a & Hin & Hid & _).
  apply list_elem_of_In, list_elem_of_lookup_1 in Hin as [i Hi].
  rewrite <- Hid, (wf_ids _ Hwf i a Hi). lia.
Qed.

(** C4 (amended): let the table have room for one more atom, let A and C
    be live, and let the premises the scan selects for (A, B) and (B, C)
    -- the last live Inheritance links in table order whose outgoing
    arrays start with these ids -- have strengths 0.9 and 0.85.  Then
    [opencog_infer_inheritance] returns [true] and allocates one new
    Inheritance link with outgoing [[A; C]] whose strength is the binary32
    product of the two strengths, within 1e-4 of 0.765. *)
Theorem infer_inheritance_deduces now t s a b c ab bc :
  wf s -> (atom_count s < atom_capacity s)%nat ->
  live_atom s a -> live_atom s c ->
  scan_premises (atoms s) a b c = (ab, bc) -> ab <> 0 -> bc <> 0 ->
  strength (fst (opencog_get_truth_value t s ab)) = c0_9 ->
  strength (fst (opencog_get_truth_value t s bc)) = c0_85 ->
  let r := opencog_infer_inheritance now s a b c in
  let ac := next_atom_id s in
  fst r = true /\
  atom_count (snd r) = S (atom_count s) /\
  (exists x, atoms (snd r) !! atom_count s = Some x /\ atom_id x = ac /\
             type x = OPENCOG_INHERITANCE_LINK /\ is_deleted x = false) /\
  fst (opencog_query_outgoing t (snd r) ac) = [a; c] /\
  strength (fst (opencog_get_truth_value t (snd r) ac)) = mul c0_9 c0_85 /\
  within (strength (fst (opencog_get_truth_value t (snd r) ac)))
    (765 # 1000) (1 # 10000) = true.
Proof.
  intros Hwf Hroom Hla Hlc Hscan Hab Hbc Hsab Hsbc r ac.
  rewrite get_truth_value_fst in Hsab, Hsbc.
  assert (Ha0 : a <> 0) by eauto using live_atom_nonzero.
  assert (Hc0 : c <> 0) by eauto using live_atom_nonzero.
  destruct (live_atom_resolves now s a Hla Ha0) as (ja & _ & _ & _ & _ & Hja & _).
  destruct (live_atom_resolves now s c Hlc Hc0) as (jc & _ & _ & _ & _ & Hjc & _).
  (* the two premise lookups *)
  set (s1 := snd (opencog_get_atom now s ab)).
  set (s2 := snd (opencog_get_atom now s1 bc)).
  assert (Hin2 : inplace s s2).
  { eapply inplace_trans; apply get_atom_inplace. }
  assert (Hwf2 : wf s2) by (eapply inplace_wf; eauto).
  assert (Hfind2 : forall id, find_live (atoms s2) id = find_live (atoms s) id).
  { intros id. subst s2 s1. rewrite !get_atom_find. reflexivity. }
  (* the allocation *)
  assert (Hadd : opencog_add_link now s2 OPENCOG_INHERITANCE_LINK [a; c]
                 = (ac, linked now s2 OPENCOG_INHERITANCE_LINK [a; c])).
  { subst ac. rewrite <- (inplace_next _ _ Hin2).
    apply add_link_success; [discriminate| |].
    - rewrite (inplace_count _ _ Hin2), (inplace_capacity _ _ Hin2). exact Hroom.
    - apply verify_outgoing_live. intros id [<-|[<-|[]]]; rewrite Hfind2; eauto. }
  assert (Hac : (0 <? ac) = true).
  { apply Z.ltb_lt. subst ac. rewrite (wf_next _ Hwf). lia. }
  set (s3 := linked now s2 OPENCOG_INHERITANCE_LINK [a; c]) in *.
  assert (Hwf3 : wf s3).
  { apply linked_evolves; [|exact Hwf2].
    rewrite (inplace_count _ _ Hin2), (inplace_capacity _ _ Hin2). exact Hroom. }
  destruct (linked_atoms now s2 OPENCOG_INHERITANCE_LINK [a; c] Hwf2)
    as (s2' & x & E3 & _ & _ & Hcnt & Hidx & Houtx & Hdelx & Htyx).
  fold s3 in E3.
  assert (Hn : atom_count s2' = atom_count s).
  { rewrite Hcnt. apply (inplace_count _ _ Hin2). }
  assert (Hx3 : atoms s3 !! atom_count s = Some x).
  { rewrite E3. simpl. rewrite <- Hn. unfold atom_count.
    apply list_lookup_middle. reflexivity. }
  assert (Hidx' : atom_id x = ac).
  { rewrite Hidx. apply (inplace_next _ _ Hin2). }
  (* the run of the function *)
  assert (Hr : r = (true,
                    record_success
                      (opencog_set_truth_value now s3 ac
                         (mul c0_9 c0_85)
                         (combine_confidence (confidence (truth_of s ab))
                            (confidence (truth_of s bc)))))).
  { subst r. unfold opencog_infer_inheritance. rewrite Hscan.
    apply Z.eqb_neq in Hab, Hbc. rewrite Hab, Hbc. simpl orb. cbv iota.
    pose proof (get_truth_value_fst now s ab) as F1.
    pose proof (get_truth_value_snd now s ab) as S1.
    destruct (opencog_get_truth_value now s ab) as [tv_ab s1']. simpl in F1, S1.
    subst tv_ab s1'. fold s1.
    pose proof (get_truth_value_fst now s1 bc) as F2.
    pose proof (get_truth_value_snd now s1 bc) as S2.
    destruct (opencog_get_truth_value now s1 bc) as [tv_bc s2'']. simpl in F2, S2.
    subst tv_bc s2''. fold s2.
    rewrite Hadd, Hac. simpl strength. simpl confidence.
    unfold s1 at 1 2. rewrite !truth_of_touch, Hsab, Hsbc. reflexivity. }
  rewrite Hr. simpl fst. simpl snd.
  rewrite <- Hidx'.
  rewrite (set_truth_value_slot now s3 (atom_count s) x _ _ Hwf3 Hx3 Hdelx).
  set (tv := mk_tv _ _ one).
  set (s4 := modify_atom _ (set_truth tv) _).
  assert (Hin4 : inplace s3 (record_success s4)).
  { eapply inplace_trans; [|apply record_success_inplace].
    eapply inplace_trans; apply inplace_modify; auto with atomspace. }
  assert (Hwf4 : wf (record_success s4)) by (eapply inplace_wf; eauto).
  assert (Hx4 : atoms (record_success s4) !! atom_count s
                = Some (set_truth tv (set_last_access now x))).
  { change (atoms (record_success s4))
      with (alter (set_truth tv) (atom_count s)
              (alter (set_last_access now) (atom_count s) (atoms s3))).
    rewrite !list_lookup_alter_eq, Hx3. reflexivity. }
  split; [reflexivity|].
  split.
  { rewrite (inplace_count _ _ Hin4). rewrite E3. unfold atom_count. simpl.
    rewrite length_app. simpl. unfold atom_count in Hn. lia. }
  split.
  { eexists. split; [exact Hx4|]. simpl. auto. }
  pose proof (query_slot t _ _ _ Hwf4 Hx4 Hdelx) as [Hq _].
  pose proof (truth_of_slot _ _ _ Hwf4 Hx4 Hdelx) as Htr.
  simpl atom_id in Hq, Htr.
  split; [rewrite Hq; exact Houtx|].
  rewrite get_truth_value_fst, Htr. simpl.
  split; vm_compute; reflexivity.
Qed.

(** When the table is full the deduction fails even with both premises
    present. *)
Lemma infer_inheritance_full_table now s a b c :
  (atom_capacity s <= atom_count s)%nat ->
  fst (opencog_infer_inheritance now s a b c) = false.
Proof.
  intros Hfull. unfold opencog_infer_inheritance.
  destruct (scan_premises (atoms s) a b c) as [ab bc].
  destruct ((ab =? 0) || (bc =? 0)); [reflexivity|].
  pose proof (get_atom_inplace now s ab) as H1.
  rewrite <- get_truth_value_snd in H1.
  destruct (opencog_get_truth_value now s ab) as [tv_ab s1]; simpl in H1.
  pose proof (get_atom_inplace now s1 bc) as H2.
  rewrite <- get_truth_value_snd in H2.
  destruct (opencog_get_truth_value now s1 bc) as [tv_bc s2]; simpl in H2.
  unfold opencog_add_link.
  assert (Hfull2 : (atom_capacity s2 <=? atom_count s2)%nat = true).
  { apply Nat.leb_le.
    rewrite (inplace_count _ _ H2), (inplace_capacity _ _ H2),
      (inplace_count _ _ H1), (inplace_capacity _ _ H1). exact Hfull. }
  rewrite Hfull2. reflexivity.
Qed.

Lemma is_deduced_link_complete a c z :
  type z = OPENCOG_INHERITANCE_LINK -> outgoing z = [a; c] ->
  within (strength (truth_value z)) (765 # 1000) (1 # 10000) = true ->
  is_deduced_link a c z = true.
Proof.
  intros Hty Hout Hw. unfold is_deduced_link.
  rewrite Hty, Hout, Hw, !Z.eqb_refl. reflexivity.
Qed.

(** C4 (as stated, refuted): the presence of the two premises does not
    fix the result.  In [table_rival] the links A -> B (0.9, 0.8) and
    B -> C (0.85, 0.9) are live, but the scan keeps the last match, the
    rival A -> B of strength 0.1; the link created for A -> C has strength
    0.085 and no atom of the resulting table is an A -> C link of strength
    about 0.765. *)
Lemma infer_inheritance_premise_not_unique :
  ~ (forall now s a b c x y,
       wf s -> In x (atoms s) -> In y (atoms s) ->
       is_deleted x = false -> is_deleted y = false ->
       type x = OPENCOG_INHERITANCE_LINK -> type y = OPENCOG_INHERITANCE_LINK ->
       outgoing x = [a; b] -> outgoing y = [b; c] ->
       strength (truth_value x) = c0_9 -> confidence (truth_value x) = c0_8 ->
       strength (truth_value y) = c0_85 -> confidence (truth_value y) = c0_9 ->
       fst (opencog_infer_inheritance now s a b c) = true /\
       exists z, In z (atoms (snd (opencog_infer_inheritance now s a b c))) /\
         type z = OPENCOG_INHERITANCE_LINK /\ outgoing z = [a; c] /\
         within (strength (truth_value z)) (765 # 1000) (1 # 10000) = true).
Proof.
  intros H.
  pose (x := set_truth (mk_tv c0_9 c0_8 one)
               (set_last_access 14 (init_link 13 opencog_atomspace_init 4
                                      OPENCOG_INHERITANCE_LINK [1; 2]))).
  pose (y := set_truth (mk_tv c0_85 c0_9 one)
               (set_last_access 16 (init_link 15 opencog_atomspace_init 5
                                      OPENCOG_INHERITANCE_LINK [2; 3]))).
  assert (Hx : In x (atoms table_rival))
    by (vm_compute; do 3 right; left; reflexivity).
  assert (Hy : In y (atoms table_rival))
    by (vm_compute; do 4 right; left; reflexivity).
  destruct (H 20 table_rival 1 2 3 x y (wf_reachable rival_calls) Hx Hy)
    as [_ (z & Hz & Hty & Hout & Hw)]; try reflexivity.
  assert (Hnone : existsb (is_deduced_link 1 3)
                    (atoms (snd (opencog_infer_inheritance 20 table_rival 1 2 3)))
                  = false) by (vm_compute; reflexivity).
  apply not_true_iff_false in Hnone. apply Hnone.
  apply existsb_exists. exists z. split; [assumption|].
  apply is_deduced_link_complete; assumption.
Qed.

Lemma infer_inheritance_deduces_witness :
  let r := opencog_infer_inheritance 20 table_premises 1 2 3 in
  let ac := next_atom_id table_premises in
  fst r = true /\
  atom_count (snd r) = S (atom_count table_premises) /\
  (exists x, atoms (snd r) !! atom_count table_premises = Some x /\ atom_id x = ac /\
             type x = OPENCOG_INHERITANCE_LINK /\ is_deleted x = false) /\
  fst (opencog_query_outgoing 30 (snd r) ac) = [1; 3] /\
  strength (fst (opencog_get_truth_value 30 (snd r) ac)) = mul c0_9 c0_85 /\
  within (strength (fst (opencog_get_truth_value 30 (snd r) ac)))
    (765 # 1000) (1 # 10000) = true.
Proof.
  apply (infer_inheritance_deduces 20 30 table_premises 1 2 3 4 5).
  - apply (wf_reachable premise_calls).
  - vm_compute. lia.
  - exists (set_last_access 13 (set_incoming [4] 4
              (init_node 10 opencog_atomspace_init 1 OPENCOG_CONCEPT_NODE "A"))).
    split; [|split; reflexivity]. vm_compute. auto.
  - exists (set_last_access 15 (set_incoming [5] 4
              (init_node 12 opencog_atomspace_init 3 OPENCOG_CONCEPT_NODE "C"))).
    split; [|split; reflexivity]. vm_compute. auto.
  - vm_compute. reflexivity.
  - lia.
  - lia.
  - vm_compute. reflexivity.
  - vm_compute. reflexivity.
Defined.

(** ** Double negation *)

(** [grid k] is the number [k / 2^24], exactly. *)
Lemma grid_value k :
  0 <= k <= 2 ^ 24 ->
  exists v, to_Q (grid k) = Some v /\ (v == k # 2 ^ 24)%Q.
Proof.
  intros Hk.
  destruct (Z.eq_dec k (2 ^ 24)) as [->|H1].
  { eexists. split; [vm_compute; reflexivity|]. reflexivity. }
  destruct k as [|q|q]; try lia.
  { eexists. split; [vm_compute; reflexivity|]. reflexivity. }
  assert (Hq : Zpos q < 2 ^ 24) by lia.
  destruct (canon_spec q Hq) as [_ Hv].
  pose proof (digits_le_24 q Hq) as Hd.
  rewrite grid_canon by assumption. unfold to_Q.
  destruct (Zpos (digits2_pos q) - 48) as [|e|e] eqn:E; try lia.
  eexists. split; [reflexivity|].
  unfold Qeq. simpl Qnum. simpl Qden.
  rewrite Hv, (Pos2Z.inj_pow 2 e).
  replace (Zpos e) with (24 + (24 - Zpos (digits2_pos q))) by lia.
  rewrite Z.pow_add_r by lia.
  change (Zpos (2 ^ 24)%positive) with (2 ^ 24). ring.
Qed.

(** Every binary32 value of [[0.5, 1)] lies on the grid. *)
Lemma grid_upper_half m :
  Zpos (digits2_pos m) = 24 -> Val (S754_finite false m (-24)) = grid (Zpos m).
Proof.
  intros Hd.
  assert (Hm : Zpos m < 2 ^ 24).
  { pose proof (digits_bounds m) as [_ Hhi]. rewrite Hd in Hhi. exact Hhi. }
  rewrite grid_canon by assumption. unfold canon. rewrite Hd. reflexivity.
Qed.

(** C6 (as stated, refuted): in binary32 the subtraction [1 - s] rounds,
    so negating twice need not give the strength back.  For the strength
    0.1f = 13421773 * 2^-27 the first negation is rounded to
    15099494 * 2^-24 and the second returns 13421776 * 2^-27. *)
Lemma pln_not_not_rounds :
  ~ (forall t, strength (opencog_pln_not (opencog_pln_not t)) = strength t).
Proof.
  intros H. specialize (H (mk_tv c0_1 c0_9 one)).
  vm_compute in H. discriminate.
Qed.

(** C6 (amended): for every truth value whose strength is a multiple
    [k * 2^-24] of 2^-24 in [0, 1] -- among them 0, 1 and every binary32
    value from 0.5 up to 1 -- negating twice gives back the truth value,
    strength included: both subtractions from 1 are exact. *)
Theorem pln_not_not_on_grid t k :
  0 <= k <= 2 ^ 24 -> strength t = grid k ->
  strength (opencog_pln_not (opencog_pln_not t)) = strength t /\
  opencog_pln_not (opencog_pln_not t) = t.
Proof.
  intros Hk Hs.
  assert (H : strength (opencog_pln_not (opencog_pln_not t)) = strength t).
  { simpl. rewrite Hs. apply sub_one_involutive_grid, Hk. }
  split; [exact H|].
  destruct t as [s c n]. unfold opencog_pln_not in *. simpl in *. rewrite H.
  reflexivity.
Qed.

Lemma pln_not_not_on_grid_witness :
  strength (opencog_pln_not (opencog_pln_not (mk_tv c0_9 c0_8 one))) = c0_9 /\
  opencog_pln_not (opencog_pln_not (mk_tv c0_9 c0_8 one)) = mk_tv c0_9 c0_8 one.
Proof.
  apply (pln_not_not_on_grid (mk_tv c0_9 c0_8 one) 15099494).
  - lia.
  - vm_compute. reflexivity.
Defined.

(** * Further properties of the unit *)

#[local] Arguments clamp : simpl never.
#[local] Arguments in_range : simpl never.

(** ** How a call changes the table

    Every call is a sequence of in-place writes, decay ticks, counter
    updates and allocations; a property kept by each of these is kept by
    every call and every run. *)

Lemma add_link_result now s ty out :
  opencog_add_link now s ty out = (0, s) \/
  (fst (verify_outgoing now s out) = false /\
   opencog_add_link now s ty out = (0, snd (verify_outgoing now s out))) \/
  (out <> [] /\ (atom_count s < atom_capacity s)%nat /\
   fst (verify_outgoing now s out) = true /\
   opencog_add_link now s ty out = (next_atom_id s, linked now s ty out)).
Proof.
  destruct out as [|o out]; [left; reflexivity|].
  destruct (atom_capacity s <=? atom_count s)%nat eqn:Hcap.
  { left. unfold opencog_add_link. rewrite Hcap. reflexivity. }
  apply Nat.leb_gt in Hcap.
  destruct (fst (verify_outgoing now s (o :: out))) eqn:Hv.
  - right. right. split; [discriminate|]. split; [assumption|]. split; [reflexivity|].
    apply add_link_success; [discriminate|assumption|assumption].
  - right. left. split; [reflexivity|].
    unfold opencog_add_link. apply Nat.leb_gt in Hcap. rewrite Hcap.
    destruct (verify_outgoing now s (o :: out)) as [[|] s0]; simpl in *;
      [discriminate|reflexivity].
Qed.

Section Preservation.
Variable I : opencog_atomspace_t -> Prop.
Hypothesis I_write : forall i f s, writer f -> I s -> I (modify_atom i f s).
Hypothesis I_tick : forall s, I s -> I (opencog_update_attention_values s).
Hypothesis I_failure : forall s, I s -> I (record_failure s).
Hypothesis I_node :
  forall now s ty n, (atom_count s < atom_capacity s)%nat ->
    I s -> I (snd (opencog_add_node now s ty (Some n))).
Hypothesis I_link :
  forall now s ty out, out <> [] -> (atom_count s < atom_capacity s)%nat ->
    fst (verify_outgoing now s out) = true ->
    I s -> I (linked now s ty out).
Hypothesis I_success :
  forall now s ty out st cf, out <> [] -> (atom_count s < atom_capacity s)%nat ->
    fst (verify_outgoing now s out) = true -> 0 < next_atom_id s ->
    I s ->
    I (record_success
         (opencog_set_truth_value now (linked now s ty out) (next_atom_id s) st cf)).
Variable allowed : Cogfluence.cogfluence_knowledge_unit_t -> Prop.
Hypothesis I_import :
  forall now s u, allowed u -> (atom_count s < atom_capacity s)%nat ->
    I s -> I (snd (opencog_from_cogfluence_unit now s (Some u))).

Lemma get_atom_keeps now s id : I s -> I (snd (opencog_get_atom now s id)).
Proof.
  intros H. rewrite get_atom_snd.
  destruct (fst (opencog_get_atom now s id)); [|assumption].
  apply I_write; [constructor|assumption].
Qed.

Lemma verify_outgoing_keeps now out :
  forall s, I s -> I (snd (verify_outgoing now s out)).
Proof.
  induction out as [|id out IH]; intros s H; simpl; [assumption|].
  pose proof (get_atom_keeps now s id H) as Hg.
  destruct (opencog_get_atom now s id) as [[j|] s']; simpl in *; auto.
Qed.

Lemma set_truth_value_keeps now s id st cf :
  I s -> I (opencog_set_truth_value now s id st cf).
Proof.
  intros H. unfold opencog_set_truth_value.
  pose proof (get_atom_keeps now s id H) as Hg.
  destruct (opencog_get_atom now s id) as [[j|] s']; simpl in *; [|assumption].
  apply I_write; [constructor|assumption].
Qed.

Lemma set_attention_value_keeps now s id st lt vl :
  I s -> I (opencog_set_attention_value now s id st lt vl).
Proof.
  intros H. unfold opencog_set_attention_value.
  pose proof (get_atom_keeps now s id H) as Hg.
  destruct (opencog_get_atom now s id) as [[j|] s']; simpl in *; [|assumption].
  apply I_write; [constructor|assumption].
Qed.

Lemma spread_to_keeps now amount targets :
  forall s, I s -> I (spread_to now s amount targets).
Proof.
  induction targets as [|id out IH]; intros s H; simpl; [assumption|].
  pose proof (get_atom_keeps now s id H) as Hg.
  destruct (opencog_get_atom now s id) as [[j|] s']; simpl in *; auto.
  apply IH, I_write; [constructor|assumption].
Qed.

Lemma spread_over_keeps now amount targets s :
  I s -> I (spread_over now s amount targets).
Proof.
  intros H. destruct targets; simpl; [assumption|].
  apply (spread_to_keeps now _ (_ :: _)), H.
Qed.

Lemma spread_attention_keeps now s id amount :
  I s -> I (opencog_spread_attention now s id amount).
Proof.
  intros H. unfold opencog_spread_attention.
  pose proof (get_atom_keeps now s id H) as Hg.
  destruct (opencog_get_atom now s id) as [[i|] s1]; simpl in *; [|assumption].
  set (s2 := match atom_at s1 i with
             | Some src => spread_over now s1 amount (outgoing src)
             | None => s1 end).
  assert (H2 : I s2).
  { subst s2. destruct (atom_at s1 i); auto using spread_over_keeps. }
  destruct (atom_at s2 i); auto using spread_over_keeps.
Qed.

Lemma add_link_keeps now s ty out :
  I s -> I (snd (opencog_add_link now s ty out)).
Proof.
  intros H.
  destruct (add_link_result now s ty out) as [E|[[_ E]|(Ho & Hr & Hv & E)]];
    rewrite E; simpl.
  - assumption.
  - apply verify_outgoing_keeps, H.
  - apply I_link; assumption.
Qed.

(** The tail shared by the two inference rules: allocate the link, set
    its truth value, update the counters. *)
Lemma conclude_keeps now s ty out st cf :
  I s ->
  I (snd (let '(l, s1) := opencog_add_link now s ty out in
          if 0 <? l
          then (true, record_success (opencog_set_truth_value now s1 l st cf))
          else (false, record_failure s1))).
Proof.
  intros H.
  destruct (add_link_result now s ty out) as [E|[[_ E]|(Ho & Hr & Hv & E)]];
    rewrite E; simpl.
  - apply I_failure, H.
  - apply I_failure, verify_outgoing_keeps, H.
  - destruct (0 <? next_atom_id s) eqn:Hpos; simpl.
    + apply I_success; auto. apply Z.ltb_lt, Hpos.
    + apply I_failure, I_link; assumption.
Qed.

Lemma infer_inheritance_keeps now s a b c :
  I s -> I (snd (opencog_infer_inheritance now s a b c)).
Proof.
  intros H. unfold opencog_infer_inheritance.
  destruct (scan_premises (atoms s) a b c) as [ab bc].
  destruct ((ab =? 0) || (bc =? 0)); [assumption|].
  pose proof (get_atom_keeps now s ab H) as H1.
  rewrite <- get_truth_value_snd in H1.
  destruct (opencog_get_truth_value now s ab) as [tv_ab s1]; simpl in H1.
  pose proof (get_atom_keeps now s1 bc H1) as H2.
  rewrite <- get_truth_value_snd in H2.
  destruct (opencog_get_truth_value now s1 bc) as [tv_bc s2]; simpl in H2.
  apply (conclude_keeps now s2 OPENCOG_INHERITANCE_LINK [a; c] _ _ H2).
Qed.

Lemma infer_similarity_keeps now s a b :
  I s -> I (snd (opencog_infer_similarity now s a b)).
Proof.
  intros H. unfold opencog_infer_similarity.
  destruct (fold_left (relation_step a b) (atoms s) (zero, zero, zero))
    as [[common total_a] total_b].
  destruct (gtb (if gtb _ zero then _ else zero) c0_1).
  - apply (conclude_keeps now s OPENCOG_SIMILARITY_LINK [a; b] _ _ H).
  - apply I_failure, H.
Qed.

Lemma exec_keeps c s : imports allowed c -> I s -> I (exec c s).
Proof.
  intros Hc H. destruct c; simpl.
  - destruct nm as [n|]; [|assumption].
    destruct (atom_capacity s <=? atom_count s)%nat eqn:Hcap.
    + unfold opencog_add_node. rewrite Hcap. assumption.
    + apply I_node; [apply Nat.leb_gt, Hcap|assumption].
  - apply add_link_keeps, H.
  - apply get_atom_keeps, H.
  - apply set_truth_value_keeps, H.
  - rewrite get_truth_value_snd. apply get_atom_keeps, H.
  - apply set_attention_value_keeps, H.
  - rewrite get_attention_value_snd. apply get_atom_keeps, H.
  - apply I_tick, H.
  - apply spread_attention_keeps, H.
  - apply infer_inheritance_keeps, H.
  - apply infer_similarity_keeps, H.
  - rewrite query_incoming_snd. apply get_atom_keeps, H.
  - rewrite query_outgoing_snd. apply get_atom_keeps, H.
  - destruct unit as [u|]; [|assumption].
    destruct (atom_capacity s <=? atom_count s)%nat eqn:Hcap.
    + unfold opencog_from_cogfluence_unit, opencog_add_node.
      rewrite Hcap. assumption.
    + apply I_import; [exact Hc|apply Nat.leb_gt, Hcap|assumption].
  - unfold opencog_compute_similarity.
    pose proof (get_atom_keeps now s a H) as H1.
    destruct (opencog_get_atom now s a) as [r1 s1]. cbn [snd] in H1.
    pose proof (get_atom_keeps now s1 b H1) as H2.
    destruct (opencog_get_atom now s1 b) as [r2 s2]. exact H2.
  - apply get_atom_keeps, H.
  - unfold opencog_tensor_to_atom.
    destruct tensor; [|assumption]. destruct nm as [n|]; [|assumption].
    destruct (atom_capacity s <=? atom_count s)%nat eqn:Hcap.
    + unfold opencog_add_node. rewrite Hcap. assumption.
    + pose proof (I_node now s OPENCOG_CONCEPT_NODE n
                    (proj1 (Nat.leb_gt _ _) Hcap) H) as H1.
      destruct (opencog_add_node now s OPENCOG_CONCEPT_NODE (Some n)) as [id s1].
      cbn [snd] in H1.
      destruct (id =? 0); [exact H1|]. apply get_atom_keeps, H1.
  - apply get_atom_keeps, H.
Qed.

Lemma run_keeps cs :
  Forall (imports allowed) cs -> forall s, I s -> I (run cs s).
Proof.
  induction 1 as [|c cs Hc _ IH]; intros s H; simpl; [assumption|].
  apply IH, exec_keeps; assumption.
Qed.
End Preservation.

(** The bridge is [opencog_add_node] followed by two writes through the
    pointer [opencog_get_atom] returns: the access stamp and the copy of
    the unit.  An invariant that survives the allocation and both writes
    at any slot survives the bridge. *)
Lemma from_cogfluence_unit_keeps (I : opencog_atomspace_t -> Prop)
    (allowed : Cogfluence.cogfluence_knowledge_unit_t -> Prop) :
  (forall i f s, writer f -> I s -> I (modify_atom i f s)) ->
  (forall now s ty n, (atom_count s < atom_capacity s)%nat ->
     I s -> I (snd (opencog_add_node now s ty (Some n)))) ->
  (forall i u s, allowed u -> I s -> I (modify_atom i (import_unit u) s)) ->
  forall now s u, allowed u -> (atom_count s < atom_capacity s)%nat ->
    I s -> I (snd (opencog_from_cogfluence_unit now s (Some u))).
Proof.
  intros Hw Hn Hi now s u Hu Hroom H.
  unfold opencog_from_cogfluence_unit.
  pose proof (Hn now s (unit_atom_type (Cogfluence.type u)) (Cogfluence.name u)
                Hroom H) as H1.
  destruct (opencog_add_node now s (unit_atom_type (Cogfluence.type u))
              (Some (Cogfluence.name u))) as [id s1]. cbn [snd] in H1.
  destruct (0 <? id); [|exact H1].
  pose proof (get_atom_keeps I Hw now s1 id H1) as H2.
  destruct (opencog_get_atom now s1 id) as [[i|] s2]; cbn [snd] in *.
  - apply Hi; assumption.
  - exact H2.
Qed.

Lemma imports_any cs : Forall (imports (fun _ => True)) cs.
Proof.
  apply Forall_forall. intros c _. destruct c; simpl; auto.
  destruct unit; exact Logic.I.
Qed.

(** The schema for an invariant that survives the copy of any unit. *)
Lemma run_keeps_all (I : opencog_atomspace_t -> Prop) :
  (forall i f s, writer f -> I s -> I (modify_atom i f s)) ->
  (forall s, I s -> I (opencog_update_attention_values s)) ->
  (forall s, I s -> I (record_failure s)) ->
  (forall now s ty n, (atom_count s < atom_capacity s)%nat ->
     I s -> I (snd (opencog_add_node now s ty (Some n)))) ->
  (forall now s ty out, out <> [] -> (atom_count s < atom_capacity s)%nat ->
     fst (verify_outgoing now s out) = true ->
     I s -> I (linked now s ty out)) ->
  (forall now s ty out st cf, out <> [] ->
     (atom_count s < atom_capacity s)%nat ->
     fst (verify_outgoing now s out) = true -> 0 < next_atom_id s ->
     I s ->
     I (record_success
          (opencog_set_truth_value now (linked now s ty out) (next_atom_id s)
             st cf))) ->
  (forall i u s, I s -> I (modify_atom i (import_unit u) s)) ->
  forall cs s, I s -> I (run cs s).
Proof.
  intros Hw Ht Hf Hn Hl Hs Hi cs.
  apply (run_keeps I Hw Ht Hf Hn Hl Hs (fun _ => True)); [|apply imports_any].
  apply from_cogfluence_unit_keeps; auto.
Qed.

(** ** The parameters are never written *)

Lemma config_modify i f s : config (modify_atom i f s) = config s.
Proof. reflexivity. Qed.

Lemma config_get_atom now s id : config (snd (opencog_get_atom now s id)) = config s.
Proof.
  rewrite get_atom_snd. destruct (fst (opencog_get_atom now s id)); reflexivity.
Qed.

Lemma config_verify now out :
  forall s, config (snd (verify_outgoing now s out)) = config s.
Proof.
  induction out as [|id out IH]; intros s; simpl; [reflexivity|].
  pose proof (config_get_atom now s id) as Hg.
  destruct (opencog_get_atom now s id) as [[j|] s']; simpl in *; [|assumption].
  rewrite IH. exact Hg.
Qed.

Lemma config_link_incoming now link out :
  forall s, config (link_incoming now s link out) = config s.
Proof.
  induction out as [|id out IH]; intros s; simpl; [reflexivity|].
  pose proof (config_get_atom now s id) as Hg.
  destruct (opencog_get_atom now s id) as [[j|] s']; simpl in *;
    rewrite IH; [rewrite config_modify|]; exact Hg.
Qed.

Lemma config_linked now s ty out : config (linked now s ty out) = config s.
Proof.
  unfold linked.
  change (config (set_atoms ?l ?x)) with (config x).
  rewrite config_link_incoming.
  change (config (snd (generate_atom_id ?x))) with (config x).
  apply config_verify.
Qed.

Lemma config_set_truth_value now s id st cf :
  config (opencog_set_truth_value now s id st cf) = config s.
Proof.
  unfold opencog_set_truth_value.
  pose proof (config_get_atom now s id) as Hg.
  destruct (opencog_get_atom now s id) as [[j|] s']; simpl in *; assumption.
Qed.

Lemma run_config cs s : config (run cs s) = config s.
Proof.
  apply (run_keeps_all (fun s' => config s' = config s)); try reflexivity.
  - intros i f s' _ H. rewrite config_modify. exact H.
  - intros s' H. exact H.
  - intros s' H. exact H.
  - intros now s' ty n Hroom H. unfold opencog_add_node.
    apply Nat.leb_gt in Hroom. rewrite Hroom. exact H.
  - intros now s' ty out _ _ _ H. rewrite config_linked. exact H.
  - intros now s' ty out st cf _ _ _ _ H.
    change (config (record_success ?x)) with (config x).
    rewrite config_set_truth_value, config_linked. exact H.
  - intros i u s' H. rewrite config_modify. exact H.
Qed.

(** X7: no call changes the capacity, the ECAN rates or the PLN defaults:
    every table built from [opencog_atomspace_init] still has room for
    [OPENCOG_MAX_ATOMS] atoms, decay rate 0.95, threshold 0.1, diffusion
    rate 0.1 and the default truth value (0.8, 0.9). *)
Theorem reachable_parameters cs :
  let s := run cs opencog_atomspace_init in
  atom_capacity s = OPENCOG_MAX_ATOMS /\
  attention_decay_rate s = c0_95 /\ attention_threshold s = c0_1 /\
  importance_diffusion_rate s = c0_1 /\
  default_strength s = c0_8 /\ default_confidence s = c0_9.
Proof.
  intros s. pose proof (run_config cs opencog_atomspace_init) as H.
  fold s in H. unfold config in H. injection H as -> -> -> -> -> ->.
  repeat split.
Qed.

(** ** Properties of single atoms through an allocation *)

Section AtomLocal.
Variable P : opencog_atom_t -> Prop.
Hypothesis P_access : forall t a, P a -> P (set_last_access t a).
Hypothesis P_push : forall l a, P a -> P (push_incoming l a).

Lemma Forall_modify i f s :
  (forall a, P a -> P (f a)) -> Forall P (atoms s) ->
  Forall P (atoms (modify_atom i f s)).
Proof.
  intros Hf H. rewrite atoms_modify_atom. apply Forall_alter; auto.
Qed.

Lemma Forall_get_atom now s id :
  Forall P (atoms s) -> Forall P (atoms (snd (opencog_get_atom now s id))).
Proof.
  intros H. rewrite get_atom_snd.
  destruct (fst (opencog_get_atom now s id)); [|assumption].
  apply Forall_modify; auto.
Qed.

Lemma Forall_verify now out :
  forall s, Forall P (atoms s) -> Forall P (atoms (snd (verify_outgoing now s out))).
Proof.
  induction out as [|id out IH]; intros s H; simpl; [assumption|].
  pose proof (Forall_get_atom now s id H) as Hg.
  destruct (opencog_get_atom now s id) as [[j|] s']; simpl in *; auto.
Qed.

Lemma Forall_link_incoming now link out :
  forall s, Forall P (atoms s) -> Forall P (atoms (link_incoming now s link out)).
Proof.
  induction out as [|id out IH]; intros s H; simpl; [assumption|].
  pose proof (Forall_get_atom now s id H) as Hg.
  destruct (opencog_get_atom now s id) as [[j|] s']; simpl in *; auto.
  apply IH, Forall_modify; auto.
Qed.

Lemma Forall_linked now s ty out :
  Forall P (atoms s) ->
  P (init_link now (snd (generate_atom_id (snd (verify_outgoing now s out))))
       (next_atom_id (snd (verify_outgoing now s out))) ty out) ->
  Forall P (atoms (linked now s ty out)).
Proof.
  intros H Hnew. unfold linked. simpl. apply Forall_app. split.
  - apply Forall_link_incoming. simpl. apply Forall_verify, H.
  - constructor; [exact Hnew|constructor].
Qed.
End AtomLocal.

(** ** Stored values stay in range *)

Lemma writer_in_range f a : writer f -> atom_in_range a -> atom_in_range (f a).
Proof.
  intros Hf [Ht Ha]. destruct Hf; split; simpl; auto.
  - unfold truth_in_range. simpl. rewrite !clamp_unit. reflexivity.
  - unfold attention_in_range. simpl. rewrite clamp_sti, !clamp_unit. reflexivity.
  - unfold attention_in_range in *. simpl.
    apply andb_prop in Ha as [Ha Hv]. apply andb_prop in Ha as [_ Hl].
    rewrite clamp_sti, Hl, Hv. reflexivity.
Qed.

(** The decay tick clamps what it writes, so a live atom is in range
    after a tick whatever its attention was before. *)
Lemma decay_atom_attention r t a :
  is_deleted a = false ->
  attention_in_range (attention_value (decay_atom r t a)) = true.
Proof.
  intros Hlive. unfold decay_atom. rewrite Hlive.
  destruct (gtb _ _); unfold attention_in_range; simpl;
    rewrite clamp_sti, !clamp_unit; reflexivity.
Qed.

Lemma decay_atom_in_range r t a : atom_in_range a -> atom_in_range (decay_atom r t a).
Proof.
  intros [Ht Ha]. destruct (is_deleted a) eqn:Hdel.
  - unfold decay_atom. rewrite Hdel. split; assumption.
  - split; [|apply decay_atom_attention, Hdel].
    unfold decay_atom. rewrite Hdel. destruct (gtb _ _); exact Ht.
Qed.

Lemma init_atom_in_range tv a :
  truth_value a = tv -> attention_value a = mk_av zero zero zero ->
  truth_in_range tv = true -> atom_in_range a.
Proof. intros <- Ha Ht. split; [exact Ht|]. rewrite Ha. reflexivity. Qed.

Lemma ranges_ok_config s s' :
  config s' = config s -> Forall atom_in_range (atoms s') ->
  ranges_ok s -> ranges_ok s'.
Proof.
  intros Hc Ha (_ & Hs & Hcf). unfold config in Hc.
  injection Hc as _ _ _ _ Es Ec. split; [exact Ha|]. rewrite Es, Ec. auto.
Qed.

Lemma defaults_in_range s :
  ranges_ok s ->
  truth_in_range (mk_tv (default_strength s) (default_confidence s) one) = true.
Proof.
  intros (_ & Hs & Hc). unfold truth_in_range. simpl. rewrite Hs, Hc. reflexivity.
Qed.

Lemma ranges_ok_write i f s :
  writer f -> ranges_ok s -> ranges_ok (modify_atom i f s).
Proof.
  intros Hf H. apply (ranges_ok_config s); [reflexivity| |exact H].
  apply Forall_modify; [|apply H]. intros a. apply writer_in_range, Hf.
Qed.

Lemma ranges_ok_node now s ty n :
  (atom_count s < atom_capacity s)%nat ->
  ranges_ok s -> ranges_ok (snd (opencog_add_node now s ty (Some n))).
Proof.
  intros Hroom H. apply (ranges_ok_config s); [| |exact H].
  - unfold opencog_add_node. apply Nat.leb_gt in Hroom. rewrite Hroom. reflexivity.
  - unfold opencog_add_node. apply Nat.leb_gt in Hroom. rewrite Hroom. simpl.
    apply Forall_app. split; [apply H|].
    constructor; [|constructor].
    eapply init_atom_in_range; [reflexivity|reflexivity|].
    apply (defaults_in_range s), H.
Qed.

(** The bridge copies the unit's floats as they are: the atom is in range
    when the unit is. *)
Lemma import_in_range u a :
  unit_in_range u -> atom_in_range a -> atom_in_range (import_unit u a).
Proof.
  intros (Hs & Hc & Hst & Hl) [_ Ha]. split; simpl.
  - unfold truth_in_range. simpl. rewrite Hs, Hc. reflexivity.
  - unfold attention_in_range in *. simpl.
    apply andb_prop in Ha as [_ Hv]. rewrite Hst, Hl, Hv. reflexivity.
Qed.

Lemma run_ranges_ok cs s :
  Forall (imports unit_in_range) cs -> ranges_ok s -> ranges_ok (run cs s).
Proof.
  intros Hcs. revert s.
  apply run_keeps with (allowed := unit_in_range); [| | | | | | |exact Hcs].
  - apply ranges_ok_write.
  - intros s' H. apply (ranges_ok_config s'); [reflexivity| |exact H].
    unfold opencog_update_attention_values. simpl.
    apply Forall_fmap. eapply Forall_impl; [apply H|].
    intros a. apply decay_atom_in_range.
  - intros s' H. apply (ranges_ok_config s'); [reflexivity|apply H|exact H].
  - apply ranges_ok_node.
  - intros now s' ty out _ _ _ H.
    apply (ranges_ok_config s'); [apply config_linked| |exact H].
    apply Forall_linked; [| |apply H|].
    + intros t a [Ht Ha]. split; assumption.
    + intros l a [Ht Ha]. split; assumption.
    + eapply init_atom_in_range; [reflexivity|reflexivity|].
      pose proof (config_verify now out s') as Hc. unfold config in Hc.
      injection Hc as _ _ _ _ Es Ec. simpl. rewrite Es, Ec.
      apply (defaults_in_range s'), H.
  - intros now s' ty out st cf _ _ _ _ H.
    assert (Hl : ranges_ok (linked now s' ty out)).
    { apply (ranges_ok_config s'); [apply config_linked| |exact H].
      apply Forall_linked; [| |apply H|].
      + intros t a [Ht Ha]. split; assumption.
      + intros l a [Ht Ha]. split; assumption.
      + eapply init_atom_in_range; [reflexivity|reflexivity|].
        pose proof (config_verify now out s') as Hc. unfold config in Hc.
        injection Hc as _ _ _ _ Es Ec. simpl. rewrite Es, Ec.
        apply (defaults_in_range s'), H. }
    apply (ranges_ok_config (linked now s' ty out)); [| |exact Hl].
    + change (config (record_success ?x)) with (config x).
      apply config_set_truth_value.
    + change (atoms (record_success ?x)) with (atoms x).
      unfold opencog_set_truth_value.
      pose proof (Forall_get_atom atom_in_range
                    (fun t a H => H) now (linked now s' ty out) (next_atom_id s')
                    (proj1 Hl)) as Hg.
      destruct (opencog_get_atom now (linked now s' ty out) (next_atom_id s'))
        as [[j|] s'']; simpl in *; [|exact Hg].
      apply Forall_modify; [|exact Hg].
      intros a. apply writer_in_range. constructor.
  - apply from_cogfluence_unit_keeps;
      [apply ranges_ok_write|apply ranges_ok_node|].
    intros i u s' Hu H. apply (ranges_ok_config s'); [reflexivity| |exact H].
    apply Forall_modify; [|apply H]. intros a. apply import_in_range, Hu.
Qed.

Lemma ranges_ok_init : ranges_ok opencog_atomspace_init.
Proof. split; [constructor|]. split; reflexivity. Qed.

Lemma get_truth_value_cases now s id :
  fst (opencog_get_truth_value now s id) = mk_tv zero zero zero \/
  exists a, In a (atoms s) /\ fst (opencog_get_truth_value now s id) = truth_value a.
Proof.
  rewrite get_truth_value_fst. unfold truth_of, opencog_get_truth_value, atom_at.
  unfold opencog_get_atom. destruct (id =? 0); [left; reflexivity|].
  destruct (find_live (atoms s) id) as [i|] eqn:E; [|left; reflexivity].
  destruct (find_live_Some _ _ _ E) as (a & Ha & _).
  right. exists a. split.
  - apply list_elem_of_In. eapply list_elem_of_lookup_2; eauto.
  - simpl. rewrite list_lookup_alter_eq, Ha. reflexivity.
Qed.

Lemma get_attention_value_cases now s id :
  fst (opencog_get_attention_value now s id) = mk_av zero zero zero \/
  exists a, In a (atoms s) /\
    fst (opencog_get_attention_value now s id) = attention_value a.
Proof.
  unfold opencog_get_attention_value, atom_at, opencog_get_atom.
  destruct (id =? 0); [left; reflexivity|].
  destruct (find_live (atoms s) id) as [i|] eqn:E; [|left; reflexivity].
  destruct (find_live_Some _ _ _ E) as (a & Ha & _).
  right. exists a. split.
  - apply list_elem_of_In. eapply list_elem_of_lookup_2; eauto.
  - simpl. rewrite list_lookup_alter_eq, Ha. reflexivity.
Qed.

(** X1: on a table built from [opencog_atomspace_init] by any calls of
    the interface, [opencog_from_cogfluence_unit] included, every truth
    value read back has strength and confidence in [0, 1] and every
    attention value has sti in [-1, 1] and lti, vlti in [0, 1], provided
    the units handed to the bridge hold values in these ranges; the
    arguments of every other call are arbitrary (NaN of either kind and
    infinities included).  The bridge itself copies without a clamp: the
    condition on the units cannot be dropped. *)
Theorem reachable_values_in_range cs now id :
  Forall (imports unit_in_range) cs ->
  truth_in_range
    (fst (opencog_get_truth_value now (run cs opencog_atomspace_init) id)) = true /\
  attention_in_range
    (fst (opencog_get_attention_value now (run cs opencog_atomspace_init) id)) = true.
Proof.
  intros Hcs.
  pose proof (run_ranges_ok cs _ Hcs ranges_ok_init) as [Hall _].
  rewrite Forall_forall in Hall. split.
  - destruct (get_truth_value_cases now (run cs opencog_atomspace_init) id)
      as [-> | (a & Ha & ->)]; [reflexivity|].
    apply Hall, list_elem_of_In, Ha.
  - destruct (get_attention_value_cases now (run cs opencog_atomspace_init) id)
      as [-> | (a & Ha & ->)]; [reflexivity|].
    apply Hall, list_elem_of_In, Ha.
Qed.

Lemma reachable_values_in_range_witness :
  Forall (imports unit_in_range) run_imports /\
  fst (opencog_get_truth_value 9 (run run_imports opencog_atomspace_init) 1)
    = mk_tv c0_5 c0_9 one /\
  truth_in_range
    (fst (opencog_get_truth_value 9 (run run_imports opencog_atomspace_init) 2))
    = true /\
  attention_in_range
    (fst (opencog_get_attention_value 9 (run run_imports opencog_atomspace_init) 2))
    = true /\
  truth_in_range
    (fst (opencog_get_truth_value 9
            (run [Call_from_cogfluence_unit 5 (Some unit_wild)]
               opencog_atomspace_init) 1)) = false.
Proof.
  assert (H : Forall (imports unit_in_range) run_imports).
  { repeat constructor. }
  split; [exact H|]. split; [reflexivity|].
  split; [apply (reachable_values_in_range run_imports 9 2 H)|].
  split; [apply (reachable_values_in_range run_imports 9 2 H)|].
  reflexivity.
Defined.

(** ** The adjacency arrays fit their allocations *)

Lemma caps_ok_push l a : caps_ok a -> caps_ok (push_incoming l a).
Proof.
  intros [Hi Ho]. split; [|exact Ho].
  unfold push_incoming, incoming_count in *.
  destruct (incoming_capacity a <=? length (incoming a))%nat eqn:E.
  - apply Nat.leb_le in E.
    destruct (incoming_capacity a =? 0)%nat eqn:E0; simpl; rewrite length_app; simpl.
    + apply Nat.eqb_eq in E0. lia.
    + apply Nat.eqb_neq in E0. lia.
  - apply Nat.leb_gt in E. simpl. rewrite length_app. simpl. lia.
Qed.

Lemma caps_ok_writer f a : writer f -> caps_ok a -> caps_ok (f a).
Proof. intros Hf H. destruct Hf; exact H. Qed.

Lemma caps_ok_decay r t a : caps_ok a -> caps_ok (decay_atom r t a).
Proof.
  intros H. unfold decay_atom. destruct (is_deleted a); [exact H|].
  destruct (gtb _ _); exact H.
Qed.

Lemma run_caps_ok cs s : Forall caps_ok (atoms s) -> Forall caps_ok (atoms (run cs s)).
Proof.
  revert s. apply (run_keeps_all (fun s' => Forall caps_ok (atoms s'))).
  - intros i f s' Hf H. apply Forall_modify; [|exact H].
    intros a. apply caps_ok_writer, Hf.
  - intros s' H. unfold opencog_update_attention_values. simpl.
    apply Forall_fmap. eapply Forall_impl; [exact H|].
    intros a. apply caps_ok_decay.
  - intros s' H. exact H.
  - intros now s' ty n Hroom H. unfold opencog_add_node.
    apply Nat.leb_gt in Hroom. rewrite Hroom. simpl.
    apply Forall_app. split; [exact H|]. repeat constructor.
  - intros now s' ty out _ _ _ H. apply Forall_linked; auto.
    + intros l a. apply caps_ok_push.
    + unfold caps_ok, incoming_count, outgoing_count. simpl. split; [lia|reflexivity].
  - intros now s' ty out st cf _ _ _ _ H.
    change (atoms (record_success ?x)) with (atoms x).
    assert (Hl : Forall caps_ok (atoms (linked now s' ty out))).
    { apply Forall_linked; auto.
      - intros l a. apply caps_ok_push.
      - unfold caps_ok, incoming_count, outgoing_count. simpl.
        split; [lia|reflexivity]. }
    unfold opencog_set_truth_value.
    pose proof (Forall_get_atom caps_ok (fun t a H => H) now
                  (linked now s' ty out) (next_atom_id s') Hl) as Hg.
    destruct (opencog_get_atom now (linked now s' ty out) (next_atom_id s'))
      as [[j|] s'']; simpl in *; [|exact Hg].
    apply Forall_modify; [|exact Hg]. intros a Ha. exact Ha.
  - intros i u s' H. apply Forall_modify; [|exact H]. intros a Ha. exact Ha.
Qed.

(** X2: in every table built from [opencog_atomspace_init], each atom's
    incoming array holds no more entries than it has slots, so the write
    [incoming[incoming_count++]] of [opencog_add_link] never runs past
    the allocation; the outgoing array is exactly full. *)
Theorem reachable_arrays_fit cs :
  Forall (fun a => (incoming_count a <= incoming_capacity a)%nat /\
                   outgoing_capacity a = outgoing_count a)
    (atoms (run cs opencog_atomspace_init)).
Proof. apply run_caps_ok. constructor. Qed.

(** ** Referential integrity *)

Lemma graph_modify i f s :
  (forall a, skeleton (f a) = skeleton a) -> graph (modify_atom i f s) = graph s.
Proof.
  intros Hf. unfold graph. rewrite atoms_modify_atom.
  generalize (atoms s) i. clear i.
  induction l as [|x l IH]; intros [|i]; csimpl; auto.
  - rewrite Hf. reflexivity.
  - rewrite IH. reflexivity.
Qed.

Lemma skeleton_writer f a : writer f -> skeleton (f a) = skeleton a.
Proof. intros Hf. destruct Hf; reflexivity. Qed.

Lemma skeleton_decay r t a : skeleton (decay_atom r t a) = skeleton a.
Proof.
  unfold decay_atom. destruct (is_deleted a) eqn:E; [reflexivity|].
  destruct (gtb _ _); reflexivity.
Qed.

Lemma graph_get_atom now s id : graph (snd (opencog_get_atom now s id)) = graph s.
Proof.
  rewrite get_atom_snd. destruct (fst (opencog_get_atom now s id)); [|reflexivity].
  apply graph_modify. reflexivity.
Qed.

Lemma graph_verify now out :
  forall s, graph (snd (verify_outgoing now s out)) = graph s.
Proof.
  induction out as [|id out IH]; intros s; simpl; [reflexivity|].
  pose proof (graph_get_atom now s id) as Hg.
  destruct (opencog_get_atom now s id) as [[j|] s']; simpl in *; [|assumption].
  rewrite IH. exact Hg.
Qed.

Lemma graph_set_truth_value now s id st cf :
  graph (opencog_set_truth_value now s id st cf) = graph s.
Proof.
  unfold opencog_set_truth_value.
  pose proof (graph_get_atom now s id) as Hg.
  destruct (opencog_get_atom now s id) as [[j|] s']; simpl in *; [|assumption].
  rewrite graph_modify by reflexivity. exact Hg.
Qed.

(** Two tables with the same graph hold atoms with the same skeletons. *)
Lemma graph_In s s' a :
  graph s' = graph s -> In a (atoms s') ->
  exists a0, In a0 (atoms s) /\ skeleton a0 = skeleton a.
Proof.
  intros Hg Ha.
  assert (H : In (skeleton a) (graph s)).
  { rewrite <- Hg. unfold graph. apply list_elem_of_In, list_elem_of_fmap.
    exists a. split; [reflexivity|]. apply list_elem_of_In, Ha. }
  unfold graph in H. apply list_elem_of_In, list_elem_of_fmap in H as (a0 & E & H0).
  exists a0. split; [apply list_elem_of_In, H0|]. symmetry. exact E.
Qed.

Lemma consistent_graph s s' :
  graph s' = graph s -> wf s' -> consistent s -> consistent s'.
Proof.
  intros Hg Hwf [_ Hlive Hback Hin Hout]. split; [exact Hwf| | | |].
  - intros a Ha. destruct (graph_In s s' a Hg Ha) as (a0 & Ha0 & E).
    injection E as _ Ed _ _. rewrite <- Ed. auto.
  - intros a id Ha Hid. destruct (graph_In s s' a Hg Ha) as (a0 & Ha0 & E).
    injection E as Ei _ Eo _. rewrite <- Ei. apply Hback; [assumption|].
    rewrite Eo. exact Hid.
  - intros x l Hx Hl. destruct (graph_In s s' x Hg Hx) as (x0 & Hx0 & E).
    injection E as Ei _ _ Einc.
    destruct (Hin x0 l Hx0) as (y0 & Hy0 & Eid & Hy); [rewrite Einc; exact Hl|].
    destruct (graph_In s' s y0 (eq_sym Hg) Hy0) as (y & Hy' & E').
    injection E' as Ei' _ Eo' _.
    exists y. split; [assumption|]. split; [congruence|].
    rewrite Eo', <- Ei. exact Hy.
  - intros y id Hy Hid. destruct (graph_In s s' y Hg Hy) as (y0 & Hy0 & E).
    injection E as Ei _ Eo _.
    destruct (Hout y0 id Hy0) as (x0 & Hx0 & Eid & Hx); [rewrite Eo; exact Hid|].
    destruct (graph_In s' s x0 (eq_sym Hg) Hx0) as (x & Hx' & E').
    injection E' as Ei' _ _ Einc'.
    exists x. split; [assumption|]. split; [congruence|].
    rewrite Einc', <- Ei. exact Hx.
Qed.

(** What the registration loop of [opencog_add_link] does to a slot: only
    the incoming array changes, and only by entries for the new link in
    slots whose id is among the outgoing ids. *)
Lemma link_incoming_slot now link out :
  forall s j x',
    atoms (link_incoming now s link out) !! j = Some x' ->
    exists x, atoms s !! j = Some x /\
      atom_id x' = atom_id x /\ is_deleted x' = is_deleted x /\
      outgoing x' = outgoing x /\
      forall m, In m (incoming x') ->
        In m (incoming x) \/ (m = link /\ In (atom_id x) out).
Proof.
  induction out as [|id out IH]; intros s j x' H; simpl in H.
  - exists x'. repeat split; auto.
  - unfold opencog_get_atom in H.
    assert (Hskip : atoms (link_incoming now s link out) !! j = Some x' ->
                    exists x, atoms s !! j = Some x /\
                      atom_id x' = atom_id x /\ is_deleted x' = is_deleted x /\
                      outgoing x' = outgoing x /\
                      forall m, In m (incoming x') ->
                        In m (incoming x) \/ (m = link /\ In (atom_id x) (id :: out))).
    { intros H'. destruct (IH s j x' H') as (x & Hx & ? & ? & ? & Hm).
      exists x. repeat split; auto. intros m Hin.
      destruct (Hm m Hin) as [|[? ?]]; [auto|right; simpl; auto]. }
    destruct (id =? 0); [auto|].
    destruct (find_live (atoms s) id) as [k|] eqn:Hk; [|auto].
    destruct (find_live_Some _ _ _ Hk) as (b & Hb & Hidb & _).
    destruct (IH _ j x' H) as (x1 & Hx1 & Hi1 & Hd1 & Ho1 & Hm1).
    rewrite !atoms_modify_atom in Hx1.
    destruct (decide (k = j)) as [->|Hne].
    + rewrite !list_lookup_alter_eq, Hb in Hx1. simpl in Hx1. injection Hx1 as <-.
      exists b. split; [assumption|]. simpl in *. repeat split; auto.
      intros m Hin. destruct (Hm1 m Hin) as [Hold|[-> Hin']].
      * apply in_app_or in Hold as [|[<-|[]]]; [auto|].
        right. split; [reflexivity|]. left. symmetry. exact Hidb.
      * right. split; [reflexivity|]. right. exact Hin'.
    + rewrite !list_lookup_alter_ne in Hx1 by assumption.
      exists x1. repeat split; auto.
      intros m Hin. destruct (Hm1 m Hin) as [|[? ?]]; [auto|right; simpl; auto].
Qed.

Lemma In_lookup {A} (l : list A) x : In x l -> exists i, l !! i = Some x.
Proof. intros H. apply list_elem_of_In, list_elem_of_lookup_1 in H. exact H. Qed.

Lemma lookup_In {A} (l : list A) i x : l !! i = Some x -> In x l.
Proof. intros H. apply list_elem_of_In. eapply list_elem_of_lookup_2; eauto. Qed.

Lemma consistent_linked now s ty out :
  (atom_count s < atom_capacity s)%nat ->
  fst (verify_outgoing now s out) = true ->
  consistent s -> consistent (linked now s ty out).
Proof.
  intros Hroom Hv Hc. pose proof Hc as [Hwf Hlive Hback Hin Hout].
  destruct (linked_evolves now s ty out Hroom) as [Hgrow Hwf'].
  specialize (Hwf' Hwf).
  pose proof (verify_outgoing_inplace now out s) as Hv0.
  set (s0 := snd (verify_outgoing now s out)) in *.
  set (L := next_atom_id s0).
  assert (EL : L = next_atom_id s) by apply (inplace_next _ _ Hv0).
  set (s1 := snd (generate_atom_id s0)).
  set (s2 := link_incoming now s1 L out).
  set (new := init_link now s1 L ty out).
  assert (Eatoms : atoms (linked now s ty out) = atoms s2 ++ [new]) by reflexivity.
  assert (Hg0 : graph s0 = graph s) by apply graph_verify.
  (* an old slot of the new table, seen from the old table *)
  assert (Hold : forall a, In a (atoms s2) ->
            exists x0, In x0 (atoms s) /\ atom_id a = atom_id x0 /\
              is_deleted a = is_deleted x0 /\ outgoing a = outgoing x0 /\
              forall m, In m (incoming a) ->
                In m (incoming x0) \/ (m = L /\ In (atom_id x0) out)).
  { intros a Ha. destruct (In_lookup _ _ Ha) as [j Hj].
    destruct (link_incoming_slot now L out s1 j a Hj) as (x1 & Hx1 & Ei & Ed & Eo & Hm).
    assert (Hx1' : In x1 (atoms s0)) by (eapply lookup_In; exact Hx1).
    destruct (graph_In s s0 x1 Hg0 Hx1') as (x0 & Hx0 & E).
    injection E as Ei0 Ed0 Eo0 Einc0.
    exists x0. split; [assumption|]. repeat split; try congruence.
    intros m Hmin. rewrite Ei0, Einc0. apply Hm, Hmin. }
  (* an old atom, seen in the new table *)
  assert (Hnew : forall x0, In x0 (atoms s) ->
            exists a, In a (atoms (linked now s ty out)) /\ atom_frame x0 a).
  { intros x0 Hx0. destruct (In_lookup _ _ Hx0) as [i Hi].
    destruct (Hgrow i x0 Hi) as (a & Ha & Hf).
    exists a. split; [eapply lookup_In; exact Ha|exact Hf]. }
  (* the outgoing ids of the new link *)
  assert (Hids : forall id, In id out ->
            0 < id < L /\
            exists a, In a (atoms s2) /\ atom_id a = id /\ In L (incoming a)).
  { intros id Hid.
    destruct (verify_outgoing_true now out s Hv id Hid) as [Hne [j Hj]].
    destruct (find_live_Some _ _ _ Hj) as (b & Hb & Hidb & _).
    split.
    - rewrite EL, (wf_next _ Hwf), <- Hidb, (wf_ids _ Hwf j b Hb).
      apply lookup_lt_Some in Hb. unfold atom_count. lia.
    - assert (Hj1 : find_live (atoms s1) id = Some j).
      { subst s1 s0. simpl. rewrite verify_outgoing_find. exact Hj. }
      destruct (link_incoming_registers now L out s1 id j Hid Hne Hj1)
        as (a & Ha & HLa).
      destruct (link_incoming_slot now L out s1 j a Ha) as (x1 & Hx1 & Ei & _).
      destruct (find_live_Some _ _ _ Hj1) as (b1 & Hb1 & Hidb1 & _).
      exists a. split; [eapply lookup_In; exact Ha|].
      split; [congruence|exact HLa]. }
  split; [exact Hwf'| | | |]; rewrite Eatoms.
  - intros a Ha. apply in_app_or in Ha as [Ha|[<-|[]]]; [|reflexivity].
    destruct (Hold a Ha) as (x0 & Hx0 & _ & Ed & _). rewrite Ed. auto.
  - intros a id Ha Hid. apply in_app_or in Ha as [Ha|[<-|[]]].
    + destruct (Hold a Ha) as (x0 & Hx0 & Ei & _ & Eo & _).
      rewrite Ei. apply Hback; [assumption|]. rewrite <- Eo. exact Hid.
    + simpl in *. apply Hids, Hid.
  - intros x l Hx Hl. apply in_app_or in Hx as [Hx|[<-|[]]]; [|destruct Hl].
    destruct (Hold x Hx) as (x0 & Hx0 & Ei & _ & _ & Hm).
    destruct (Hm l Hl) as [Hl0|[-> Hl0]].
    + destruct (Hin x0 l Hx0 Hl0) as (y0 & Hy0 & Eid & Hy).
      destruct (Hnew y0 Hy0) as (y & Hy' & Fi & _ & Fo & _).
      exists y. rewrite <- Eatoms. split; [assumption|]. split; [congruence|].
      rewrite Fo, Ei. exact Hy.
    + exists new. split; [apply in_or_app; right; left; reflexivity|].
      split; [reflexivity|]. simpl. rewrite Ei. exact Hl0.
  - intros y id Hy Hid. apply in_app_or in Hy as [Hy|[<-|[]]].
    + destruct (Hold y Hy) as (y0 & Hy0 & Ei & _ & Eo & _).
      destruct (Hout y0 id Hy0) as (x0 & Hx0 & Eid & Hx); [rewrite <- Eo; exact Hid|].
      destruct (Hnew x0 Hx0) as (x & Hx' & Fi & _ & _ & _ & Finc).
      exists x. rewrite <- Eatoms. split; [assumption|]. split; [congruence|].
      rewrite Ei. apply Finc, Hx.
    + simpl in Hid. destruct (Hids id Hid) as [_ (a & Ha & Eid & HLa)].
      exists a. split; [apply in_or_app; left; exact Ha|]. split; assumption.
Qed.

Lemma writer_frame f a : writer f -> atom_frame a (f a).
Proof.
  intros Hf. destruct Hf;
    [apply atom_frame_last_access|apply atom_frame_truth
    |apply atom_frame_attention|apply atom_frame_add_sti].
Qed.

Lemma graph_tick s : graph (opencog_update_attention_values s) = graph s.
Proof.
  unfold graph, opencog_update_attention_values. simpl.
  rewrite <- list_fmap_compose. apply list_fmap_ext.
  intros i a _. apply skeleton_decay.
Qed.

Lemma consistent_add_node now s ty n :
  (atom_count s < atom_capacity s)%nat ->
  consistent s -> consistent (snd (opencog_add_node now s ty (Some n))).
Proof.
  intros Hroom [Hwf Hlive Hback Hin Hout].
  pose proof (add_node_evolves now s ty (Some n)) as [_ Hwf'].
  specialize (Hwf' Hwf). revert Hwf'.
  unfold opencog_add_node. pose proof Hroom as Hr. apply Nat.leb_gt in Hr.
  rewrite Hr. simpl. intros Hwf'.
  split; [exact Hwf'| | | |]; simpl.
  - intros a Ha. apply in_app_or in Ha as [Ha|[<-|[]]]; auto.
  - intros a id Ha Hid. apply in_app_or in Ha as [Ha|[<-|[]]]; [auto|destruct Hid].
  - intros x l Hx Hl. apply in_app_or in Hx as [Hx|[<-|[]]]; [|destruct Hl].
    destruct (Hin x l Hx Hl) as (y & Hy & ? & ?).
    exists y. split; [apply in_or_app; auto|auto].
  - intros y id Hy Hid. apply in_app_or in Hy as [Hy|[<-|[]]]; [|destruct Hid].
    destruct (Hout y id Hy Hid) as (x & Hx & ? & ?).
    exists x. split; [apply in_or_app; auto|auto].
Qed.

Lemma consistent_init : consistent opencog_atomspace_init.
Proof. split; [apply wf_init| | | |]; simpl; contradiction. Qed.

Lemma run_consistent cs s : consistent s -> consistent (run cs s).
Proof.
  revert s. apply run_keeps_all.
  - intros i f s' Hf H. apply (consistent_graph s'); [| |exact H].
    + apply graph_modify. intros a. apply skeleton_writer, Hf.
    + eapply inplace_wf; [apply H|]. apply inplace_modify.
      intros a. apply writer_frame, Hf.
  - intros s' H. apply (consistent_graph s'); [apply graph_tick| |exact H].
    eapply inplace_wf; [apply H|apply update_attention_values_inplace].
  - intros s' H. apply (consistent_graph s'); [reflexivity| |exact H].
    eapply inplace_wf; [apply H|apply record_failure_inplace].
  - intros now s' ty n. apply consistent_add_node.
  - intros now s' ty out _. apply consistent_linked.
  - intros now s' ty out st cf _ Hroom Hv _ H.
    pose proof (consistent_linked now s' ty out Hroom Hv H) as Hl.
    apply (consistent_graph (linked now s' ty out)); [| |exact Hl].
    + change (graph (record_success ?x)) with (graph x).
      apply graph_set_truth_value.
    + eapply inplace_wf; [apply Hl|].
      eapply inplace_trans; [apply set_truth_value_inplace|apply record_success_inplace].
  - intros i u s' H. apply (consistent_graph s'); [| |exact H].
    + apply graph_modify. reflexivity.
    + eapply inplace_wf; [apply H|]. apply inplace_modify.
      intros a. apply atom_frame_import.
Qed.

(** Distinct ids: an id names one atom. *)
Lemma consistent_same_atom s a b :
  wf s -> In a (atoms s) -> In b (atoms s) -> atom_id a = atom_id b -> a = b.
Proof.
  intros Hwf Ha Hb E.
  destruct (In_lookup _ _ Ha) as [i Hi]. destruct (In_lookup _ _ Hb) as [j Hj].
  assert (i = j) by (eapply (wf_ids_distinct s Hwf); eauto). subst j. congruence.
Qed.

(** X3: in every table built from [opencog_atomspace_init] no atom is
    deleted and every id stored in an outgoing array names a live atom of
    the table that was created before the link: references never dangle
    and never point forward. *)
Theorem reachable_outgoing_resolve cs :
  let s := run cs opencog_atomspace_init in
  Forall (fun a =>
            is_deleted a = false /\
            Forall (fun id => 0 < id < atom_id a /\ live_atom s id) (outgoing a))
    (atoms s).
Proof.
  intros s. pose proof (run_consistent cs _ consistent_init) as Hc. fold s in Hc.
  apply Forall_forall. intros a Ha. apply list_elem_of_In in Ha.
  split; [apply (c_live s Hc a Ha)|].
  apply Forall_forall. intros id Hid. apply list_elem_of_In in Hid.
  split; [apply (c_back s Hc a id Ha Hid)|].
  destruct (c_out s Hc a id Ha Hid) as (x & Hx & Eid & _).
  exists x. split; [assumption|]. split; [assumption|apply (c_live s Hc x Hx)].
Qed.

(** X4: in every table built from [opencog_atomspace_init] the incoming
    arrays are exactly the reverse of the outgoing arrays: link [y] is in
    the incoming array of [x] if and only if [x] is in the outgoing array
    of [y]. *)
Theorem reachable_duality cs :
  let s := run cs opencog_atomspace_init in
  Forall (fun x =>
            Forall (fun y => In (atom_id y) (incoming x) <-> In (atom_id x) (outgoing y))
              (atoms s))
    (atoms s).
Proof.
  intros s. pose proof (run_consistent cs _ consistent_init) as Hc. fold s in Hc.
  apply Forall_forall. intros x Hx. apply list_elem_of_In in Hx.
  apply Forall_forall. intros y Hy. apply list_elem_of_In in Hy.
  split; intros H.
  - destruct (c_in s Hc x _ Hx H) as (y' & Hy' & E & Hin).
    rewrite (consistent_same_atom s y y' (c_wf s Hc) Hy Hy' (eq_sym E)). exact Hin.
  - destruct (c_out s Hc y _ Hy H) as (x' & Hx' & E & Hin).
    rewrite (consistent_same_atom s x x' (c_wf s Hc) Hx Hx' (eq_sym E)). exact Hin.
Qed.

(** X5: in every table built from [opencog_atomspace_init] no atom is
    among its own outgoing or incoming ids, so the proviso under which
    [opencog_spread_attention] leaves its source alone always holds. *)
Theorem reachable_no_self_reference cs :
  Forall (fun a => ~ In (atom_id a) (outgoing a) /\ ~ In (atom_id a) (incoming a))
    (atoms (run cs opencog_atomspace_init)).
Proof.
  pose proof (run_consistent cs _ consistent_init) as Hc.
  set (s := run cs opencog_atomspace_init) in *.
  apply Forall_forall. intros a Ha. apply list_elem_of_In in Ha. split; intros H.
  - pose proof (c_back s Hc a _ Ha H). lia.
  - destruct (c_in s Hc a _ Ha H) as (y & Hy & E & Hin).
    rewrite (consistent_same_atom s y a (c_wf s Hc) Hy Ha E) in Hin.
    pose proof (c_back s Hc a _ Ha Hin). lia.
Qed.

(** ** The performance counters *)

Lemma counters_get_atom now s id : counters (snd (opencog_get_atom now s id)) = counters s.
Proof.
  rewrite get_atom_snd. destruct (fst (opencog_get_atom now s id)); reflexivity.
Qed.

Lemma counters_verify now out :
  forall s, counters (snd (verify_outgoing now s out)) = counters s.
Proof.
  induction out as [|id out IH]; intros s; simpl; [reflexivity|].
  pose proof (counters_get_atom now s id) as Hg.
  destruct (opencog_get_atom now s id) as [[j|] s']; simpl in *; [|assumption].
  rewrite IH. exact Hg.
Qed.

Lemma counters_link_incoming now link out :
  forall s, counters (link_incoming now s link out) = counters s.
Proof.
  induction out as [|id out IH]; intros s; simpl; [reflexivity|].
  pose proof (counters_get_atom now s id) as Hg.
  destruct (opencog_get_atom now s id) as [[j|] s']; simpl in *;
    rewrite IH; exact Hg.
Qed.

Lemma counters_linked now s ty out : counters (linked now s ty out) = counters s.
Proof.
  unfold linked.
  change (counters (set_atoms ?l ?x)) with (counters x).
  rewrite counters_link_incoming.
  change (counters (snd (generate_atom_id ?x))) with (counters x).
  apply counters_verify.
Qed.

Lemma counters_set_truth_value now s id st cf :
  counters (opencog_set_truth_value now s id st cf) = counters s.
Proof.
  unfold opencog_set_truth_value.
  pose proof (counters_get_atom now s id) as Hg.
  destruct (opencog_get_atom now s id) as [[j|] s']; simpl in *; assumption.
Qed.

Lemma successful_counters s s' :
  counters s' = counters s -> successful_inferences s' = successful_inferences s.
Proof. unfold counters. intros H. injection H. auto. Qed.

Lemma linked_count now s ty out : atom_count (linked now s ty out) = S (atom_count s).
Proof.
  unfold linked.
  set (s1 := snd (generate_atom_id (snd (verify_outgoing now s out)))).
  pose proof (inplace_count _ _
                (link_incoming_inplace now (next_atom_id (snd (verify_outgoing now s out)))
                   out s1)) as H1.
  pose proof (inplace_count _ _ (verify_outgoing_inplace now out s)) as H2.
  unfold atom_count in *. simpl. rewrite length_app, H1. simpl.
  subst s1. simpl. rewrite H2. lia.
Qed.

Lemma add_node_count now s ty n :
  (atom_count s < atom_capacity s)%nat ->
  atom_count (snd (opencog_add_node now s ty (Some n))) = S (atom_count s).
Proof.
  intros Hroom. unfold opencog_add_node. apply Nat.leb_gt in Hroom. rewrite Hroom.
  unfold atom_count. simpl. rewrite length_app. simpl. lia.
Qed.

Lemma run_success_bounded cs s : success_bounded s -> success_bounded (run cs s).
Proof.
  revert s. apply run_keeps_all.
  - intros i f s' Hf [Hwf H].
    assert (Hi : inplace s' (modify_atom i f s'))
      by (apply inplace_modify; intros a; apply writer_frame, Hf).
    split; [eapply inplace_wf; eauto|].
    rewrite (inplace_count _ _ Hi). exact H.
  - intros s' [Hwf H].
    pose proof (update_attention_values_inplace s') as Hi.
    split; [eapply inplace_wf; eauto|].
    rewrite (inplace_count _ _ Hi). exact H.
  - intros s' [Hwf H]. split; [|exact H].
    eapply inplace_wf; [exact Hwf|apply record_failure_inplace].
  - intros now s' ty n Hroom [Hwf H].
    split; [apply (add_node_evolves now s' ty (Some n)), Hwf|].
    rewrite add_node_count by assumption.
    replace (successful_inferences (snd (opencog_add_node now s' ty (Some n))))
      with (successful_inferences s'); [lia|].
    unfold opencog_add_node. apply Nat.leb_gt in Hroom. rewrite Hroom. reflexivity.
  - intros now s' ty out _ Hroom Hv [Hwf H].
    split; [apply (linked_evolves now s' ty out); assumption|].
    rewrite linked_count, (successful_counters _ _ (counters_linked now s' ty out)).
    lia.
  - intros now s' ty out st cf _ Hroom Hv _ [Hwf H].
    set (s1 := linked now s' ty out).
    set (s2 := opencog_set_truth_value now s1 (next_atom_id s') st cf).
    assert (Hi : inplace s1 (record_success s2)).
    { eapply inplace_trans; [apply set_truth_value_inplace|apply record_success_inplace]. }
    assert (Hwf1 : wf s1) by (apply (linked_evolves now s' ty out); assumption).
    split; [eapply inplace_wf; eauto|].
    rewrite (inplace_count _ _ Hi).
    replace (atom_count s1) with (S (atom_count s')) by (symmetry; apply linked_count).
    assert (E : successful_inferences s2 = successful_inferences s').
    { unfold s2. rewrite (successful_counters _ _ (counters_set_truth_value _ _ _ _ _)).
      apply successful_counters, counters_linked. }
    simpl. rewrite E.
    pose proof (wf_count _ Hwf) as Hc. pose proof (wf_capacity _ Hwf) as Hcap.
    unfold wrap64. rewrite Z.mod_small; lia.
  - intros i u s' [Hwf H].
    assert (Hi : inplace s' (modify_atom i (import_unit u) s'))
      by (apply inplace_modify; intros a; apply atom_frame_import).
    split; [eapply inplace_wf; eauto|].
    rewrite (inplace_count _ _ Hi). exact H.
Qed.

Lemma success_bounded_init : success_bounded opencog_atomspace_init.
Proof. split; [apply wf_init|]. simpl. lia. Qed.

(** X6: in every table built from [opencog_atomspace_init] the table
    holds at most [OPENCOG_MAX_ATOMS] atoms, ids are handed out densely
    (the next id is the count plus one), and each successful inference
    has left a link behind: the success counter never exceeds the atom
    count, so it never wraps. *)
Theorem reachable_counts_bounded cs :
  let s := run cs opencog_atomspace_init in
  (atom_count s <= OPENCOG_MAX_ATOMS)%nat /\
  next_atom_id s = Z.of_nat (atom_count s) + 1 /\
  0 <= successful_inferences s <= Z.of_nat (atom_count s).
Proof.
  intros s. destruct (run_success_bounded cs _ success_bounded_init) as [Hwf H].
  fold s in Hwf, H. split; [|split; [apply Hwf|exact H]].
  pose proof (wf_count _ Hwf) as Hc.
  pose proof (run_config cs opencog_atomspace_init) as Hcfg.
  fold s in Hcfg. unfold config in Hcfg. injection Hcfg as Ecap _ _ _ _ _.
  rewrite Ecap in Hc. exact Hc.
Qed.

(** ** Lookups *)

(** X8: in every table built from [opencog_atomspace_init] the lookup
    succeeds exactly on the ids 1 .. atom_count, and id [k] is found in
    slot [k - 1]: ids are never reused and nothing is ever deleted. *)
Theorem reachable_lookup cs now id :
  let s := run cs opencog_atomspace_init in
  fst (opencog_get_atom now s id) =
  if (1 <=? id) && (id <=? Z.of_nat (atom_count s))
  then Some (Z.to_nat (id - 1)) else None.
Proof.
  intros s. pose proof (run_consistent cs _ consistent_init) as Hc. fold s in Hc.
  pose proof (c_wf s Hc) as Hwf. rewrite get_atom_fst.
  destruct ((1 <=? id) && (id <=? Z.of_nat (atom_count s))) eqn:E.
  - apply andb_prop in E as [E1 E2]. apply Z.leb_le in E1. apply Z.leb_le in E2.
    replace (id =? 0) with false by (symmetry; apply Z.eqb_neq; lia).
    assert (Hlt : (Z.to_nat (id - 1) < length (atoms s))%nat)
      by (unfold atom_count in E2; lia).
    destruct (lookup_lt_is_Some_2 _ _ Hlt) as [a Ha].
    pose proof (wf_ids s Hwf _ _ Ha) as Hid.
    assert (Hlive : is_deleted a = false).
    { apply (c_live s Hc), list_elem_of_In. eapply list_elem_of_lookup_2; eauto. }
    pose proof (find_live_distinct _ _ _ (wf_ids_distinct s Hwf) Ha Hlive) as F.
    replace (atom_id a) with id in F by lia. exact F.
  - destruct (id =? 0); [reflexivity|].
    destruct (find_live (atoms s) id) as [i|] eqn:F; [|reflexivity].
    destruct (find_live_Some _ _ _ F) as (a & Ha & Hid & _).
    pose proof (wf_ids s Hwf _ _ Ha) as Hi.
    pose proof (lookup_lt_Some _ _ _ Ha) as Hlt.
    apply andb_false_iff in E as [E|E]; [apply Z.leb_gt in E|apply Z.leb_gt in E];
      unfold atom_count in *; lia.
Qed.

(** X9: a lookup, a read of a truth or attention value and a query of an
    adjacency array change nothing in the table but [last_access]
    stamps. *)
Theorem reads_only_touch_access now s id :
  forget_access (snd (opencog_get_atom now s id)) = forget_access s /\
  forget_access (snd (opencog_get_truth_value now s id)) = forget_access s /\
  forget_access (snd (opencog_get_attention_value now s id)) = forget_access s /\
  forget_access (snd (opencog_query_incoming now s id)) = forget_access s /\
  forget_access (snd (opencog_query_outgoing now s id)) = forget_access s.
Proof.
  rewrite get_truth_value_snd, get_attention_value_snd, query_incoming_snd,
    query_outgoing_snd.
  repeat split; apply get_atom_forget.
Qed.

Lemma get_atom_unknown now s id :
  ~ live_atom s id -> opencog_get_atom now s id = (None, s).
Proof.
  intros H. unfold opencog_get_atom. rewrite (find_live_not_live s id H).
  destruct (id =? 0); reflexivity.
Qed.

(** X10: on an id that names no live atom (0 included) the setters and
    the spreading leave the table as it is, stamps included, the getters
    return all-zero values and the adjacency queries return nothing. *)
Theorem unknown_id_is_ignored now s id st cf lt vl amount :
  ~ live_atom s id ->
  opencog_set_truth_value now s id st cf = s /\
  opencog_set_attention_value now s id st lt vl = s /\
  opencog_spread_attention now s id amount = s /\
  opencog_get_truth_value now s id = (mk_tv zero zero zero, s) /\
  opencog_get_attention_value now s id = (mk_av zero zero zero, s) /\
  opencog_query_incoming now s id = ([], s) /\
  opencog_query_outgoing now s id = ([], s).
Proof.
  intros H. pose proof (get_atom_unknown now s id H) as E.
  unfold opencog_set_truth_value, opencog_set_attention_value,
    opencog_spread_attention, opencog_get_truth_value, opencog_get_attention_value,
    opencog_query_incoming, opencog_query_outgoing.
  rewrite E. repeat split.
Qed.

Lemma not_live_beyond s id : wf s -> Z.of_nat (atom_count s) < id -> ~ live_atom s id.
Proof.
  intros Hwf Hid (a & Ha & E & _).
  destruct (In_lookup _ _ Ha) as [i Hi].
  pose proof (wf_ids s Hwf _ _ Hi). pose proof (lookup_lt_Some _ _ _ Hi).
  unfold atom_count in *. lia.
Qed.

Lemma unknown_id_is_ignored_witness :
  opencog_set_truth_value 20 table_a 5 c0_5 c0_5 = table_a /\
  opencog_set_attention_value 20 table_a 5 c0_5 c0_5 c0_5 = table_a /\
  opencog_spread_attention 20 table_a 5 c0_5 = table_a /\
  opencog_get_truth_value 20 table_a 5 = (mk_tv zero zero zero, table_a) /\
  opencog_get_attention_value 20 table_a 5 = (mk_av zero zero zero, table_a) /\
  opencog_query_incoming 20 table_a 5 = ([], table_a) /\
  opencog_query_outgoing 20 table_a 5 = ([], table_a).
Proof.
  apply unknown_id_is_ignored.
  apply not_live_beyond; [apply (wf_reachable a_calls)|vm_compute; reflexivity].
Defined.

(** ** Allocation seen through the interface *)

Lemma lookup_In_atoms s i a : atoms s !! i = Some a -> In a (atoms s).
Proof. intros H. apply list_elem_of_In. eapply list_elem_of_lookup_2; eauto. Qed.

Lemma attention_slot now s n x :
  wf s -> atoms s !! n = Some x -> is_deleted x = false ->
  fst (opencog_get_attention_value now s (atom_id x)) = attention_value x.
Proof.
  intros Hwf Hn Hlive.
  assert (Hnz : atom_id x <> 0) by (rewrite (wf_ids s Hwf _ _ Hn); lia).
  pose proof (find_live_distinct _ _ _ (wf_ids_distinct s Hwf) Hn Hlive) as Hf.
  unfold opencog_get_attention_value.
  rewrite (get_atom_resolved now s _ _ Hnz Hf). unfold atom_at. simpl.
  rewrite list_lookup_alter_eq, Hn. reflexivity.
Qed.

Lemma eqb_type_refl ty : atom_type_eqb ty ty = true.
Proof. destruct ty; reflexivity. Qed.

Lemma eqb_type_eq x y : atom_type_eqb x y = true -> x = y.
Proof. destruct x, y; simpl; intros H; try reflexivity; discriminate. Qed.

Lemma In_query_by_type s ty id :
  In id (opencog_query_by_type s ty) <->
  exists a, In a (atoms s) /\ atom_id a = id /\ is_deleted a = false /\ type a = ty.
Proof.
  unfold opencog_query_by_type. rewrite <- list_elem_of_In, list_elem_of_fmap.
  split.
  - intros (a & -> & Ha). apply list_elem_of_filter in Ha as [Hp Ha].
    apply Is_true_true, andb_prop in Hp as [Hd Ht].
    exists a. split; [apply list_elem_of_In, Ha|]. split; [reflexivity|].
    split; [destruct (is_deleted a); [discriminate|reflexivity]|].
    apply eqb_type_eq, Ht.
  - intros (a & Ha & <- & Hd & <-). exists a. split; [reflexivity|].
    apply list_elem_of_filter. split; [|apply list_elem_of_In, Ha].
    rewrite Hd, eqb_type_refl. exact I.
Qed.

Lemma In_query_by_name s nm id :
  In id (opencog_query_by_name s nm) <->
  exists a, In a (atoms s) /\ atom_id a = id /\ is_deleted a = false /\ name a = nm.
Proof.
  unfold opencog_query_by_name. rewrite <- list_elem_of_In, list_elem_of_fmap.
  split.
  - intros (a & -> & Ha). apply list_elem_of_filter in Ha as [Hp Ha].
    apply Is_true_true, andb_prop in Hp as [Hd Ht].
    exists a. split; [apply list_elem_of_In, Ha|]. split; [reflexivity|].
    split; [destruct (is_deleted a); [discriminate|reflexivity]|].
    apply String.eqb_eq, Ht.
  - intros (a & Ha & <- & Hd & <-). exists a. split; [reflexivity|].
    apply list_elem_of_filter. split; [|apply list_elem_of_In, Ha].
    rewrite Hd, String.eqb_refl. exact I.
Qed.

(** X11: a node that was just added reads back through every accessor:
    its id is the old count plus one, its truth value is the table's
    default with count 1, its attention is zero, both adjacency arrays
    are empty, and the queries by (truncated) name and by type return
    it. *)
Theorem add_node_reads_back now t s ty n :
  wf s -> (atom_count s < atom_capacity s)%nat ->
  let id := fst (opencog_add_node now s ty (Some n)) in
  let s' := snd (opencog_add_node now s ty (Some n)) in
  id = Z.of_nat (atom_count s) + 1 /\
  fst (opencog_get_truth_value t s' id)
  = mk_tv (default_strength s) (default_confidence s) one /\
  fst (opencog_get_attention_value t s' id) = mk_av zero zero zero /\
  fst (opencog_query_outgoing t s' id) = [] /\
  fst (opencog_query_incoming t s' id) = [] /\
  In id (opencog_query_by_name s' (copy_name n)) /\
  In id (opencog_query_by_type s' ty).
Proof.
  intros Hwf Hroom id s'.
  assert (Hwf' : wf s') by (apply (add_node_evolves now s ty (Some n)), Hwf).
  set (x := init_node now s (next_atom_id s) ty n).
  assert (Hid : id = next_atom_id s /\ atoms s' = atoms s ++ [x]).
  { subst id s' x. unfold opencog_add_node. pose proof Hroom as Hr.
    apply Nat.leb_gt in Hr. rewrite Hr. split; reflexivity. }
  destruct Hid as [Hid Hat].
  assert (Hx : atoms s' !! atom_count s = Some x).
  { rewrite Hat. unfold atom_count. apply list_lookup_middle. reflexivity. }
  assert (Eid : id = atom_id x) by (rewrite Hid; reflexivity).
  split; [rewrite Hid; apply (wf_next s Hwf)|].
  rewrite Eid.
  split; [rewrite get_truth_value_fst; apply (truth_of_slot s' _ x Hwf' Hx eq_refl)|].
  split; [apply (attention_slot t s' _ x Hwf' Hx eq_refl)|].
  destruct (query_slot t s' _ x Hwf' Hx eq_refl) as [Ho Hi].
  split; [exact Ho|]. split; [exact Hi|].
  split.
  - apply In_query_by_name. exists x.
    split; [apply (lookup_In_atoms _ _ _ Hx)|]. repeat split.
  - apply In_query_by_type. exists x.
    split; [apply (lookup_In_atoms _ _ _ Hx)|]. repeat split.
Qed.

Lemma add_node_reads_back_witness :
  let id := fst (opencog_add_node 11 table_a OPENCOG_PREDICATE_NODE (Some "B"%string)) in
  let s' := snd (opencog_add_node 11 table_a OPENCOG_PREDICATE_NODE (Some "B"%string)) in
  id = Z.of_nat (atom_count table_a) + 1 /\
  fst (opencog_get_truth_value 12 s' id)
  = mk_tv (default_strength table_a) (default_confidence table_a) one /\
  fst (opencog_get_attention_value 12 s' id) = mk_av zero zero zero /\
  fst (opencog_query_outgoing 12 s' id) = [] /\
  fst (opencog_query_incoming 12 s' id) = [] /\
  In id (opencog_query_by_name s' (copy_name "B"%string)) /\
  In id (opencog_query_by_type s' OPENCOG_PREDICATE_NODE).
Proof.
  apply add_node_reads_back; [apply (wf_reachable a_calls)|vm_compute; lia].
Defined.

Lemma find_live_live s id j : find_live (atoms s) id = Some j -> live_atom s id.
Proof.
  intros H. destruct (find_live_Some _ _ _ H) as (a & Ha & Hid & Hdel).
  exists a. split; [apply (lookup_In_atoms _ _ _ Ha)|auto].
Qed.

Lemma verify_outgoing_all_live now s out :
  wf s -> (forall id, In id out -> live_atom s id) ->
  fst (verify_outgoing now s out) = true.
Proof.
  intros Hwf Hall. apply verify_outgoing_live. intros id Hin.
  pose proof (Hall id Hin) as Hl.
  pose proof (live_atom_nonzero s id Hwf Hl) as Hnz.
  destruct (live_atom_resolves now s id Hl Hnz) as (j & a & _ & _ & _ & Hf & _).
  split; [exact Hnz|exists j; exact Hf].
Qed.

Lemma live_atom_grows s s' id : grows s s' -> live_atom s id -> live_atom s' id.
Proof.
  intros Hg (a & Ha & Hid & Hdel).
  destruct (In_lookup _ _ Ha) as [i Hi].
  destruct (Hg i a Hi) as (a' & Ha' & E1 & E2 & _).
  exists a'. split; [apply (lookup_In_atoms _ _ _ Ha')|]. split; congruence.
Qed.

(** X12: [opencog_add_link] returns a non-zero id exactly when the
    outgoing array is not empty, the table has a free slot and every
    outgoing id names a live atom; the id is then the old count plus one
    and the table has one atom more. *)
Theorem add_link_succeeds_iff now s ty out :
  wf s ->
  (fst (opencog_add_link now s ty out) <> 0 <->
   out <> [] /\ (atom_count s < atom_capacity s)%nat /\
   forall id, In id out -> live_atom s id) /\
  (fst (opencog_add_link now s ty out) <> 0 ->
   fst (opencog_add_link now s ty out) = Z.of_nat (atom_count s) + 1 /\
   atom_count (snd (opencog_add_link now s ty out)) = S (atom_count s)) /\
  (fst (opencog_add_link now s ty out) = 0 ->
   atom_count (snd (opencog_add_link now s ty out)) = atom_count s).
Proof.
  intros Hwf. pose proof (wf_next s Hwf) as Hnext.
  destruct (add_link_result now s ty out) as [E|[[Hv E]|(Hout & Hroom & Hv & E)]].
  - rewrite E. simpl. split; [|split; [intros []; reflexivity|reflexivity]].
    split; [intros []; reflexivity|].
    intros (Hout & Hroom & Hall). exfalso.
    pose proof (add_link_success now s ty out Hout Hroom
                  (verify_outgoing_all_live now s out Hwf Hall)) as E'.
    rewrite E in E'. injection E' as E' _. lia.
  - rewrite E. simpl.
    split; [|split; [intros []; reflexivity|
                     intros _; apply (inplace_count _ _ (verify_outgoing_inplace now out s))]].
    split; [intros []; reflexivity|].
    intros (_ & _ & Hall). rewrite (verify_outgoing_all_live now s out Hwf Hall) in Hv.
    discriminate.
  - rewrite E. simpl. split; [|split].
    + split; [|intros _; lia]. intros _. split; [exact Hout|]. split; [exact Hroom|].
      intros id Hin.
      destruct (verify_outgoing_true now out s Hv id Hin) as [_ [j Hj]].
      apply (find_live_live s id j Hj).
    + intros _. split; [exact Hnext|apply linked_count].
    + intros H0. lia.
Qed.

Lemma add_link_succeeds_iff_witness :
  (fst (opencog_add_link 13 table_abc OPENCOG_INHERITANCE_LINK [1; 2]) <> 0 <->
   [1; 2] <> [] /\ (atom_count table_abc < atom_capacity table_abc)%nat /\
   forall id, In id [1; 2] -> live_atom table_abc id) /\
  (fst (opencog_add_link 13 table_abc OPENCOG_INHERITANCE_LINK [1; 2]) <> 0 ->
   fst (opencog_add_link 13 table_abc OPENCOG_INHERITANCE_LINK [1; 2])
   = Z.of_nat (atom_count table_abc) + 1 /\
   atom_count (snd (opencog_add_link 13 table_abc OPENCOG_INHERITANCE_LINK [1; 2]))
   = S (atom_count table_abc)) /\
  (fst (opencog_add_link 13 table_abc OPENCOG_INHERITANCE_LINK [1; 2]) = 0 ->
   atom_count (snd (opencog_add_link 13 table_abc OPENCOG_INHERITANCE_LINK [1; 2]))
   = atom_count table_abc).
Proof. apply add_link_succeeds_iff, (wf_reachable abc_calls). Defined.

(** X13: links are not deduplicated.  Adding the same link twice creates
    two atoms with consecutive ids and the same outgoing array, and each
    target lists both in its incoming array. *)
Theorem add_link_twice now1 now2 t s ty out :
  wf s -> out <> [] -> (S (atom_count s) < atom_capacity s)%nat ->
  (forall id, In id out -> live_atom s id) ->
  let r1 := opencog_add_link now1 s ty out in
  let r2 := opencog_add_link now2 (snd r1) ty out in
  fst r1 = next_atom_id s /\ fst r2 = next_atom_id s + 1 /\
  fst (opencog_query_outgoing t (snd r2) (fst r1)) = out /\
  fst (opencog_query_outgoing t (snd r2) (fst r2)) = out /\
  forall id, In id out ->
    In (fst r1) (fst (opencog_query_incoming t (snd r2) id)) /\
    In (fst r2) (fst (opencog_query_incoming t (snd r2) id)).
Proof.
  intros Hwf Hout Hroom Hall r1 r2.
  assert (E1 : r1 = (next_atom_id s, linked now1 s ty out)).
  { apply add_link_success; [assumption|lia|].
    apply verify_outgoing_all_live; assumption. }
  assert (Hv1 : fst (verify_outgoing now1 s out) = true)
    by (apply verify_outgoing_all_live; assumption).
  assert (Hroom1 : (atom_count s < atom_capacity s)%nat) by lia.
  destruct (linked_evolves now1 s ty out Hroom1) as [Hg1 Hwf1].
  specialize (Hwf1 Hwf).
  set (s1 := linked now1 s ty out) in *.
  assert (Hc1 : atom_count s1 = S (atom_count s)) by apply linked_count.
  assert (Hcap1 : atom_capacity s1 = atom_capacity s).
  { pose proof (config_linked now1 s ty out) as Hc. unfold config in Hc.
    injection Hc as Hc _ _ _ _ _. exact Hc. }
  assert (Hall1 : forall id, In id out -> live_atom s1 id)
    by (intros id Hin; apply (live_atom_grows s s1 id Hg1), Hall, Hin).
  assert (Hn1 : next_atom_id s1 = next_atom_id s + 1).
  { rewrite (wf_next s1 Hwf1), (wf_next s Hwf), Hc1. lia. }
  assert (E2 : r2 = (next_atom_id s + 1, linked now2 s1 ty out)).
  { subst r2. rewrite E1. simpl. rewrite <- Hn1.
    apply add_link_success; [assumption|rewrite Hc1, Hcap1; lia|].
    apply verify_outgoing_all_live; assumption. }
  assert (Hnz : next_atom_id s <> 0) by (rewrite (wf_next s Hwf); lia).
  assert (Hnz' : next_atom_id s + 1 <> 0) by (rewrite (wf_next s Hwf); lia).
  pose proof (add_link_duality_general now1 s ty out _ _
                [Call_add_link now2 ty out] Hwf E1 Hnz) as [Ho1 Hi1].
  assert (E2' : opencog_add_link now2 s1 ty out
                = (next_atom_id s + 1, linked now2 s1 ty out)).
  { subst r2. rewrite E1 in E2. exact E2. }
  pose proof (add_link_duality_general now2 s1 ty out _ _ [] Hwf1 E2' Hnz')
    as [Ho2 Hi2].
  simpl in Ho1, Hi1, Ho2, Hi2. rewrite E2' in Ho1, Hi1. simpl in Ho1, Hi1.
  rewrite E2, E1. simpl.
  split; [reflexivity|]. split; [reflexivity|].
  split; [apply Ho1|]. split; [apply Ho2|].
  intros id Hin. split; [apply Hi1, Hin|apply Hi2, Hin].
Qed.

Lemma add_link_twice_witness :
  let r1 := opencog_add_link 13 table_abc OPENCOG_INHERITANCE_LINK [1; 2] in
  let r2 := opencog_add_link 14 (snd r1) OPENCOG_INHERITANCE_LINK [1; 2] in
  fst r1 = next_atom_id table_abc /\ fst r2 = next_atom_id table_abc + 1 /\
  fst (opencog_query_outgoing 15 (snd r2) (fst r1)) = [1; 2] /\
  fst (opencog_query_outgoing 15 (snd r2) (fst r2)) = [1; 2] /\
  forall id, In id [1; 2] ->
    In (fst r1) (fst (opencog_query_incoming 15 (snd r2) id)) /\
    In (fst r2) (fst (opencog_query_incoming 15 (snd r2) id)).
Proof.
  apply add_link_twice;
    [apply (wf_reachable abc_calls)|discriminate|vm_compute; lia|].
  intros id [<-|[<-|[]]].
  - apply (find_live_live table_abc 1 0). vm_compute. reflexivity.
  - apply (find_live_live table_abc 2 1). vm_compute. reflexivity.
Defined.

(** ** The queries by type and by name *)

Lemma ids_NoDup s : wf s -> NoDup (atom_id <$> atoms s).
Proof.
  intros Hwf. apply NoDup_alt. intros i j x Hi Hj.
  rewrite list_lookup_fmap in Hi, Hj.
  destruct (atoms s !! i) as [a|] eqn:Ea; [|discriminate].
  destruct (atoms s !! j) as [b|] eqn:Eb; [|discriminate].
  simpl in Hi, Hj. eapply (wf_ids_distinct s Hwf); eauto. congruence.
Qed.

Lemma query_NoDup s (P : opencog_atom_t -> Prop) `{!forall a, Decision (P a)} :
  wf s -> NoDup (atom_id <$> filter P (atoms s)).
Proof.
  intros Hwf. apply (sublist_NoDup _ (atom_id <$> atoms s)); [apply ids_NoDup, Hwf|].
  apply fmap_sublist, sublist_filter.
Qed.

Lemma resolves_iff now s id (p : opencog_atom_t -> Prop) :
  consistent s ->
  (exists a, In a (atoms s) /\ atom_id a = id /\ is_deleted a = false /\ p a) <->
  (exists i a, fst (opencog_get_atom now s id) = Some i /\
               atoms s !! i = Some a /\ p a).
Proof.
  intros Hc. pose proof (c_wf s Hc) as Hwf. split.
  - intros (a & Ha & Hid & Hdel & Hp).
    destruct (In_lookup _ _ Ha) as [i Hi]. exists i, a.
    split; [|auto]. rewrite get_atom_fst.
    replace (id =? 0) with false
      by (symmetry; apply Z.eqb_neq; rewrite <- Hid, (wf_ids s Hwf _ _ Hi); lia).
    rewrite <- Hid. apply find_live_distinct; auto using wf_ids_distinct.
  - intros (i & a & Hg & Hi & Hp). rewrite get_atom_fst in Hg.
    destruct (id =? 0); [discriminate|].
    destruct (find_live_Some _ _ _ Hg) as (a' & Ha' & Hid & Hdel).
    assert (a' = a) by congruence. subst a'.
    exists a. split; [apply (lookup_In_atoms _ _ _ Hi)|auto].
Qed.

(** X14: in every table built from [opencog_atomspace_init] a query by
    type or by name returns each id at most once, and returns exactly
    the ids that [opencog_get_atom] resolves to an atom of that type,
    respectively of that name. *)
Theorem reachable_queries_exact cs now ty nm :
  let s := run cs opencog_atomspace_init in
  NoDup (opencog_query_by_type s ty) /\
  NoDup (opencog_query_by_name s nm) /\
  (forall id, In id (opencog_query_by_type s ty) <->
     exists i a, fst (opencog_get_atom now s id) = Some i /\
                 atoms s !! i = Some a /\ type a = ty) /\
  (forall id, In id (opencog_query_by_name s nm) <->
     exists i a, fst (opencog_get_atom now s id) = Some i /\
                 atoms s !! i = Some a /\ name a = nm).
Proof.
  intros s. pose proof (run_consistent cs _ consistent_init) as Hc. fold s in Hc.
  pose proof (c_wf s Hc) as Hwf.
  split; [apply query_NoDup, Hwf|]. split; [apply query_NoDup, Hwf|].
  split; intros id.
  - rewrite In_query_by_type. apply (resolves_iff now s id (fun a => type a = ty) Hc).
  - rewrite In_query_by_name. apply (resolves_iff now s id (fun a => name a = nm) Hc).
Qed.

(** ** Names *)

Lemma length_substring_0 m (n : string) :
  String.length (substring 0 m n) = Nat.min m (String.length n).
Proof.
  revert n. induction m as [|m IH]; intros [|c n]; simpl; auto.
Qed.

Lemma substring_0_short m (n : string) :
  (String.length n <= m)%nat -> substring 0 m n = n.
Proof.
  revert n. induction m as [|m IH]; intros [|c n] H; simpl in *; auto; try lia.
  rewrite IH by lia. reflexivity.
Qed.

Lemma substring_0_prefix m (n : string) : String.prefix (substring 0 m n) n = true.
Proof.
  revert n. induction m as [|m IH]; intros [|c n]; simpl; auto.
  destruct (ascii_dec c c); [apply IH|congruence].
Qed.

(** X15: a node's name is stored truncated to 255 characters.  A name of
    at most 255 characters is stored as given; of a longer one the first
    255 characters are kept, and the node is then found by a query for
    the truncated name but not by a query for the name it was added
    under. *)
Theorem add_node_truncates_name now s ty n :
  wf s -> (atom_count s < atom_capacity s)%nat ->
  let id := fst (opencog_add_node now s ty (Some n)) in
  let s' := snd (opencog_add_node now s ty (Some n)) in
  String.length (copy_name n) = Nat.min 255 (String.length n) /\
  String.prefix (copy_name n) n = true /\
  In id (opencog_query_by_name s' (copy_name n)) /\
  ((String.length n <= 255)%nat -> copy_name n = n) /\
  ((255 < String.length n)%nat -> ~ In id (opencog_query_by_name s' n)).
Proof.
  intros Hwf Hroom id s'.
  assert (Hwf' : wf s') by (apply (add_node_evolves now s ty (Some n)), Hwf).
  set (x := init_node now s (next_atom_id s) ty n).
  assert (Hid : id = atom_id x /\ atoms s' = atoms s ++ [x]).
  { subst id s' x. unfold opencog_add_node. pose proof Hroom as Hr.
    apply Nat.leb_gt in Hr. rewrite Hr. split; reflexivity. }
  destruct Hid as [Hid Hat].
  assert (Hx : atoms s' !! atom_count s = Some x).
  { rewrite Hat. unfold atom_count. apply list_lookup_middle. reflexivity. }
  split; [apply length_substring_0|]. split; [apply substring_0_prefix|].
  split; [|split].
  - apply In_query_by_name. exists x.
    split; [apply (lookup_In_atoms _ _ _ Hx)|]. rewrite Hid. repeat split.
  - apply substring_0_short.
  - intros Hlong Hin. apply In_query_by_name in Hin as (a & Ha & Ea & _ & En).
    assert (a = x).
    { apply (consistent_same_atom s' a x Hwf' Ha (lookup_In_atoms _ _ _ Hx)).
      congruence. }
    subst a. simpl in En.
    pose proof (length_substring_0 255 n) as Hl. unfold copy_name in En.
    simpl in En. rewrite En in Hl. lia.
Qed.

Lemma add_node_truncates_name_witness :
  let n := string_of_list_ascii (repeat "x"%char 300) in
  let id := fst (opencog_add_node 11 table_a OPENCOG_CONCEPT_NODE (Some n)) in
  let s' := snd (opencog_add_node 11 table_a OPENCOG_CONCEPT_NODE (Some n)) in
  String.length (copy_name n) = Nat.min 255 (String.length n) /\
  String.prefix (copy_name n) n = true /\
  In id (opencog_query_by_name s' (copy_name n)) /\
  ((String.length n <= 255)%nat -> copy_name n = n) /\
  ((255 < String.length n)%nat -> ~ In id (opencog_query_by_name s' n)).
Proof.
  apply add_node_truncates_name; [apply (wf_reachable a_calls)|vm_compute; lia].
Defined.

(** ** Inference: counters and allocation *)

Lemma conclude_accounted now s0 s ty out st cf :
  wf s -> counters s = counters s0 -> atom_count s = atom_count s0 ->
  accounted s0
    (let '(l, s1) := opencog_add_link now s ty out in
     if 0 <? l
     then (true, record_success (opencog_set_truth_value now s1 l st cf))
     else (false, record_failure s1)).
Proof.
  intros Hwf Hc Hn. unfold counters in Hc. injection Hc as Et Es Ea.
  destruct (add_link_result now s ty out) as [E|[[_ E]|(Ho & Hr & Hv & E)]];
    rewrite E; simpl.
  - split; simpl; [rewrite Et; reflexivity|auto].
  - pose proof (counters_verify now out s) as Hcv. unfold counters in Hcv.
    injection Hcv as Et' Es' Ea'.
    pose proof (inplace_count _ _ (verify_outgoing_inplace now out s)) as Hn'.
    split; simpl; [rewrite Et', Et; reflexivity|].
    change (atom_count (record_failure ?x)) with (atom_count x).
    split; [congruence|]. split; congruence.
  - replace (0 <? next_atom_id s) with true
      by (symmetry; apply Z.ltb_lt; rewrite (wf_next s Hwf); lia).
    set (s1 := linked now s ty out).
    set (s2 := opencog_set_truth_value now s1 (next_atom_id s) st cf).
    assert (Hc2 : counters s2 = counters s).
    { unfold s2, s1. rewrite counters_set_truth_value. apply counters_linked. }
    unfold counters in Hc2. injection Hc2 as Et2 Es2 Ea2.
    assert (Hn2 : atom_count s2 = S (atom_count s)).
    { unfold s2. rewrite (inplace_count _ _ (set_truth_value_inplace _ _ _ _ _)).
      apply linked_count. }
    split; simpl; [rewrite Et2, Et; reflexivity|].
    split; [change (atom_count (record_success s2)) with (atom_count s2); lia|].
    split; [rewrite Es2, Es; reflexivity|reflexivity].
Qed.

(** X16: what [opencog_infer_inheritance] does to the counters.  When a
    premise is missing it returns false and leaves the table as it is:
    the attempt is not even counted.  Otherwise the attempt is counted,
    and one atom is added and the success counted exactly when the
    result is true; on failure the accuracy keeps its old value. *)
Theorem infer_inheritance_accounting now s a b c :
  wf s ->
  let r := opencog_infer_inheritance now s a b c in
  (fst (scan_premises (atoms s) a b c) = 0 \/
   snd (scan_premises (atoms s) a b c) = 0 -> r = (false, s)) /\
  (fst (scan_premises (atoms s) a b c) <> 0 ->
   snd (scan_premises (atoms s) a b c) <> 0 -> accounted s r).
Proof.
  intros Hwf r. split; [apply infer_inheritance_missing_premise|].
  intros Hab Hbc. subst r. unfold opencog_infer_inheritance.
  destruct (scan_premises (atoms s) a b c) as [ab bc]. simpl in Hab, Hbc.
  replace ((ab =? 0) || (bc =? 0)) with false
    by (symmetry; apply orb_false_iff; split; apply Z.eqb_neq; assumption).
  pose proof (get_atom_inplace now s ab) as H1.
  pose proof (counters_get_atom now s ab) as C1.
  rewrite <- get_truth_value_snd in H1, C1.
  destruct (opencog_get_truth_value now s ab) as [tv_ab s1]; simpl in H1, C1.
  pose proof (get_atom_inplace now s1 bc) as H2.
  pose proof (counters_get_atom now s1 bc) as C2.
  rewrite <- get_truth_value_snd in H2, C2.
  destruct (opencog_get_truth_value now s1 bc) as [tv_bc s2]; simpl in H2, C2.
  apply conclude_accounted.
  - eapply inplace_wf; [|exact H2]. eapply inplace_wf; eauto.
  - congruence.
  - rewrite (inplace_count _ _ H2). apply (inplace_count _ _ H1).
Qed.

Lemma infer_inheritance_accounting_witness :
  let r := opencog_infer_inheritance 20 table_premises 1 2 3 in
  (fst (scan_premises (atoms table_premises) 1 2 3) = 0 \/
   snd (scan_premises (atoms table_premises) 1 2 3) = 0 -> r = (false, table_premises)) /\
  (fst (scan_premises (atoms table_premises) 1 2 3) <> 0 ->
   snd (scan_premises (atoms table_premises) 1 2 3) <> 0 -> accounted table_premises r).
Proof. apply infer_inheritance_accounting, (wf_reachable premise_calls). Defined.

(** X17: [opencog_infer_similarity] counts every attempt.  One atom is
    added and the success counted exactly when the result is true; when
    it is false the atom count, the success counter and the accuracy
    keep their old values. *)
Theorem infer_similarity_accounting now s a b :
  wf s -> accounted s (opencog_infer_similarity now s a b).
Proof.
  intros Hwf. unfold opencog_infer_similarity.
  destruct (fold_left (relation_step a b) (atoms s) (zero, zero, zero))
    as [[common total_a] total_b].
  destruct (gtb (if gtb _ zero then _ else zero) c0_1).
  - apply conclude_accounted; auto.
  - split; simpl; auto.
Qed.

Lemma infer_similarity_accounting_witness :
  accounted table_premises (opencog_infer_similarity 20 table_premises 1 2).
Proof. apply infer_similarity_accounting, (wf_reachable premise_calls). Defined.

(** ** The order of the PLN connectives *)

(** X18: when neither input strength is a signaling NaN, the strength of
    a PLN conjunction is one of the two input strengths and that of a
    disjunction is one of the two; when neither is a NaN at all, the
    conjunction is not above either input and the disjunction not below
    either.  A quiet NaN is dropped in favour of the other strength; a
    signaling NaN makes the result a quiet NaN.  The order bounds hold
    for the counts as well when neither count is a NaN. *)
Theorem pln_and_or_bounds tv1 tv2 :
  let s1 := strength tv1 in
  let s2 := strength tv2 in
  let sa := strength (opencog_pln_and tv1 tv2) in
  let so := strength (opencog_pln_or tv1 tv2) in
  (is_signaling s1 = false -> is_signaling s2 = false ->
   (sa = s1 \/ sa = s2) /\ (so = s1 \/ so = s2)) /\
  (is_nan s1 = false -> is_nan s2 = false ->
   leb sa s1 = true /\ leb sa s2 = true /\ leb s1 so = true /\ leb s2 so = true) /\
  (s1 = qNaN -> is_signaling s2 = false -> sa = s2 /\ so = s2) /\
  (s2 = qNaN -> is_signaling s1 = false -> sa = s1 /\ so = s1) /\
  (is_signaling s1 = true \/ is_signaling s2 = true -> sa = qNaN /\ so = qNaN) /\
  (is_nan (count tv1) = false -> is_nan (count tv2) = false ->
   leb (count (opencog_pln_and tv1 tv2)) (count tv1) = true /\
   leb (count (opencog_pln_and tv1 tv2)) (count tv2) = true /\
   leb (count tv1) (count (opencog_pln_or tv1 tv2)) = true /\
   leb (count tv2) (count (opencog_pln_or tv1 tv2)) = true).
Proof.
  simpl. split; [|split; [|split; [|split; [|split]]]].
  - intros S1 S2. split.
    + destruct (fminf_cases (strength tv1) (strength tv2)) as [E|[E|[E _]]]; auto.
      rewrite S1, S2 in E. discriminate.
    + destruct (fmaxf_cases (strength tv1) (strength tv2)) as [E|[E|[E _]]]; auto.
      rewrite S1, S2 in E. discriminate.
  - intros H1 H2. destruct (fminf_le _ _ H1 H2), (fmaxf_ge _ _ H1 H2). auto.
  - intros -> S2. unfold fminf, fmaxf, gtb, leb, ltb. simpl quiet.
    replace (SFleb S754_nan (quiet (strength tv2))) with false by reflexivity.
    replace (SFleb (quiet (strength tv2)) S754_nan) with false
      by (unfold SFleb; destruct (quiet (strength tv2)); reflexivity).
    replace (SFltb S754_nan (quiet (strength tv2))) with false by reflexivity.
    replace (SFltb (quiet (strength tv2)) S754_nan) with false
      by (unfold SFltb; destruct (quiet (strength tv2)); reflexivity).
    rewrite S2. simpl.
    destruct (strength tv2) as [[]|]; try discriminate; split; reflexivity.
  - intros -> S1. split; [apply fminf_qnan, S1|apply fmaxf_qnan, S1].
  - intros H.
    assert (E : is_signaling (strength tv1) || is_signaling (strength tv2) = true)
      by (destruct H as [-> | ->]; [reflexivity|apply orb_true_r]).
    assert (N : is_nan (strength tv1) = true \/ is_nan (strength tv2) = true).
    { destruct H as [H|H]; [left|right];
        destruct (strength _) as [[]|]; try discriminate; reflexivity. }
    assert (C : compare (strength tv1) (strength tv2) = None)
      by (apply compare_None, N).
    assert (C' : compare (strength tv2) (strength tv1) = None)
      by (rewrite compare_antisym, C; reflexivity).
    unfold fminf, fmaxf, gtb, leb, ltb, SFleb, SFltb.
    unfold compare in C, C'. rewrite C, C', E.
    split; apply add_signaling, E.
  - intros H1 H2. destruct (fminf_le _ _ H1 H2), (fmaxf_ge _ _ H1 H2). auto.
Qed.

(** ** Stored truth values are fixed points of the setter *)

Lemma clamp_unit_settled x : clamp zero one (clamp zero one x) = clamp zero one x.
Proof. apply clamp_idempotent; reflexivity. Qed.

Lemma writer_settled f a :
  writer f -> truth_settled (truth_value a) -> truth_settled (truth_value (f a)).
Proof.
  intros Hf H. destruct Hf; simpl; auto.
  split; [apply clamp_unit_settled|]. split; [apply clamp_unit_settled|reflexivity].
Qed.

Lemma decay_settled r t a :
  truth_settled (truth_value a) -> truth_settled (truth_value (decay_atom r t a)).
Proof.
  intros H. unfold decay_atom. destruct (is_deleted a); [exact H|].
  destruct (gtb _ _); exact H.
Qed.

Lemma settled_config s s' :
  config s' = config s ->
  Forall (fun a => truth_settled (truth_value a)) (atoms s') ->
  settled s -> settled s'.
Proof.
  intros Hc Ha [_ Hd]. unfold config in Hc. injection Hc as _ _ _ _ Es Ec.
  split; [exact Ha|]. rewrite Es, Ec. exact Hd.
Qed.

Lemma settled_linked now s ty out : settled s -> settled (linked now s ty out).
Proof.
  intros H. apply (settled_config s); [apply config_linked| |exact H].
  apply (Forall_linked (fun a => truth_settled (truth_value a)));
    [auto|auto|apply H|].
  pose proof (config_verify now out s) as Hc. unfold config in Hc.
  injection Hc as _ _ _ _ Es Ec. simpl. rewrite Es, Ec. apply H.
Qed.

Lemma settled_write i f s : writer f -> settled s -> settled (modify_atom i f s).
Proof.
  intros Hf H. apply (settled_config s); [reflexivity| |exact H].
  apply (Forall_modify (fun a => truth_settled (truth_value a))); [|apply H].
  intros a. apply writer_settled, Hf.
Qed.

Lemma settled_node now s ty n :
  (atom_count s < atom_capacity s)%nat ->
  settled s -> settled (snd (opencog_add_node now s ty (Some n))).
Proof.
  intros Hroom H. apply (settled_config s); [| |exact H];
    unfold opencog_add_node; apply Nat.leb_gt in Hroom; rewrite Hroom;
    [reflexivity|].
  simpl. apply Forall_app. split; [apply H|].
  constructor; [apply H|constructor].
Qed.

(** The clamp to [0, 1] leaves +0, 1 and what lies between them alone. *)
Lemma clamp_exact_unit x : exact_unit x -> clamp zero one x = x.
Proof.
  intros [-> | [-> | [Hlo Hhi]]].
  - apply clamp_lower. reflexivity.
  - apply clamp_upper. reflexivity.
  - apply clamp_inside; assumption.
Qed.

Lemma import_settled u a :
  unit_settled u -> truth_settled (truth_value a) ->
  truth_settled (truth_value (import_unit u a)).
Proof.
  intros [Hs Hc] (_ & _ & Hn). simpl.
  split; [apply clamp_exact_unit, Hs|]. split; [apply clamp_exact_unit, Hc|exact Hn].
Qed.

Lemma run_settled cs s :
  Forall (imports unit_settled) cs -> settled s -> settled (run cs s).
Proof.
  intros Hcs. revert s.
  apply run_keeps with (allowed := unit_settled); [| | | | | | |exact Hcs].
  - apply settled_write.
  - intros s' H. apply (settled_config s'); [reflexivity| |exact H].
    unfold opencog_update_attention_values. simpl.
    apply Forall_fmap. eapply Forall_impl; [apply H|].
    intros a. apply decay_settled.
  - intros s' H. apply (settled_config s'); [reflexivity|apply H|exact H].
  - apply settled_node.
  - intros now s' ty out _ _ _ H. apply settled_linked, H.
  - intros now s' ty out st cf _ _ _ _ H.
    pose proof (settled_linked now s' ty out H) as Hl.
    apply (settled_config (linked now s' ty out)); [| |exact Hl].
    + change (config (record_success ?x)) with (config x).
      apply config_set_truth_value.
    + change (atoms (record_success ?x)) with (atoms x).
      unfold opencog_set_truth_value.
      pose proof (Forall_get_atom (fun a => truth_settled (truth_value a))
                    (fun t a H => H) now (linked now s' ty out) (next_atom_id s')
                    (proj1 Hl)) as Hg.
      destruct (opencog_get_atom now (linked now s' ty out) (next_atom_id s'))
        as [[j|] s'']; simpl in *; [|exact Hg].
      apply (Forall_modify (fun a => truth_settled (truth_value a))); [|exact Hg].
      intros a. apply writer_settled. constructor.
  - apply from_cogfluence_unit_keeps; [apply settled_write|apply settled_node|].
    intros i u s' Hu H. apply (settled_config s'); [reflexivity| |exact H].
    apply (Forall_modify (fun a => truth_settled (truth_value a))); [|apply H].
    intros a. apply import_settled, Hu.
Qed.

(** No call writes an evidence count other than 1: the setter stores 1,
    the bridge leaves the count alone. *)
Lemma writer_count f a :
  writer f -> count (truth_value a) = one -> count (truth_value (f a)) = one.
Proof. intros Hf H. destruct Hf; simpl; auto. Qed.

Lemma decay_count r t a :
  count (truth_value a) = one -> count (truth_value (decay_atom r t a)) = one.
Proof.
  intros H. unfold decay_atom. destruct (is_deleted a); [exact H|].
  destruct (gtb _ _); exact H.
Qed.

Lemma run_counts cs s :
  Forall (fun a => count (truth_value a) = one) (atoms s) ->
  Forall (fun a => count (truth_value a) = one) (atoms (run cs s)).
Proof.
  revert s.
  apply (run_keeps_all
           (fun s' => Forall (fun a => count (truth_value a) = one) (atoms s'))).
  - intros i f s' Hf H.
    apply (Forall_modify (fun a => count (truth_value a) = one)); [|exact H].
    intros a. apply writer_count, Hf.
  - intros s' H. unfold opencog_update_attention_values. simpl.
    apply Forall_fmap. eapply Forall_impl; [exact H|].
    intros a. apply decay_count.
  - intros s' H. exact H.
  - intros now s' ty n Hroom H. unfold opencog_add_node.
    apply Nat.leb_gt in Hroom. rewrite Hroom. simpl.
    apply Forall_app. split; [exact H|]. repeat constructor.
  - intros now s' ty out _ _ _ H.
    apply (Forall_linked (fun a => count (truth_value a) = one)); auto.
  - intros now s' ty out st cf _ _ _ _ H.
    change (atoms (record_success ?x)) with (atoms x).
    assert (Hl : Forall (fun a => count (truth_value a) = one)
                   (atoms (linked now s' ty out)))
      by (apply (Forall_linked (fun a => count (truth_value a) = one)); auto).
    unfold opencog_set_truth_value.
    pose proof (Forall_get_atom (fun a => count (truth_value a) = one)
                  (fun t a H => H) now
                  (linked now s' ty out) (next_atom_id s') Hl) as Hg.
    destruct (opencog_get_atom now (linked now s' ty out) (next_atom_id s'))
      as [[j|] s'']; simpl in *; [|exact Hg].
    apply (Forall_modify (fun a => count (truth_value a) = one)); [|exact Hg].
    intros a _. reflexivity.
  - intros i u s' H.
    apply (Forall_modify (fun a => count (truth_value a) = one)); [|exact H].
    intros a Ha. exact Ha.
Qed.

Lemma settled_init : settled opencog_atomspace_init.
Proof.
  split; [constructor|].
  split; [|split; [|reflexivity]]; vm_compute; reflexivity.
Qed.

Lemma alter_fixed {A} (f : A -> A) i (l : list A) x :
  l !! i = Some x -> f x = x -> alter f i l = l.
Proof.
  revert i. induction l as [|y l IH]; intros [|i] H E; csimpl in *;
    try discriminate.
  - injection H as ->. rewrite E. reflexivity.
  - rewrite (IH i H E). reflexivity.
Qed.

(** X19: in every table built from [opencog_atomspace_init] by any calls
    of the interface, [opencog_from_cogfluence_unit] included, the
    evidence count of every atom is 1.  When the truth value and the
    confidence of every unit handed to the bridge are +0, 1 or strictly
    between them, writing a truth value back as it was read changes
    nothing in the table but [last_access] stamps: every stored strength
    and confidence is then a fixed point of the setter's clamps.  (The
    bridge copies without a clamp, so a unit with another value leaves a
    strength behind that the setter would change.) *)
Theorem reachable_truth_write_back cs now t id :
  let s := run cs opencog_atomspace_init in
  let tv := fst (opencog_get_truth_value now s id) in
  Forall (fun a => count (truth_value a) = one) (atoms s) /\
  (Forall (imports unit_settled) cs ->
   forget_access (opencog_set_truth_value t s id (strength tv) (confidence tv))
   = forget_access s).
Proof.
  intros s tv.
  split; [apply run_counts; constructor|].
  intros Hcs.
  destruct (run_settled cs _ Hcs settled_init) as [Hall _]. fold s in Hall.
  subst tv. unfold opencog_set_truth_value, opencog_get_truth_value, opencog_get_atom.
  destruct (id =? 0); [reflexivity|].
  destruct (find_live (atoms s) id) as [i|] eqn:F; [|reflexivity].
  destruct (find_live_Some _ _ _ F) as (a & Ha & _). simpl.
  unfold atom_at. simpl. rewrite list_lookup_alter_eq, Ha. simpl.
  rewrite Forall_forall in Hall.
  destruct (Hall a (list_elem_of_lookup_2 _ _ _ Ha)) as (Es & Ec & En).
  rewrite Es, Ec.
  assert (Hfix : modify_atom i
                   (set_truth (mk_tv (strength (truth_value a))
                                 (confidence (truth_value a)) one))
                   (modify_atom i (set_last_access t) s)
                 = modify_atom i (set_last_access t) s).
  { unfold modify_atom at 1. simpl.
    rewrite (alter_fixed _ i _ (set_last_access t a)).
    - destruct s; reflexivity.
    - rewrite list_lookup_alter_eq, Ha. reflexivity.
    - destruct a as [? ? ? [st cf n] ? ? ? ? ? ? ? ? ?]. simpl in *. subst n.
      reflexivity. }
  rewrite Hfix. apply forget_access_touch.
Qed.

Lemma reachable_truth_write_back_witness :
  Forall (imports unit_settled) run_imports /\
  fst (opencog_get_truth_value 9 (run run_imports opencog_atomspace_init) 2)
    = mk_tv zero one one /\
  forget_access
    (opencog_set_truth_value 10 (run run_imports opencog_atomspace_init) 2
       zero one)
  = forget_access (run run_imports opencog_atomspace_init) /\
  (let s := run [Call_from_cogfluence_unit 5 (Some unit_wild)]
              opencog_atomspace_init in
   fst (opencog_get_truth_value 9 s 1) = mk_tv c1_5 qNaN one /\
   fst (opencog_get_truth_value 9
          (opencog_set_truth_value 10 s 1 c1_5 qNaN) 1) = mk_tv one one one).
Proof.
  assert (H : Forall (imports unit_settled) run_imports).
  { repeat constructor; right; right; split; reflexivity. }
  split; [exact H|]. split; [reflexivity|].
  split; [|split; reflexivity].
  exact (proj2 (reachable_truth_write_back run_imports 9 10 2) H).
Defined.

(** ** Attention values: what the setter stores *)

(** X20: for a live atom [opencog_set_attention_value] stores each of
    the three values saturated to its range -- sti to [-1, 1], lti and
    vlti to [0, 1] -- whatever the arguments: what is read back lies in
    the range; an argument within the range is read back numerically
    unchanged; one above it, or a quiet NaN, as the upper bound; one
    below it, or a signaling NaN, as the lower bound. *)
Theorem set_attention_value_reads_back now t s id st lt vl :
  live_atom s id -> id <> 0 ->
  let av := fst (opencog_get_attention_value t
                   (opencog_set_attention_value now s id st lt vl) id) in
  saturates minus_one one st (sti av) /\
  saturates zero one lt (lti av) /\
  saturates zero one vl (vlti av).
Proof.
  intros Hlive Hne av.
  assert (E : av = mk_av (clamp minus_one one st) (clamp zero one lt)
                     (clamp zero one vl)).
  { subst av.
    destruct (live_atom_resolves now s id Hlive Hne)
      as (j & a & Ha & _ & _ & Hj & Hget).
    unfold opencog_set_attention_value. rewrite Hget.
    set (s' := modify_atom j (set_attention _) _).
    assert (Hj' : find_live (atoms s') id = Some j).
    { subst s'. rewrite !find_live_modify by auto using keeps_key_attention,
        keeps_key_last_access. exact Hj. }
    unfold opencog_get_attention_value, atom_at.
    rewrite (get_atom_resolved t s' id j Hne Hj'). simpl.
    rewrite !list_lookup_alter_eq, Ha. reflexivity. }
  rewrite E. simpl. repeat split; apply clamp_saturates; reflexivity.
Qed.

Lemma set_attention_value_reads_back_witness :
  fst (opencog_get_attention_value 30
         (opencog_set_attention_value 20 table_a 1 c1_5 qNaN SNaN) 1)
  = mk_av one one zero.
Proof.
  assert (Hlive : live_atom table_a 1)
    by (apply (find_live_live table_a 1 0); vm_compute; reflexivity).
  destruct (set_attention_value_reads_back 20 30 table_a 1 c1_5 qNaN SNaN Hlive
              ltac:(lia)) as (Hs & Hl & Hv).
  destruct (fst (opencog_get_attention_value 30
                   (opencog_set_attention_value 20 table_a 1 c1_5 qNaN SNaN) 1))
    as [s l v]. simpl in *.
  destruct Hs as (_ & _ & _ & Hs & _). destruct Hl as (_ & _ & _ & _ & _ & Hl & _).
  destruct Hv as (_ & _ & _ & _ & _ & _ & Hv).
  rewrite (Hs eq_refl), (Hl eq_refl), (Hv eq_refl). reflexivity.
Defined.

(** ** What the decay tick and the spreading leave alone *)

Lemma without_attention_decay r t a :
  without_attention (decay_atom r t a) = without_attention a.
Proof.
  unfold decay_atom. destruct (is_deleted a); [reflexivity|].
  destruct (gtb _ _); reflexivity.
Qed.

(** X21: a decay tick writes attention values only: names, types, truth
    values, adjacency arrays, stamps, counters and parameters stay, and
    no atom is added.  After the tick the attention value of every atom
    is in range, whatever it was before. *)
Theorem decay_tick_writes_attention_only s :
  without_attention <$> atoms (opencog_update_attention_values s)
  = without_attention <$> atoms s /\
  set_atoms [] (opencog_update_attention_values s) = set_atoms [] s /\
  Forall (fun a => is_deleted a = false ->
                   attention_in_range (attention_value a) = true)
    (atoms (opencog_update_attention_values s)).
Proof.
  unfold opencog_update_attention_values. simpl. split; [|split].
  - rewrite <- list_fmap_compose. apply list_fmap_ext.
    intros i a _. apply without_attention_decay.
  - reflexivity.
  - apply Forall_fmap, Forall_forall. intros a _. simpl. intros Hlive.
    destruct (keeps_key_decay (attention_decay_rate s) (attention_threshold s) a)
      as [_ Hd].
    rewrite Hd in Hlive. apply decay_atom_attention, Hlive.
Qed.

Lemma forget_sti_modify i f s :
  (forall a, without_sti (f a) = without_sti a) ->
  forget_sti (modify_atom i f s) = forget_sti s.
Proof.
  intros Hf. unfold forget_sti, modify_atom, set_atoms; simpl. f_equal.
  generalize (atoms s) i. clear i.
  induction l as [|x l IH]; intros [|i]; csimpl; auto.
  - rewrite Hf. reflexivity.
  - rewrite IH. reflexivity.
Qed.

Lemma forget_sti_get_atom now s id :
  forget_sti (snd (opencog_get_atom now s id)) = forget_sti s.
Proof.
  rewrite get_atom_snd. destruct (fst (opencog_get_atom now s id)); [|reflexivity].
  apply forget_sti_modify. reflexivity.
Qed.

Lemma forget_sti_spread_to now amount targets :
  forall s, forget_sti (spread_to now s amount targets) = forget_sti s.
Proof.
  induction targets as [|id targets IH]; intros s; simpl; [reflexivity|].
  pose proof (forget_sti_get_atom now s id) as Hg.
  destruct (opencog_get_atom now s id) as [[j|] s']; simpl in *; rewrite IH;
    [|exact Hg].
  rewrite forget_sti_modify by reflexivity. exact Hg.
Qed.

Lemma forget_sti_spread_over now amount targets s :
  forget_sti (spread_over now s amount targets) = forget_sti s.
Proof. destruct targets; [reflexivity|apply forget_sti_spread_to]. Qed.

(** X22: [opencog_spread_attention] writes sti values and [last_access]
    stamps only: lti and vlti, truth values, names, adjacency arrays,
    counters and parameters stay, and no atom is added. *)
Theorem spread_attention_writes_sti_only now s id amount :
  forget_sti (opencog_spread_attention now s id amount) = forget_sti s.
Proof.
  unfold opencog_spread_attention.
  pose proof (forget_sti_get_atom now s id) as Hg.
  destruct (opencog_get_atom now s id) as [[i|] s1]; simpl in Hg; [|exact Hg].
  rewrite <- Hg.
  set (s2 := match atom_at s1 i with
             | Some src => spread_over now s1 amount (outgoing src)
             | None => s1 end).
  assert (H2 : forget_sti s2 = forget_sti s1)
    by (subst s2; destruct (atom_at s1 i); [apply forget_sti_spread_over|reflexivity]).
  rewrite <- H2. destruct (atom_at s2 i); [apply forget_sti_spread_over|reflexivity].
Qed.

Lemma forget_sti_lookup s s' k b :
  forget_sti s' = forget_sti s -> atoms s !! k = Some b ->
  exists b', atoms s' !! k = Some b' /\ without_sti b' = without_sti b.
Proof.
  intros E Hb.
  assert (Ea : without_sti <$> atoms s' = without_sti <$> atoms s)
    by exact (f_equal atoms E).
  apply (f_equal (fun l => l !! k)) in Ea. rewrite !list_lookup_fmap, Hb in Ea.
  destruct (atoms s' !! k) as [b'|]; [|discriminate].
  exists b'. split; [reflexivity|]. simpl in Ea. congruence.
Qed.

(** A target that occurs once in the array gets the amount once. *)
Lemma spread_to_hit now amount targets :
  forall s j a,
    wf s -> atoms s !! j = Some a -> is_deleted a = false ->
    In (atom_id a) targets -> NoDup targets ->
    exists a', atoms (spread_to now s amount targets) !! j = Some a' /\
      attention_value a' =
        mk_av (clamp minus_one one (add (sti (attention_value a)) amount))
          (lti (attention_value a)) (vlti (attention_value a)) /\
      atom_id a' = atom_id a /\ outgoing a' = outgoing a /\ incoming a' = incoming a.
Proof.
  induction targets as [|y targets IH]; intros s j a Hwf Ha Hlive Hin Hnd;
    [destruct Hin|].
  apply NoDup_cons in Hnd as [Hy Hnd]. simpl.
  assert (Hnz : atom_id a <> 0) by (rewrite (wf_ids s Hwf _ _ Ha); lia).
  pose proof (find_live_distinct _ _ _ (wf_ids_distinct s Hwf) Ha Hlive) as Hj.
  destruct (Z.eq_dec y (atom_id a)) as [->|Hne].
  - rewrite (get_atom_resolved now s _ j Hnz Hj).
    set (s' := modify_atom j (add_sti amount) _).
    assert (Ha' : atoms s' !! j = Some (add_sti amount (set_last_access now a))).
    { subst s'. rewrite !atoms_modify_atom, !list_lookup_alter_eq, Ha. reflexivity. }
    destruct (spread_to_other now amount targets s' j _ Ha')
      as (a' & Hl & Hav & Hid & Ho & Hi).
    { simpl. rewrite <- list_elem_of_In. exact Hy. }
    exists a'. split; [exact Hl|]. rewrite Hav, Hid, Ho, Hi. repeat split.
  - assert (Hrest : In (atom_id a) targets) by (destruct Hin; congruence).
    unfold opencog_get_atom.
    destruct (y =? 0); [apply IH; assumption|].
    destruct (find_live (atoms s) y) as [k|] eqn:Hk; [|apply IH; assumption].
    destruct (find_live_Some _ _ _ Hk) as (b & Hb & Hidb & _).
    assert (Hkj : k <> j) by (intros ->; congruence).
    apply IH; try assumption.
    + eapply inplace_wf; [exact Hwf|].
      eapply inplace_trans; apply inplace_modify; intros c;
        [apply atom_frame_last_access|apply atom_frame_add_sti].
    + rewrite !atoms_modify_atom, !list_lookup_alter_ne by assumption. exact Ha.
Qed.

(** X23: what a target receives.  When the source's outgoing array lists
    each id once, an outgoing target that is not also in the source's
    incoming array has its sti raised by [amount / outgoing_count] and
    clamped to [-1, 1]; its lti and vlti stay.  The amount is divided
    among the targets and not scaled by the diffusion rate. *)
Theorem spread_attention_reaches_targets now t s i src j a amount :
  wf s -> atoms s !! i = Some src -> is_deleted src = false ->
  atoms s !! j = Some a -> is_deleted a = false ->
  In (atom_id a) (outgoing src) -> NoDup (outgoing src) ->
  ~ In (atom_id a) (incoming src) ->
  fst (opencog_get_attention_value t
         (opencog_spread_attention now s (atom_id src) amount) (atom_id a))
  = mk_av
      (clamp minus_one one
         (add (sti (attention_value a))
            (div amount (of_Z (Z.of_nat (outgoing_count src))))))
      (lti (attention_value a)) (vlti (attention_value a)).
Proof.
  intros Hwf Hsrc Hlsrc Ha Hlive Hin Hnd Hninc.
  assert (Hnz : atom_id src <> 0) by (rewrite (wf_ids s Hwf _ _ Hsrc); lia).
  pose proof (find_live_distinct _ _ _ (wf_ids_distinct s Hwf) Hsrc Hlsrc) as Hi.
  set (s3 := opencog_spread_attention now s (atom_id src) amount).
  assert (Hwf3 : wf s3)
    by (eapply inplace_wf; [exact Hwf|apply spread_attention_inplace]).
  assert (Hfinal : exists a', atoms s3 !! j = Some a' /\
            attention_value a' =
              mk_av (clamp minus_one one
                       (add (sti (attention_value a))
                          (div amount (of_Z (Z.of_nat (outgoing_count src))))))
                (lti (attention_value a)) (vlti (attention_value a)) /\
            atom_id a' = atom_id a).
  { subst s3. unfold opencog_spread_attention, atom_at.
    rewrite (get_atom_resolved now s _ i Hnz Hi).
    set (s1 := modify_atom i (set_last_access now) s).
    assert (Hwf1 : wf s1).
    { eapply inplace_wf; [exact Hwf|]. apply inplace_modify.
      intros c. apply atom_frame_last_access. }
    assert (H1 : atoms s1 !! i = Some (set_last_access now src)).
    { subst s1. rewrite atoms_modify_atom, list_lookup_alter_eq, Hsrc. reflexivity. }
    rewrite H1.
    assert (Hj1 : exists a1, atoms s1 !! j = Some a1 /\
              attention_value a1 = attention_value a /\ atom_id a1 = atom_id a /\
              is_deleted a1 = false).
    { subst s1. rewrite atoms_modify_atom. destruct (Nat.eq_dec i j) as [->|Hij].
      - rewrite list_lookup_alter_eq, Ha. eexists. split; [reflexivity|]. auto.
      - rewrite list_lookup_alter_ne by assumption. exists a. auto. }
    destruct Hj1 as (a1 & Ha1 & Hav1 & Hid1 & Hl1).
    assert (Hspread : exists a2,
              atoms (spread_over now s1 amount (outgoing (set_last_access now src))) !! j
              = Some a2 /\
              attention_value a2 =
                mk_av (clamp minus_one one
                         (add (sti (attention_value a))
                            (div amount (of_Z (Z.of_nat (outgoing_count src))))))
                  (lti (attention_value a)) (vlti (attention_value a)) /\
              atom_id a2 = atom_id a).
    { simpl. unfold spread_over, outgoing_count.
      destruct (outgoing src) as [|o os] eqn:Eo; [destruct Hin|].
      destruct (spread_to_hit now (div amount (of_Z (Z.of_nat (length (o :: os)))))
                  (o :: os) s1 j a1 Hwf1 Ha1 Hl1) as (a2 & Ha2 & Hav2 & Hid2 & _).
      { rewrite Hid1. exact Hin. }
      { exact Hnd. }
      exists a2. split; [exact Ha2|]. rewrite Hav2, Hav1, Hid2, Hid1. auto. }
    destruct Hspread as (a2 & Ha2 & Hav2 & Hid2).
    set (s2 := spread_over now s1 amount (outgoing (set_last_access now src))) in *.
    destruct (forget_sti_lookup s1 s2 i _
                (forget_sti_spread_over now amount _ s1) H1)
      as (src2 & Hsrc2 & Ew).
    rewrite Hsrc2.
    assert (Einc : incoming src2 = incoming src)
      by exact (f_equal incoming Ew).
    destruct (spread_over_other now amount (incoming src2) s2 j a2 Ha2)
      as (a3 & Ha3 & Hav3 & Hid3 & _).
    { rewrite Einc, Hid2. exact Hninc. }
    exists a3. split; [exact Ha3|]. rewrite Hav3, Hid3. auto. }
  destruct Hfinal as (a' & Ha' & Hav & Hid).
  destruct (inplace_grows _ _ (spread_attention_inplace now s (atom_id src) amount)
              j a Ha) as (a'' & Ha'' & _ & Hdel & _).
  fold s3 in Ha''. assert (a'' = a') by congruence. subst a''.
  rewrite <- Hid, <- Hav.
  apply (attention_slot t s3 j a' Hwf3 Ha'). congruence.
Qed.

Lemma spread_attention_reaches_targets_witness :
  exists src a,
    atoms table_ab_link !! 3%nat = Some src /\ atoms table_ab_link !! 0%nat = Some a /\
    fst (opencog_get_attention_value 30
           (opencog_spread_attention 20 table_ab_link (atom_id src) c0_5) (atom_id a))
    = mk_av
        (clamp minus_one one
           (add (sti (attention_value a))
              (div c0_5 (of_Z (Z.of_nat (outgoing_count src))))))
        (lti (attention_value a)) (vlti (attention_value a)).
Proof.
  eexists. eexists.
  split; [vm_compute; reflexivity|]. split; [vm_compute; reflexivity|].
  apply (spread_attention_reaches_targets 20 30 table_ab_link 3 _ 0).
  - apply (wf_reachable ab_link_calls).
  - vm_compute. reflexivity.
  - reflexivity.
  - vm_compute. reflexivity.
  - reflexivity.
  - simpl. auto.
  - simpl. apply NoDup_cons. split; [|apply NoDup_singleton].
    intros H. apply list_elem_of_In in H. simpl in H. intuition discriminate.
  - simpl. intuition discriminate.
Defined.

(** ** Similarity needs a shared link *)

Lemma relation_step_common a b acc x :
  (is_deleted x = false -> type x = OPENCOG_INHERITANCE_LINK ->
   related x a && related x b = false) ->
  fst (fst (relation_step a b acc x)) = fst (fst acc).
Proof.
  intros H. unfold relation_step.
  destruct (is_deleted x) eqn:Hd; [reflexivity|]. simpl.
  destruct (atom_type_eqb (type x) OPENCOG_INHERITANCE_LINK) eqn:Ht; [|reflexivity].
  simpl. apply eqb_type_eq in Ht. rewrite (H eq_refl Ht).
  destruct (outgoing x) as [|o0 [|o1 os]]; try reflexivity.
  destruct acc as [[common ta] tb]. reflexivity.
Qed.

Lemma relation_fold_common a b l :
  forall acc,
    (forall x, In x l -> is_deleted x = false -> type x = OPENCOG_INHERITANCE_LINK ->
       related x a && related x b = false) ->
    fst (fst (fold_left (relation_step a b) l acc)) = fst (fst acc).
Proof.
  induction l as [|x l IH]; intros acc H; simpl; [reflexivity|].
  rewrite IH by (intros y Hy; apply H; right; exact Hy).
  apply relation_step_common, H. left. reflexivity.
Qed.

Lemma div_zero_small d : gtb d zero = true -> gtb (div zero d) c0_1 = false.
Proof.
  destruct d as [[s|s| |s m e]|]; try discriminate; destruct s; try discriminate;
    reflexivity.
Qed.

(** X24: [opencog_infer_similarity] can only succeed through a live
    Inheritance link that holds both concepts among its first two
    outgoing ids.  Without one the common weight stays 0, the call
    returns false, creates no link and counts a failed attempt; two
    concepts that merely inherit from the same third one, each by a link
    of its own, are not found similar. *)
Theorem infer_similarity_needs_shared_link now s a b :
  (forall x, In x (atoms s) -> is_deleted x = false ->
     type x = OPENCOG_INHERITANCE_LINK -> related x a && related x b = false) ->
  opencog_infer_similarity now s a b = (false, record_failure s).
Proof.
  intros H. unfold opencog_infer_similarity.
  pose proof (relation_fold_common a b (atoms s) (zero, zero, zero) H) as Hc.
  destruct (fold_left (relation_step a b) (atoms s) (zero, zero, zero))
    as [[common total_a] total_b]. simpl in Hc. subst common.
  destruct (gtb (sub (add total_a total_b) zero) zero) eqn:Hd.
  - rewrite (div_zero_small _ Hd). reflexivity.
  - reflexivity.
Qed.

Lemma infer_similarity_needs_shared_link_witness :
  opencog_infer_similarity 20 table_pets 1 2 = (false, record_failure table_pets).
Proof.
  apply infer_similarity_needs_shared_link.
  assert (Hall : forallb (fun x => negb (related x 1 && related x 2)) (atoms table_pets)
                 = true) by (vm_compute; reflexivity).
  intros x Hx _ _. rewrite forallb_forall in Hall.
  apply negb_true_iff, Hall, Hx.
Defined.

(** ** The MOSES interpreter *)

(** The bit patterns of 1.0f, 0.8f, 0.0f, of the quiet NaN 0x7fc00000
    and of the signaling NaNs 0x7f800001 and 0xffa00000. *)
Lemma moses_float_of_bits_literals :
  Moses.float_of_bits 1065353216 = one /\
  Moses.float_of_bits 1061997773 = c0_8 /\
  Moses.float_of_bits 0 = zero /\
  Moses.float_of_bits 2143289344 = qNaN /\
  Moses.float_of_bits 2139095041 = SNaN /\
  Moses.float_of_bits 4288675840 = SNaN.
Proof. repeat split. Qed.

Lemma moses_code_step vars l i ins :
  Moses.code (Moses.clamp_result (Moses.dispatch vars l i ins)) = Moses.code ins.
Proof.
  destruct ins as [op o out tv]. unfold Moses.dispatch. simpl.
  destruct op; simpl; try reflexivity;
    repeat match goal with
           | |- context [if ?b then _ else _] => destruct b
           | |- context [match ?x with Some _ => _ | None => _ end] => destruct x
           end; reflexivity.
Qed.

Lemma moses_step_in_range vars l i ins :
  Moses.result_in_range (Moses.clamp_result (Moses.dispatch vars l i ins)).
Proof. unfold Moses.result_in_range. simpl. rewrite !clamp_unit. auto. Qed.

Lemma moses_index_lt (x : Z) (n : nat) :
  0 <= x -> (x <? Z.of_nat n) = true -> (Z.to_nat x < n)%nat.
Proof. intros H0 H. apply Z.ltb_lt in H. lia. Qed.

Lemma moses_word_nonneg w : 0 <= w mod 2 ^ 32.
Proof. apply Z.mod_pos_bound. lia. Qed.

(** An instruction reads executed slots only. *)
Lemma moses_dispatch_prefix vars done todo ins :
  Moses.dispatch vars (done ++ todo) (length done) ins
  = Moses.dispatch vars done (length done) ins.
Proof.
  unfold Moses.dispatch, Moses.arg1_index, Moses.arg2_index, Moses.unary_arg_index.
  set (a1 := Moses.word0 (Moses.operands ins) mod 2 ^ 32).
  set (a2 := Moses.word1 (Moses.operands ins) mod 2 ^ 32).
  assert (H1 : 0 <= a1) by apply moses_word_nonneg.
  assert (H2 : 0 <= a2) by apply moses_word_nonneg.
  destruct (Moses.op_type ins); try reflexivity;
    destruct (a1 <? Z.of_nat (length done)) eqn:E1; try reflexivity;
    try (destruct (a2 <? Z.of_nat (length done)) eqn:E2; try reflexivity);
    simpl; rewrite !lookup_app_l by (apply moses_index_lt; assumption);
    reflexivity.
Qed.

(** The in-place loop from slot [length done] on is [execute_from]. *)
Lemma moses_loop_from vars todo :
  forall done,
    fold_left (Moses.execute_at vars) (seq (length done) (length todo)) (done ++ todo)
    = Moses.execute_from vars done todo.
Proof.
  induction todo as [|ins rest IH]; intros done; simpl.
  - apply app_nil_r.
  - unfold Moses.execute_at at 2.
    rewrite list_lookup_middle by reflexivity.
    rewrite moses_dispatch_prefix.
    replace (<[length done:=Moses.clamp_result
                              (Moses.dispatch vars done (length done) ins)]>
               (done ++ ins :: rest))
      with ((done ++ [Moses.clamp_result (Moses.dispatch vars done (length done) ins)])
              ++ rest).
    + rewrite <- IH. rewrite length_app. simpl.
      replace (length done + 1)%nat with (S (length done)) by lia. reflexivity.
    + rewrite <- app_assoc. simpl. symmetry.
      rewrite insert_app_r_alt by lia. rewrite Nat.sub_diag. reflexivity.
Qed.

Lemma moses_execute_all_from vars l :
  Moses.execute_all vars l = Moses.execute_from vars [] l.
Proof. apply (moses_loop_from vars l []). Qed.

Lemma moses_from_suffix vars todo :
  forall done, exists suffix,
    Moses.execute_from vars done todo = done ++ suffix /\
    length suffix = length todo.
Proof.
  induction todo as [|ins rest IH]; intros done; simpl.
  - exists []. split; [symmetry; apply app_nil_r|reflexivity].
  - destruct (IH (done ++ [Moses.clamp_result
                             (Moses.dispatch vars done (length done) ins)]))
      as (suf & E & Hl).
    eexists (_ :: suf). split; [rewrite E, <- app_assoc; reflexivity|].
    simpl. rewrite Hl. reflexivity.
Qed.

(** Each slot of the result is the loop body applied to the instruction
    that was there, reading the final values of the earlier slots. *)
Lemma moses_from_lookup vars todo :
  forall done k ins,
    todo !! k = Some ins ->
    Moses.execute_from vars done todo !! (length done + k)%nat
    = Some (Moses.clamp_result
              (Moses.dispatch vars (Moses.execute_from vars done todo)
                 (length done + k) ins)).
Proof.
  induction todo as [|x rest IH]; intros done k ins Hk; [discriminate|].
  simpl. destruct k as [|k].
  - injection Hk as ->. rewrite Nat.add_0_r.
    destruct (moses_from_suffix vars rest
                (done ++ [Moses.clamp_result
                            (Moses.dispatch vars done (length done) ins)]))
      as (suf & E & _).
    rewrite E, <- app_assoc. simpl.
    rewrite list_lookup_middle by reflexivity.
    rewrite moses_dispatch_prefix. reflexivity.
  - simpl in Hk.
    specialize (IH (done ++ [Moses.clamp_result
                               (Moses.dispatch vars done (length done) x)]) k ins Hk).
    rewrite length_app in IH. simpl in IH.
    replace (length done + 1 + k)%nat with (length done + S k)%nat in IH by lia.
    exact IH.
Qed.

Lemma moses_from_spec vars todo :
  forall done,
    Forall Moses.result_in_range done ->
    Forall Moses.result_in_range (Moses.execute_from vars done todo) /\
    Moses.code <$> Moses.execute_from vars done todo = Moses.code <$> (done ++ todo).
Proof.
  induction todo as [|ins rest IH]; intros done Hd; simpl.
  - rewrite app_nil_r. auto.
  - destruct (IH (done ++ [Moses.clamp_result
                             (Moses.dispatch vars done (length done) ins)]))
      as [Hr Hc].
    + apply Forall_app. split; [exact Hd|].
      constructor; [apply moses_step_in_range|constructor].
    + split; [exact Hr|]. rewrite Hc, <- app_assoc, !fmap_app. simpl.
      rewrite moses_code_step. reflexivity.
Qed.

Lemma moses_copy_length input n vars :
  length (Moses.copy_variables input n vars) = length vars.
Proof.
  unfold Moses.copy_variables. rewrite length_app, length_drop, !length_take. lia.
Qed.

Lemma moses_copy_twice input n vars :
  Moses.copy_variables input n (Moses.copy_variables input n vars)
  = Moses.copy_variables input n vars.
Proof.
  unfold Moses.copy_variables at 1. rewrite moses_copy_length.
  unfold Moses.copy_variables.
  set (copied := take (Nat.min n (length vars)) input).
  rewrite drop_app_length. reflexivity.
Qed.

(** X25: [moses_program_execute] on a program and an input array returns
    true and leaves every instruction with an output value, a strength
    and a confidence in [0, 1], whatever the constants, the inputs (NaN
    of either kind and infinities included) and the argument indices
    are.  The
    operation types and operands are not changed, the variable array
    keeps its length and the execution counter goes up by one; with a
    NULL input array the program is left alone. *)
Theorem moses_execute_results_in_range program input n :
  let r := Moses.moses_program_execute program (Some input) n in
  fst r = true /\
  Forall Moses.result_in_range (Moses.instructions (snd r)) /\
  Moses.code <$> Moses.instructions (snd r)
  = Moses.code <$> Moses.instructions program /\
  length (Moses.variable_values (snd r)) = length (Moses.variable_values program) /\
  Moses.execution_count (snd r) = wrap64 (Moses.execution_count program + 1) /\
  Moses.moses_program_execute program None n = (false, program).
Proof.
  simpl. split; [reflexivity|].
  rewrite moses_execute_all_from.
  destruct (moses_from_spec
              (Moses.copy_variables input n (Moses.variable_values program))
              (Moses.instructions program) [] (Forall_nil_2 _)) as [Hr Hc].
  split; [exact Hr|]. split; [exact Hc|].
  split; [apply moses_copy_length|]. split; reflexivity.
Qed.

Lemma moses_clamp_result_twice ins :
  Moses.clamp_result (Moses.clamp_result ins) = Moses.clamp_result ins.
Proof.
  unfold Moses.clamp_result, Moses.set_result. simpl.
  rewrite !clamp_unit_settled. reflexivity.
Qed.

(** The switch reads of its own instruction the operation, the operands
    and the old results, and the old results only to keep them. *)
Lemma moses_dispatch_outcome vars l i op o :
  exists oc, forall out tv,
    Moses.dispatch vars l i (Moses.mk_instruction op o out tv)
    = Moses.apply_outcome oc (Moses.mk_instruction op o out tv).
Proof.
  unfold Moses.dispatch. simpl.
  destruct op; simpl;
    try (exists Moses.Reset; reflexivity);
    try (eexists (Moses.Fresh _ _ _); reflexivity);
    repeat match goal with
           | |- context [if ?b then _ else _] => destruct b
           | |- context [match ?x with Some _ => _ | None => _ end] => destruct x
           end;
    try (exists Moses.Stale; reflexivity);
    try (exists Moses.Reset; reflexivity);
    try (eexists (Moses.Fresh _ _ _); reflexivity);
    try (eexists (Moses.Whole _ _); reflexivity).
Qed.

(** Executing a slot again, over the same executed slots, changes
    nothing. *)
Lemma moses_step_twice vars l i ins :
  Moses.clamp_result
    (Moses.dispatch vars l i (Moses.clamp_result (Moses.dispatch vars l i ins)))
  = Moses.clamp_result (Moses.dispatch vars l i ins).
Proof.
  destruct ins as [op o out tv].
  destruct (moses_dispatch_outcome vars l i op o) as [oc Hoc].
  rewrite (Hoc out tv).
  destruct oc; unfold Moses.apply_outcome, Moses.clamp_result, Moses.set_result;
    simpl; rewrite Hoc; simpl; rewrite ?clamp_unit_settled; reflexivity.
Qed.

Lemma moses_from_twice vars todo :
  forall done,
    Moses.execute_from vars done
      (drop (length done) (Moses.execute_from vars done todo))
    = Moses.execute_from vars done todo.
Proof.
  induction todo as [|ins rest IH]; intros done.
  - simpl. rewrite drop_all. reflexivity.
  - simpl.
    set (ins' := Moses.clamp_result (Moses.dispatch vars done (length done) ins)).
    specialize (IH (done ++ [ins'])).
    destruct (moses_from_suffix vars rest (done ++ [ins'])) as (suf & E & _).
    rewrite E in IH |- *. rewrite drop_app_length in IH.
    rewrite <- app_assoc, drop_app_length. simpl.
    replace (Moses.clamp_result (Moses.dispatch vars done (length done) ins'))
      with ins' by (symmetry; apply moses_step_twice).
    rewrite IH, <- app_assoc. reflexivity.
Qed.

(** X26: executing a program a second time on the same input array gives
    the same results: every output value and truth value, and the
    variable array, are as after the first execution; only the execution
    counter moves. *)
Theorem moses_execute_twice program input n :
  let p1 := snd (Moses.moses_program_execute program (Some input) n) in
  let p2 := snd (Moses.moses_program_execute p1 (Some input) n) in
  Moses.instructions p2 = Moses.instructions p1 /\
  Moses.variable_values p2 = Moses.variable_values p1 /\
  Moses.execution_count p2 = wrap64 (Moses.execution_count p1 + 1).
Proof.
  simpl. rewrite moses_copy_twice. split; [|split; reflexivity].
  rewrite !moses_execute_all_from.
  apply (moses_from_twice _ (Moses.instructions program) []).
Qed.

(** X27: each slot of the executed program is the loop body applied to
    the instruction that was there, reading the final results of the
    slots before it.  In particular a conjunction or disjunction whose
    two arguments ended with confidence 0 ends with confidence 1: the
    combined confidence 0/0 is a quiet NaN, which the closing clamp
    [fmaxf(0, fminf(1, x))] turns into 1.  A constant instruction ends
    with its constant, and a variable instruction with the input it
    names, saturated to [0, 1] as output and as strength: a value above
    1 or a quiet NaN ends as 1, a value below 0 or a signaling NaN as 0;
    their confidences are 0.9 and 0.8. *)
Theorem moses_execute_slot program input n i ins :
  Moses.instructions program !! i = Some ins ->
  let p1 := snd (Moses.moses_program_execute program (Some input) n) in
  Moses.instructions p1 !! i
  = Some (Moses.clamp_result
            (Moses.dispatch (Moses.variable_values p1) (Moses.instructions p1) i ins)) /\
  (forall x y,
    Moses.op_type ins = Moses.MOSES_OP_PLN_AND \/
    Moses.op_type ins = Moses.MOSES_OP_PLN_OR ->
    Moses.arg1_index (Moses.operands ins) < Z.of_nat i ->
    Moses.arg2_index (Moses.operands ins) < Z.of_nat i ->
    Moses.instructions p1 !! Z.to_nat (Moses.arg1_index (Moses.operands ins)) = Some x ->
    Moses.instructions p1 !! Z.to_nat (Moses.arg2_index (Moses.operands ins)) = Some y ->
    confidence (Moses.truth_value x) = zero ->
    confidence (Moses.truth_value y) = zero ->
    exists r, Moses.instructions p1 !! i = Some r /\
              confidence (Moses.truth_value r) = one) /\
  (Moses.op_type ins = Moses.MOSES_OP_CONSTANT ->
   exists r, Moses.instructions p1 !! i = Some r /\
     saturates zero one (Moses.constant_value (Moses.operands ins))
       (Moses.output_value r) /\
     saturates zero one (Moses.constant_value (Moses.operands ins))
       (strength (Moses.truth_value r)) /\
     confidence (Moses.truth_value r) = c0_9) /\
  (forall v,
    Moses.op_type ins = Moses.MOSES_OP_VARIABLE ->
    Moses.variable_values p1 !! Z.to_nat (Moses.variable_index (Moses.operands ins))
    = Some v ->
    exists r, Moses.instructions p1 !! i = Some r /\
      saturates zero one v (Moses.output_value r) /\
      saturates zero one v (strength (Moses.truth_value r)) /\
      confidence (Moses.truth_value r) = c0_8).
Proof.
  intros Hi. simpl. rewrite moses_execute_all_from.
  set (vars := Moses.copy_variables input n (Moses.variable_values program)).
  pose proof (moses_from_lookup vars (Moses.instructions program) [] i ins Hi) as H.
  simpl in H. split; [exact H|].
  split; [|split].
  - intros x y Hop H1 H2 Hx Hy Cx Cy. eexists. split; [exact H|].
    apply Z.ltb_lt in H1. apply Z.ltb_lt in H2.
    unfold Moses.dispatch. destruct Hop as [-> | ->]; rewrite H1, H2; simpl;
      rewrite Hx, Hy; simpl; rewrite Cx, Cy; vm_compute; reflexivity.
  - intros Hop. eexists. split; [exact H|].
    unfold Moses.dispatch. rewrite Hop. simpl.
    split; [apply clamp_saturates; reflexivity|].
    split; [apply clamp_saturates; reflexivity|reflexivity].
  - intros v Hop Hv. eexists. split; [exact H|].
    assert (Hlt : (Moses.variable_index (Moses.operands ins)
                   <? Z.of_nat (length vars)) = true).
    { apply Z.ltb_lt. apply lookup_lt_Some in Hv.
      assert (0 <= Moses.variable_index (Moses.operands ins))
        by (apply Z.mod_pos_bound; reflexivity).
      lia. }
    unfold Moses.dispatch. rewrite Hop, Hlt, Hv. simpl.
    split; [apply clamp_saturates; reflexivity|].
    split; [apply clamp_saturates; reflexivity|reflexivity].
Qed.

Lemma moses_execute_slot_witness :
  (let p1 := snd (Moses.moses_program_execute Moses.unknowns_program (Some [c0_5]) 1) in
   let ins := Moses.blank Moses.MOSES_OP_PLN_AND 0 1 in
   Moses.instructions p1 !! 2%nat
   = Some (Moses.clamp_result
             (Moses.dispatch (Moses.variable_values p1) (Moses.instructions p1) 2 ins)) /\
   exists r, Moses.instructions p1 !! 2%nat = Some r /\
             confidence (Moses.truth_value r) = one) /\
  (let p1 := snd (Moses.moses_program_execute Moses.nan_program (Some [SNaN; qNaN]) 2) in
   (Moses.output_value <$> Moses.instructions p1) = [one; zero; zero; one] /\
   exists r, Moses.instructions p1 !! 1%nat = Some r /\ Moses.output_value r = zero).
Proof.
  split.
  - destruct (moses_execute_slot Moses.unknowns_program [c0_5] 1 2
                (Moses.blank Moses.MOSES_OP_PLN_AND 0 1) eq_refl) as (H1 & H2 & _).
    split; [exact H1|].
    refine (H2 _ _ (or_introl eq_refl) _ _ _ _ _ _).
    + vm_compute. reflexivity.
    + vm_compute. reflexivity.
    + vm_compute. reflexivity.
    + vm_compute. reflexivity.
    + reflexivity.
    + reflexivity.
  - split; [vm_compute; reflexivity|].
    destruct (moses_execute_slot Moses.nan_program [SNaN; qNaN] 2 1
                (Moses.blank Moses.MOSES_OP_CONSTANT 2139095041 0) eq_refl)
      as (_ & _ & H3 & _).
    destruct (H3 eq_refl) as (r & Hr & Ho & _).
    exists r. split; [exact Hr|].
    apply Ho. reflexivity.
Defined.

(** ** The table is append-only *)

Lemma stays_refl a : stays a a.
Proof. split; reflexivity. Qed.

Lemma stays_trans a b c : stays a b -> stays b c -> stays a c.
Proof. intros [H1 H2] [K1 K2]. split; [congruence|etransitivity; eauto]. Qed.

Lemma stays_writer f a : writer f -> stays a (f a).
Proof. intros Hf. destruct Hf; split; reflexivity. Qed.

Lemma stays_push l a : stays a (push_incoming l a).
Proof. split; [reflexivity|]. simpl. apply prefix_app_r. reflexivity. Qed.

Lemma stays_decay r t a : stays a (decay_atom r t a).
Proof.
  unfold decay_atom. destruct (is_deleted a) eqn:E; [apply stays_refl|].
  destruct (gtb _ _); split; simpl; try reflexivity; unfold identity; simpl;
    rewrite E; reflexivity.
Qed.

Lemma append_only_refl s : append_only s s.
Proof. intros i a H. exists a. split; [exact H|apply stays_refl]. Qed.

Lemma append_only_trans s1 s2 s3 :
  append_only s1 s2 -> append_only s2 s3 -> append_only s1 s3.
Proof.
  intros H12 H23 i a Ha.
  destruct (H12 i a Ha) as (b & Hb & Sab).
  destruct (H23 i b Hb) as (c & Hc & Sbc).
  exists c. split; [exact Hc|eapply stays_trans; eauto].
Qed.

Lemma append_only_modify i f s :
  (forall a, stays a (f a)) -> append_only s (modify_atom i f s).
Proof.
  intros Hf j a Ha. rewrite atoms_modify_atom.
  destruct (Nat.eq_dec i j) as [->|Hij].
  - exists (f a). rewrite list_lookup_alter_eq, Ha. split; [reflexivity|apply Hf].
  - exists a. rewrite list_lookup_alter_ne by assumption.
    split; [exact Ha|apply stays_refl].
Qed.

Lemma append_only_append s s' l : atoms s' = atoms s ++ l -> append_only s s'.
Proof.
  intros E i a Ha. exists a. split; [|apply stays_refl].
  rewrite E, lookup_app_l; [assumption|]. eapply lookup_lt_Some; eauto.
Qed.

Lemma append_only_get_atom now s id : append_only s (snd (opencog_get_atom now s id)).
Proof.
  rewrite get_atom_snd. destruct (fst (opencog_get_atom now s id));
    [|apply append_only_refl].
  apply append_only_modify. intros a. split; reflexivity.
Qed.

Lemma append_only_verify now out :
  forall s, append_only s (snd (verify_outgoing now s out)).
Proof.
  induction out as [|id out IH]; intros s; simpl; [apply append_only_refl|].
  pose proof (append_only_get_atom now s id) as Hg.
  destruct (opencog_get_atom now s id) as [[j|] s']; simpl in *; [|exact Hg].
  eapply append_only_trans; [exact Hg|apply IH].
Qed.

Lemma append_only_link_incoming now link out :
  forall s, append_only s (link_incoming now s link out).
Proof.
  induction out as [|id out IH]; intros s; simpl; [apply append_only_refl|].
  pose proof (append_only_get_atom now s id) as Hg.
  destruct (opencog_get_atom now s id) as [[j|] s']; simpl in *.
  - eapply append_only_trans; [exact Hg|].
    eapply append_only_trans; [|apply IH].
    apply append_only_modify. intros a. apply stays_push.
  - eapply append_only_trans; [exact Hg|apply IH].
Qed.

Lemma append_only_linked now s ty out : append_only s (linked now s ty out).
Proof.
  unfold linked.
  set (s0 := snd (verify_outgoing now s out)).
  set (s1 := snd (generate_atom_id s0)).
  set (s2 := link_incoming now s1 (next_atom_id s0) out).
  apply (append_only_trans _ s0); [apply append_only_verify|].
  apply (append_only_trans _ s1);
    [intros i a Ha; exists a; split; [exact Ha|apply stays_refl]|].
  apply (append_only_trans _ s2); [apply append_only_link_incoming|].
  apply (append_only_append _ _ [init_link now s1 (next_atom_id s0) ty out]).
  reflexivity.
Qed.

Lemma append_only_beyond s s' i f :
  append_only s s' -> (length (atoms s) <= i)%nat ->
  append_only s (modify_atom i f s').
Proof.
  intros H Hi j a Ha.
  destruct (H j a Ha) as (a' & Ha' & Hs).
  exists a'. split; [|exact Hs].
  rewrite atoms_modify_atom, list_lookup_alter_ne; [exact Ha'|].
  apply lookup_lt_Some in Ha. lia.
Qed.

(** Every call but the import of a unit, on any table. *)
Lemma exec_append_only s0 c s :
  imports (fun _ => False) c -> append_only s0 s -> append_only s0 (exec c s).
Proof.
  apply (exec_keeps (append_only s0)); clear s.
  - intros i f s' Hf H. eapply append_only_trans; [exact H|].
    apply append_only_modify. intros a. apply stays_writer, Hf.
  - intros s' H. eapply append_only_trans; [exact H|].
    intros i a Ha. unfold opencog_update_attention_values. simpl.
    rewrite list_lookup_fmap, Ha. eexists. split; [reflexivity|apply stays_decay].
  - intros s' H. exact H.
  - intros now s' ty n Hroom H. eapply append_only_trans; [exact H|].
    unfold opencog_add_node. apply Nat.leb_gt in Hroom. rewrite Hroom.
    eapply append_only_append. reflexivity.
  - intros now s' ty out _ _ _ H. eapply append_only_trans; [exact H|].
    apply append_only_linked.
  - intros now s' ty out st cf _ _ _ _ H. eapply append_only_trans; [exact H|].
    eapply append_only_trans; [apply append_only_linked|].
    change (append_only ?x (record_success ?y)) with (append_only x y).
    unfold opencog_set_truth_value.
    pose proof (append_only_get_atom now (linked now s' ty out) (next_atom_id s'))
      as Hg.
    destruct (opencog_get_atom now (linked now s' ty out) (next_atom_id s'))
      as [[j|] s'']; simpl in *; [|exact Hg].
    eapply append_only_trans; [exact Hg|].
    apply append_only_modify. intros a. split; reflexivity.
  - intros now s' u [].
Qed.

(** The bridge on a well-formed table: the atom it writes is the one it
    has just appended. *)
Lemma from_cogfluence_unit_append_only now s u :
  wf s -> append_only s (snd (opencog_from_cogfluence_unit now s (Some u))).
Proof.
  intros Hwf. unfold opencog_from_cogfluence_unit.
  destruct (atom_capacity s <=? atom_count s)%nat eqn:Hcap.
  - unfold opencog_add_node. rewrite Hcap. simpl. apply append_only_refl.
  - pose proof (proj2 (add_node_evolves now s (unit_atom_type (Cogfluence.type u))
                         (Some (Cogfluence.name u))) Hwf) as Hwf1.
    assert (H1 : append_only s
                   (snd (opencog_add_node now s (unit_atom_type (Cogfluence.type u))
                           (Some (Cogfluence.name u))))).
    { unfold opencog_add_node. rewrite Hcap.
      eapply append_only_append. reflexivity. }
    assert (Hid : fst (opencog_add_node now s (unit_atom_type (Cogfluence.type u))
                         (Some (Cogfluence.name u))) = next_atom_id s).
    { unfold opencog_add_node. rewrite Hcap. reflexivity. }
    assert (Hlen : atom_count
                     (snd (opencog_add_node now s (unit_atom_type (Cogfluence.type u))
                             (Some (Cogfluence.name u)))) = S (atom_count s)).
    { apply add_node_count, Nat.leb_gt, Hcap. }
    destruct (opencog_add_node now s (unit_atom_type (Cogfluence.type u))
                (Some (Cogfluence.name u))) as [id s1]. cbn [fst snd] in *.
    destruct (0 <? id); [|exact H1].
    unfold opencog_get_atom. destruct (id =? 0); [exact H1|].
    destruct (find_live (atoms s1) id) as [i|] eqn:F; [|exact H1].
    cbn [snd].
    destruct (find_live_Some _ _ _ F) as (a & Ha & Ea & _).
    pose proof (wf_ids s1 Hwf1 i a Ha) as Ei.
    pose proof (wf_next s Hwf) as En.
    apply append_only_beyond.
    + eapply append_only_trans; [exact H1|].
      apply append_only_modify. intros x. split; reflexivity.
    + unfold atom_count in En. lia.
Qed.

Lemma exec_append_only_wf c s :
  imports (fun _ => False) c \/ wf s -> append_only s (exec c s).
Proof.
  intros [H|Hwf]; [apply exec_append_only; [exact H|apply append_only_refl]|].
  destruct c; try (apply exec_append_only; [exact Logic.I|apply append_only_refl]).
  destruct unit as [u|];
    [|apply exec_append_only; [exact Logic.I|apply append_only_refl]].
  apply from_cogfluence_unit_append_only, Hwf.
Qed.

(** X28: the table is append-only.  Whatever calls of the interface are
    made, [opencog_from_cogfluence_unit] included, on a table whose ids
    are handed out in slot order (every table built from
    [opencog_atomspace_init] is one), every atom stays in its slot and
    keeps its id, name, type, unit id, outgoing array, creation time and
    deleted flag; its incoming array only gains entries at the end.  For
    the calls other than the import of a unit this holds on whatever
    table; on a table in which the next id is already taken the import
    writes the unit id of the older atom. *)
Theorem api_is_append_only cs s :
  Forall (imports (fun _ => False)) cs \/ wf s -> append_only s (run cs s).
Proof.
  revert s. induction cs as [|c cs IH]; intros s H; simpl;
    [apply append_only_refl|].
  apply (append_only_trans _ (exec c s)).
  - apply exec_append_only_wf. destruct H as [H|H]; [left|right; exact H].
    inversion H; assumption.
  - apply IH. destruct H as [H|H]; [left; inversion H; assumption|right].
    apply (exec_evolves c s), H.
Qed.

Lemma api_is_append_only_witness :
  wf opencog_atomspace_init /\
  append_only opencog_atomspace_init (run run_imports opencog_atomspace_init) /\
  Forall (imports (fun _ => False)) run_setters /\
  append_only table_a (run run_setters table_a) /\
  ~ append_only table_stale
      (run [Call_from_cogfluence_unit 5 (Some unit_cat)] table_stale).
Proof.
  split; [apply wf_init|].
  split; [apply (api_is_append_only run_imports), or_intror, wf_init|].
  assert (H : Forall (imports (fun _ => False)) run_setters)
    by (repeat constructor).
  split; [exact H|].
  split; [apply (api_is_append_only run_setters), or_introl, H|].
  intros Hn. pose proof (Hn 0%nat) as H0. vm_compute in H0.
  destruct (H0 _ eq_refl) as (a' & Ha' & Hid & _).
  injection Ha' as <-. discriminate Hid.
Defined.

(** ** What a successful inference leaves behind *)

(** The tail shared by the two inference rules, when it reports success:
    the targets were live and the new link sits in the first free slot
    with the clamped truth value. *)
Lemma conclude_success now s ty out st cf :
  wf s ->
  let r := (let '(l, s1) := opencog_add_link now s ty out in
            if 0 <? l
            then (true, record_success (opencog_set_truth_value now s1 l st cf))
            else (false, record_failure s1)) in
  fst r = true ->
  (forall id, In id out -> live_atom s id) /\
  exists x, atoms (snd r) !! atom_count s = Some x /\
    atom_id x = next_atom_id s /\ type x = ty /\ outgoing x = out /\
    incoming x = [] /\ is_deleted x = false /\
    truth_value x = mk_tv (clamp zero one st) (clamp zero one cf) one.
Proof.
  intros Hwf r Hr. subst r.
  destruct (add_link_result now s ty out) as [E|[[_ E]|(Ho & Hroom & Hv & E)]];
    rewrite E in *; simpl in Hr; try discriminate.
  replace (0 <? next_atom_id s) with true in *
    by (symmetry; apply Z.ltb_lt; rewrite (wf_next s Hwf); lia).
  simpl. split.
  { intros id Hin. destruct (verify_outgoing_true now out s Hv id Hin) as [_ [j Hj]].
    apply (find_live_live s id j Hj). }
  pose proof (verify_outgoing_inplace now out s) as Hi0.
  set (s0 := snd (verify_outgoing now s out)) in *.
  set (s1 := snd (generate_atom_id s0)).
  pose proof (link_incoming_inplace now (next_atom_id s0) out s1) as Hi2.
  set (s2 := link_incoming now s1 (next_atom_id s0) out) in *.
  set (x := init_link now s1 (next_atom_id s0) ty out).
  set (s3 := linked now s ty out).
  assert (E3 : atoms s3 = atoms s2 ++ [x]) by reflexivity.
  assert (Hn : length (atoms s2) = atom_count s).
  { pose proof (inplace_count _ _ Hi2) as C2. pose proof (inplace_count _ _ Hi0) as C0.
    unfold atom_count in *. rewrite C2. exact C0. }
  assert (Hx3 : atoms s3 !! atom_count s = Some x).
  { rewrite E3, <- Hn. apply list_lookup_middle. reflexivity. }
  assert (Hwf3 : wf s3) by (apply (linked_evolves now s ty out); assumption).
  assert (Hid : atom_id x = next_atom_id s) by apply (inplace_next _ _ Hi0).
  rewrite <- Hid.
  rewrite (set_truth_value_slot now s3 (atom_count s) x st cf Hwf3 Hx3 eq_refl).
  eexists. split.
  { change (atoms (record_success ?y)) with (atoms y).
    rewrite !atoms_modify_atom, !list_lookup_alter_eq, Hx3. reflexivity. }
  repeat split.
Qed.

Lemma lt_c0_9_lt_one y : ltb y c0_9 = true -> ltb y one = true.
Proof. intros H. apply (ltb_trans _ _ _ H). reflexivity. Qed.

Lemma gt_c0_1_positive y : gtb y c0_1 = true -> ltb zero y = true.
Proof. unfold gtb. intros H. apply (ltb_trans zero c0_1 y); [reflexivity|exact H]. Qed.

(** X29: when [opencog_infer_similarity] returns true on a well-formed
    table, both concepts are live atoms and the first free slot holds
    the new Similarity link with outgoing [[a; b]], an empty incoming
    array, count 1, a strength above 0.1 and at most 1, and a confidence
    between 0 and 0.9. *)
Theorem infer_similarity_success now s a b :
  wf s -> fst (opencog_infer_similarity now s a b) = true ->
  live_atom s a /\ live_atom s b /\
  exists x,
    atoms (snd (opencog_infer_similarity now s a b)) !! atom_count s = Some x /\
    atom_id x = next_atom_id s /\ type x = OPENCOG_SIMILARITY_LINK /\
    outgoing x = [a; b] /\ incoming x = [] /\ is_deleted x = false /\
    count (truth_value x) = one /\
    gtb (strength (truth_value x)) c0_1 = true /\
    in_range zero one (strength (truth_value x)) = true /\
    in_range zero c0_9 (confidence (truth_value x)) = true.
Proof.
  intros Hwf. unfold opencog_infer_similarity.
  destruct (fold_left (relation_step a b) (atoms s) (zero, zero, zero))
    as [[common total_a] total_b].
  set (sim := if gtb (sub (add total_a total_b) common) zero
              then div common (sub (add total_a total_b) common) else zero).
  destruct (gtb sim c0_1) eqn:Hsim; [|discriminate].
  intros Hr.
  destruct (conclude_success now s OPENCOG_SIMILARITY_LINK [a; b] sim
              (fminf c0_9 (div common c10)) Hwf Hr)
    as (Hlive & x & Hx & Hid & Hty & Hout & Hinc & Hdel & Htv).
  split; [apply Hlive; left; reflexivity|].
  split; [apply Hlive; right; left; reflexivity|].
  exists x. split; [exact Hx|]. rewrite Htv. simpl.
  repeat split; auto.
  - (* the strength stays above 0.1 through the clamp *)
    pose proof (gt_c0_1_positive sim Hsim) as Hpos.
    destruct (clamp_cases zero one sim eq_refl) as [(E & _)|[(E & _)|(E & L)]];
      rewrite E; [exact Hsim|reflexivity|congruence].
  - apply clamp_unit.
  - (* the confidence is at most 0.9 *)
    set (y := div common c10).
    destruct (fminf_clamp c0_9 y eq_refl) as [[E Hlt]|[[E _]|[_ E]]];
      [rewrite E|rewrite E; reflexivity|discriminate].
    pose proof (lt_c0_9_lt_one y Hlt) as H1.
    destruct (clamp_cases zero one y eq_refl) as [(E' & L & _)|[(E' & L & _)|(E' & _)]];
      rewrite E'; [|congruence|reflexivity].
    unfold in_range. rewrite (ltb_leb _ _ L), (ltb_leb _ _ Hlt). reflexivity.
Qed.

Lemma infer_similarity_success_witness :
  live_atom table_ab_link 1 /\ live_atom table_ab_link 2 /\
  exists x,
    atoms (snd (opencog_infer_similarity 20 table_ab_link 1 2))
      !! atom_count table_ab_link = Some x /\
    atom_id x = next_atom_id table_ab_link /\ type x = OPENCOG_SIMILARITY_LINK /\
    outgoing x = [1; 2] /\ incoming x = [] /\ is_deleted x = false /\
    count (truth_value x) = one /\
    gtb (strength (truth_value x)) c0_1 = true /\
    in_range zero one (strength (truth_value x)) = true /\
    in_range zero c0_9 (confidence (truth_value x)) = true.
Proof.
  apply infer_similarity_success.
  - apply (wf_reachable ab_link_calls).
  - vm_compute. reflexivity.
Defined.

(** X30: when [opencog_infer_inheritance] returns true on a well-formed
    table, both premise links were found, the two end concepts are live
    atoms, and the first free slot holds the new Inheritance link with
    outgoing [[a; c]], count 1, as strength the clamped product of the
    two premise strengths and as confidence the clamped combination of
    the two premise confidences. *)
Theorem infer_inheritance_success now s a b c :
  wf s -> fst (opencog_infer_inheritance now s a b c) = true ->
  let ab := fst (scan_premises (atoms s) a b c) in
  let bc := snd (scan_premises (atoms s) a b c) in
  ab <> 0 /\ bc <> 0 /\ live_atom s a /\ live_atom s c /\
  exists x,
    atoms (snd (opencog_infer_inheritance now s a b c)) !! atom_count s = Some x /\
    atom_id x = next_atom_id s /\ type x = OPENCOG_INHERITANCE_LINK /\
    outgoing x = [a; c] /\ incoming x = [] /\ is_deleted x = false /\
    truth_value x =
      mk_tv (clamp zero one (mul (strength (truth_of s ab)) (strength (truth_of s bc))))
        (clamp zero one
           (combine_confidence (confidence (truth_of s ab)) (confidence (truth_of s bc))))
        one.
Proof.
  intros Hwf. unfold opencog_infer_inheritance.
  destruct (scan_premises (atoms s) a b c) as [ab bc]. simpl fst. simpl snd.
  destruct ((ab =? 0) || (bc =? 0)) eqn:Hz; [discriminate|].
  apply orb_false_iff in Hz as [Hab Hbc].
  apply Z.eqb_neq in Hab. apply Z.eqb_neq in Hbc.
  pose proof (get_truth_value_fst now s ab) as F1.
  pose proof (get_truth_value_snd now s ab) as S1.
  destruct (opencog_get_truth_value now s ab) as [tv_ab s1]. simpl in F1, S1.
  pose proof (get_truth_value_fst now s1 bc) as F2.
  pose proof (get_truth_value_snd now s1 bc) as S2.
  destruct (opencog_get_truth_value now s1 bc) as [tv_bc s2]. simpl in F2, S2.
  assert (Hi : inplace s s2).
  { subst s2 s1. eapply inplace_trans; apply get_atom_inplace. }
  assert (Hwf2 : wf s2) by (eapply inplace_wf; eauto).
  assert (F2' : tv_bc = truth_of s bc) by (subst tv_bc s1; apply truth_of_touch).
  intros Hr.
  destruct (conclude_success now s2 OPENCOG_INHERITANCE_LINK [a; c] _ _ Hwf2 Hr)
    as (Hlive & x & Hx & Hid & Hty & Hout & Hinc & Hdel & Htv).
  assert (Hback : forall id, live_atom s2 id -> live_atom s id).
  { intros id (y & Hy & Ey & Dy).
    destruct (In_lookup _ _ Hy) as [k Hk].
    assert (Hlt : (k < length (atoms s))%nat).
    { pose proof (lookup_lt_Some _ _ _ Hk) as H. pose proof (inplace_count _ _ Hi) as C.
      unfold atom_count in C. lia. }
    destruct (lookup_lt_is_Some_2 _ _ Hlt) as [y0 Hy0].
    destruct (inplace_grows _ _ Hi k y0 Hy0) as (y' & Hy' & E1 & E2 & _).
    assert (y' = y) by congruence. subst y'.
    exists y0. split; [apply (lookup_In_atoms _ _ _ Hy0)|]. split; congruence. }
  split; [exact Hab|]. split; [exact Hbc|].
  split; [apply Hback, Hlive; left; reflexivity|].
  split; [apply Hback, Hlive; right; left; reflexivity|].
  exists x. rewrite (inplace_count _ _ Hi) in Hx. rewrite (inplace_next _ _ Hi) in Hid.
  split; [exact Hx|]. rewrite Htv. simpl. rewrite F1, F2'. repeat split; auto.
Qed.

Lemma infer_inheritance_success_witness :
  let ab := fst (scan_premises (atoms table_premises) 1 2 3) in
  let bc := snd (scan_premises (atoms table_premises) 1 2 3) in
  ab <> 0 /\ bc <> 0 /\ live_atom table_premises 1 /\ live_atom table_premises 3 /\
  exists x,
    atoms (snd (opencog_infer_inheritance 20 table_premises 1 2 3))
      !! atom_count table_premises = Some x /\
    atom_id x = next_atom_id table_premises /\ type x = OPENCOG_INHERITANCE_LINK /\
    outgoing x = [1; 3] /\ incoming x = [] /\ is_deleted x = false /\
    truth_value x =
      mk_tv (clamp zero one (mul (strength (truth_of table_premises ab))
                               (strength (truth_of table_premises bc))))
        (clamp zero one
           (combine_confidence (confidence (truth_of table_premises ab))
              (confidence (truth_of table_premises bc))))
        one.
Proof.
  apply infer_inheritance_success.
  - apply (wf_reachable premise_calls).
  - vm_compute. reflexivity.
Defined.
